(* ===== verification/_CoqProject ===== *)
-Q . S2P
Prelude.v
PyStr.v
PyDict.v
Element.v
Reparent.v
Forest.v
TreeText.v
ParseScript.v
Markdown.v
Batching.v
CreateDb.v
BatchStep.v
DbScript.v
Search.v
LoadFile.v
Json.v
