(* ===== verification/Prelude.v ===== *)
(** * A verification development for rag-in-action (HW-03, HW-05)

    The repository holds two homework scripts.

    - [src/HW-05/parse_file.py] takes the flat list of "elements" that the
      unstructured library extracts from a PDF (titles, paragraphs, tables,
      page headers and footers, each with an optional [parent_id]) and
      rebuilds the document tree.  [elements_to_visual_tree] renders the tree
      with box-drawing connectors, [elements_to_markdown] renders it as
      Markdown, delegating tables to [_handle_table].  Both first run the same
      pre-processing: elements whose parent is a [Header] are re-parented
      (a [Title] becomes a root, anything else moves under the nearest
      preceding [Title]), the element map is rebuilt without [Header] and
      [Footer] elements, and a parent -> children index is built from it.
      The re-parenting mutates the shared element objects in place.
    - [src/HW-05/load_file.py] loads one file through llama_index, falls back
      to LlamaParse for PDFs whose text is empty, and packages the documents
      as a JSON-like dictionary.
    - [src/HW-03/create_db.py] embeds a list of financial terms in batches of
      1000 and inserts them into a Milvus collection; [src/HW-03/test.py]
      queries the collection.

    ** Layout of the development

    - [Prelude] (this file): the exception-result monad [pyres] that models
      Python's raised exceptions, its laws, the hint database [pyrocq], the
      tactics [py_simp], [decide_prop], [solve_concrete], and generic list
      lemmas.
    - [PyStr]: Python [str] as a list of Unicode code points, with [strip],
      [replace], [split], [split()] and [join] as the CPython builtins behave,
      and the round trips of [split] and [join]; [print_line], the text
      [print] writes: a function that prints returns its value paired with
      its stdout, as the writer-style [Stdout] of rupicola does.
    - [PyDict]: insertion-ordered dicts as association lists
      ([dict_get], [dict_set], the comprehension [dict_of_list], [values()]),
      and [group], the [setdefault(k, []).append(v)] loop.
    - [Element]: the element objects of unstructured (id, category, text,
      [metadata.parent_id], [metadata.text_as_html]) in an object store
      indexed by reference, so that the in-place assignments of the
      re-parenting loop are seen by every alias.
    - [Reparent]: lines 24-59 of [parse_file.py], the element maps and the
      re-parenting loop over [enumerate(elements)] ([reparent_loop],
      [reparent_decision], [scan_back]); the pure specification
      [reparent_spec] and the refinement theorem; the rules 2 and 3 and the
      rule that everything else is kept; idempotence; exactly when it
      raises ([nearest_title_idless]).
    - [Forest]: the parent -> children index (lines 61-64): which elements
      are the children of a key, in which order, and that no Header is left
      as a parent.
    - [TreeText]: [_build_node] and [elements_to_visual_tree] (lines 66-93):
      the bounds of the displayed text ([display_text_bounds]), fuel
      adequacy and monotonicity, equivalence with a direct pre-order
      rendering of the lines ([render_roots_preorder]), and the elements
      a rendering reaches from the roots ([rendered]).
    - [ParseScript]: the module-level script of [parse_file.py] (lines 4-11
      and 229): [partition_pdf] is a parameter; the script prints the
      pre-order lines of the re-parented tree, none of them a Header or
      Footer.
    - [Markdown]: [_build_markdown], [_handle_table] and
      [elements_to_markdown] (lines 95-226); BeautifulSoup is a parameter
      [soup_rows].  The blank-line invariant and where it breaks, the
      separator of [n + 2] columns, the fallback path without separator,
      the layout of HTML tables, termination, what the renderer prints
      (one [表格解析失败] line per exception of the HTML parser, nothing
      else: [markdown_prints_table_errors]), and elements on a cycle of
      [parent_id]s dropped from both renderings ([cycle_dropped]).
    - [Batching]: Python's [range] (by well-founded recursion with Equations)
      and slicing, and the batches of the loop of [create_db.py]: they
      partition the column and there are [ceil(n / 1000)] of them.
    - [CreateDb]: lines 45-121 of [create_db.py] (collection creation
      and the batch loop) in a state monad [stm] whose exceptions keep the state
      (rows inserted and lines logged before a raise stay); the Milvus
      client is the interface [MilvusClient], each call on a named
      collection, with laws [MilvusLaws] and in-memory instances, the
      collection schema the record [schema], the index the record
      [vector_index], the embedding a parameter.  All rows inserted in order, token estimate,
      batch numbers, progress up to 100%, swallowed insert errors, a
      failing [create_index] raising, for any column the [IndexError] of
      the first batch without vectors and the silent truncation of [zip].
    - [BatchStep]: the same batch loop as a small-step machine [step] over
      configurations [Running todo s | Crashed e s]: the run of the
      [Fixpoint] is a path of the machine, and every reachable
      configuration has inserted exactly the batches it has consumed
      (invariant by rule induction).
    - [DbScript]: the preamble of [create_db.py] (lines 17-45):
      the [FileNotFoundError] guard, [fillna], the preview of the first rows,
      the dimension taken from a dummy embedding, and the call to
      [create_db] with the schema of that dimension; the rows inserted
      conform to it.
    - [Search]: [test.py], a search through the interface [MilvusSearch] and
      the loop printing the hits; composed with [create_db], every term
      logged by the query is a term of the column that was inserted, the
      two scripts naming the same collection.
    - [LoadFile]: [load_file.py]: [os.path.splitext] as CPython computes
      it, the [.pdf] test, the LlamaParse fallback condition and the line
      it prints ([load_documents] returns the documents with the text written
      to stdout), the result dictionary, and [chunk_file], which reads the module global [result]
      (the readers are parameters).
    - [Json]: the [__main__] block of [load_file.py] (lines 81-86) and
      [json.dumps(result, ensure_ascii=False, indent=2)] as CPython's
      pure-Python encoder; a reader for the JSON it writes, and the round
      trip: the printed text is read back as the result dictionary.

    ** Recursion depth

    [_build_node] and [_build_markdown] are recursive; CPython raises
    [RecursionError] past its stack limit.  Both are [Fixpoint]s on a fuel
    standing for the calls still allowed, raising [RecursionError] at zero.
    The termination theorems ([visual_tree_terminates],
    [markdown_terminates]) prove that a fuel equal to the number of
    elements always suffices: a path of nested calls is a chain of distinct
    elements linked by [parent_id].  The loop of [create_db.py] is a
    [Fixpoint] over the list [range(0, n, 1000)], which is total.  The JSON
    reader of [Json] is a recursive descent on a fuel, the length of the
    text: every value it reads consumes at least one character, and
    [json_size_le] proves that the fuel a value needs is at most the length
    of its encoding.

    ** Not modelled

    - the imports of the four files, lines 1-16 of [create_db.py] and
      1-14 of [test.py] (logging set-up, embedding model and client
      construction): configuration with no logic of their own; the CSV
      reader, the embedding model and the client are parameters;
    - the libraries the scripts call: unstructured's [partition_pdf],
      the readers of [load_file.py] (llama_index and LlamaParse),
      BeautifulSoup, pandas and the Milvus service; they are parameters or
      interfaces with laws;
    - the float formatting of the progress percentage, and the text of the
      log messages: the log keeps the values formatted;
    - [str.lower] beyond ASCII ([LoadFile.lower_ascii]): the
      only use is the comparison of an extension with ['.pdf'], on which
      the ASCII table is exact (the Kelvin sign and the dotted capital I,
      the non-ASCII characters whose lower case has an ASCII letter, cannot
      give ['.pdf']), but Unicode's full case tables are not modelled, so
      the builtins are partly modelled.
*)

From stdpp Require Export base list option sets relations.

Declare Scope py_scope.
Delimit Scope py_scope with py.

(** ** Python exceptions as values *)

(** The exceptions the modelled code can raise.  [RecursionError] is the
    interpreter's stack limit, which the recursive renderers can hit;
    [ServiceError] is any exception an external service (the Milvus
    client) raises. *)
Inductive exn :=
| AttributeError
| RecursionError
| IndexError
| NameError
| KeyError
| FileNotFoundError
| ZeroDivisionError
| ServiceError.

#[export] Instance exn_eq_dec : EqDecision exn.
Proof. solve_decision. Defined.

(** A computation that returns a value or raises. *)
Inductive pyres (A : Type) : Type :=
| POk (a : A)
| PRaise (e : exn).
Arguments POk {A} a.
Arguments PRaise {A} e.

#[export] Instance pyres_ret : MRet pyres := fun _ a => POk a.
#[export] Instance pyres_bind : MBind pyres := fun A B f m =>
  match m with
  | POk a => f a
  | PRaise e => PRaise e
  end.
#[export] Instance pyres_fmap : FMap pyres := fun A B f m =>
  match m with
  | POk a => POk (f a)
  | PRaise e => PRaise e
  end.

Create HintDb pyrocq discriminated.
Create Rewrite HintDb pyrocq.

Section pyres_laws.
Context {A B : Type}.

Lemma pyres_bind_ok (a : A) (f : A -> pyres B) : (POk a ≫= f) = f a.
Proof. reflexivity. Qed.

Lemma pyres_bind_raise (e : exn) (f : A -> pyres B) : (PRaise e ≫= f) = PRaise e.
Proof. reflexivity. Qed.

Lemma pyres_bind_ok_inv (m : pyres A) (f : A -> pyres B) (b : B) :
  (m ≫= f) = POk b -> exists a, m = POk a /\ f a = POk b.
Proof. destruct m; simpl; [eauto | discriminate]. Qed.

Lemma pyres_fmap_ok (g : A -> B) (m : pyres A) (b : B) :
  (g <$> m) = POk b -> exists a, m = POk a /\ b = g a.
Proof. destruct m; simpl; intros H; inversion H; eauto. Qed.

Lemma pyres_bind_raise_inv (m : pyres A) (f : A -> pyres B) (e : exn) :
  (m ≫= f) = PRaise e -> m = PRaise e \/ exists a, m = POk a /\ f a = PRaise e.
Proof. destruct m; simpl; eauto. intros H. inversion H. auto. Qed.

Lemma pyres_fmap_raise (g : A -> B) (m : pyres A) (e : exn) :
  (g <$> m) = PRaise e -> m = PRaise e.
Proof. destruct m; simpl; intros H; inversion H; auto. Qed.
End pyres_laws.

#[export] Hint Rewrite @pyres_bind_ok @pyres_bind_raise : pyrocq.

(** Simplify binds of the result monad in the goal and the hypotheses. *)
Ltac py_simp :=
  repeat match goal with
  | H : (_ ≫= _) = POk _ |- _ =>
      let a := fresh "a" in let Ha := fresh "Ha" in
      apply pyres_bind_ok_inv in H as [a [Ha H]]
  | H : POk _ = POk _ |- _ => injection H as H
  | H : PRaise _ = POk _ |- _ => discriminate H
  | H : POk _ = PRaise _ |- _ => discriminate H
  end; autorewrite with pyrocq in *.

(** Close a decidable proposition about concrete data by computation. *)
Ltac decide_prop := apply (bool_decide_unpack _); vm_compute; reflexivity.

(** Discharge the hypotheses of a theorem applied to concrete data. *)
Ltac solve_concrete :=
  first [ vm_compute; reflexivity
             | vm_compute; eexists; reflexivity
             | split; decide_prop
         | decide_prop ].

(** ** Generic list lemmas *)

Lemma sum_list_with_fmap {A B} (f : B -> nat) (g : A -> B) (l : list A) :
  sum_list_with f (g <$> l) = sum_list_with (fun x => f (g x)) l.
Proof. induction l as [|x l IH]; simpl; [done|]. rewrite <- IH. reflexivity. Qed.

Lemma sum_list_with_concat {A} (f : A -> nat) (ls : list (list A)) :
  sum_list_with f (concat ls) = sum_list_with (sum_list_with f) ls.
Proof. induction ls as [|l ls IH]; simpl; [done|]. by rewrite sum_list_with_app, IH. Qed.

