(* ===== verification/PyStr.v ===== *)
(** * Python [str] as a list of Unicode code points

    A Python string is a sequence of code points: [len], slicing and
    indexing count code points, not bytes.  [pystr] is therefore [list N].
    This file models the builtins that [parse_file.py] and [create_db.py]
    call: [str.strip] (CPython's Unicode whitespace set), [str.replace] with a
    one-character pattern, [str.split(sep)] with a one-character separator,
    [str.split()] with no argument, [sep.join] and the slice [s[:n]].  The
    round trip [sep.join(s.split(sep)) == s] and its converse are proved here
    because the tree renderer relies on them. *)

From S2P Require Import Prelude.
From stdpp Require Import numbers strings.
From Stdlib Require Import NArith Ascii.

Abbreviation pystr := (list N).

(** An ASCII literal as a Python string: each character is its code point. *)
Definition s_ (s : string) : pystr := map N_of_ascii (String.list_ascii_of_string s).

Definition nl : N := 10%N.

(** [str.isspace] for one code point (CPython's [Py_UNICODE_ISSPACE]). *)
Definition is_space (c : N) : bool :=
  ((9 <=? c) && (c <=? 13))%N || ((28 <=? c) && (c <=? 32))%N ||
  (c =? 133)%N || (c =? 160)%N || (c =? 5760)%N ||
  ((8192 <=? c) && (c <=? 8202))%N || (c =? 8232)%N || (c =? 8233)%N ||
  (c =? 8239)%N || (c =? 8287)%N || (c =? 12288)%N.

(** [s.lstrip()], [s.rstrip()], [s.strip()]. *)
Fixpoint lstrip (s : pystr) : pystr :=
  match s with
  | [] => []
  | c :: s' => if is_space c then lstrip s' else s
  end.

Definition rstrip (s : pystr) : pystr := rev (lstrip (rev s)).

Definition strip (s : pystr) : pystr := rstrip (lstrip s).

(** [s.replace(old, new)] where [old] is the one-character string [[c]]:
    every occurrence is replaced, left to right. *)
Definition replace_char (c : N) (r : pystr) (s : pystr) : pystr :=
  flat_map (fun x => if (x =? c)%N then r else [x]) s.

(** Splitting at every code point that satisfies [p], keeping empty
    pieces: [s.split(sep)] for a one-character [sep]. *)
Fixpoint split_by (p : N -> bool) (s : pystr) : list pystr :=
  match s with
  | [] => [[]]
  | x :: s' =>
      let r := split_by p s' in
      if p x then [] :: r
      else match r with
           | h :: t => (x :: h) :: t
           | [] => [[x]]
           end
  end.

Definition split_on (c : N) (s : pystr) : list pystr := split_by (N.eqb c) s.

(** [s.split()] with no argument: runs of whitespace separate the words,
    and leading or trailing whitespace gives no empty word. *)
Definition split_ws (s : pystr) : list pystr :=
  filter (fun w => negb (bool_decide (w = []))) (split_by is_space s).

(** [sep.join(parts)]. *)
Fixpoint str_join (sep : pystr) (l : list pystr) : pystr :=
  match l with
  | [] => []
  | [x] => x
  | x :: xs => x ++ sep ++ str_join sep xs
  end.

(** [print(s)] writes [s] and a newline.  A function that prints returns
    its value paired with the text it wrote to stdout. *)
Definition print_line (s : pystr) : pystr := s ++ [nl].

(** [s[:n]]. *)
Definition slice_to (n : nat) (s : pystr) : pystr := take n s.

(** * Lemmas *)

Lemma split_by_not_nil p s : split_by p s <> [].
Proof.
  induction s as [|x s IH]; simpl; [discriminate|].
  destruct (p x); [discriminate|]. destruct (split_by p s); [contradiction|discriminate].
Qed.

Lemma str_join_cons_cons sep x y l :
  str_join sep (x :: y :: l) = x ++ sep ++ str_join sep (y :: l).
Proof. reflexivity. Qed.

Lemma str_join_app sep l1 l2 :
  l1 <> [] -> l2 <> [] -> str_join sep (l1 ++ l2) = str_join sep l1 ++ sep ++ str_join sep l2.
Proof.
  intros H1 H2. induction l1 as [|x [|y l1] IH]; [congruence| |].
  - simpl. destruct l2; [congruence|]. reflexivity.
  - cbn [app]. rewrite str_join_cons_cons. change (y :: l1 ++ l2) with ((y :: l1) ++ l2).
    rewrite IH by discriminate. rewrite str_join_cons_cons. by rewrite !app_assoc.
Qed.

Lemma str_join_nil_cons sep r : r <> [] -> str_join sep ([] :: r) = sep ++ str_join sep r.
Proof. destruct r; [congruence|reflexivity]. Qed.

Lemma str_join_cons_head sep x h t : str_join sep ((x :: h) :: t) = x :: str_join sep (h :: t).
Proof. destruct t; reflexivity. Qed.

(** Round trip: [sep.join(s.split(sep)) == s]. *)
Theorem join_split_on c s : str_join [c] (split_on c s) = s.
Proof.
  unfold split_on. induction s as [|x s IH]; [reflexivity|]. simpl.
  pose proof (split_by_not_nil (N.eqb c) s) as Hne.
  destruct (N.eqb_spec c x) as [->|Hcx].
  - rewrite str_join_nil_cons by exact Hne. simpl. by rewrite IH.
  - destruct (split_by (N.eqb c) s) as [|h t]; [congruence|].
    rewrite str_join_cons_head. by rewrite IH.
Qed.

(** The pieces of a split never contain the separator. *)
Lemma split_on_pieces c s : Forall (fun w => c ∉ w) (split_on c s).
Proof.
  unfold split_on. induction s as [|x s IH]; simpl.
  - repeat constructor. apply not_elem_of_nil.
  - destruct (N.eqb_spec c x) as [->|Hcx].
    + constructor; [apply not_elem_of_nil | exact IH].
    + revert IH. destruct (split_by (N.eqb c) s) as [|h t]; intros IH;
        [repeat constructor; set_solver|].
      apply Forall_cons_iff in IH as [Hh Ht]. constructor; [|exact Ht].
      rewrite elem_of_cons. naive_solver.
Qed.

(** Converse round trip: splitting a str_join of separator-free pieces gives
    the pieces back. *)
Theorem split_on_join c l :
  l <> [] -> Forall (fun w => c ∉ w) l -> split_on c (str_join [c] l) = l.
Proof.
  unfold split_on. intros Hne Hall.
  induction l as [|w [|w' l] IH]; [congruence| |].
  - apply Forall_cons_iff in Hall as [Hw _]. simpl.
    induction w as [|x w IHw]; [reflexivity|]. simpl.
    rewrite elem_of_cons in Hw.
    destruct (N.eqb_spec c x); [naive_solver|].
    rewrite IHw by naive_solver. reflexivity.
  - apply Forall_cons_iff in Hall as [Hw Hrest].
    rewrite str_join_cons_cons. specialize (IH ltac:(discriminate) Hrest).
    change ([c] ++ str_join [c] (w' :: l)) with (c :: str_join [c] (w' :: l)).
    induction w as [|x w IHw]; cbn [app split_by].
    + rewrite N.eqb_refl, IH. reflexivity.
    + rewrite elem_of_cons in Hw.
      destruct (N.eqb_spec c x); [naive_solver|].
      rewrite IHw by naive_solver. reflexivity.
Qed.

(** Joining with [ind ++ [c]] is joining with [c] the pieces with [ind]
    appended to every one but the last. *)
Lemma str_join_suffix_sep (ind : pystr) c rs rl :
  str_join (ind ++ [c]) (rs ++ [rl]) = str_join [c] (map (fun r => r ++ ind) rs ++ [rl]).
Proof.
  induction rs as [|r rs IH]; [done|]. cbn [app map].
  destruct rs as [|r' rs]; cbn [app map] in *.
  - rewrite !str_join_cons_cons. by rewrite <- !app_assoc.
  - rewrite !str_join_cons_cons, IH. by rewrite <- !app_assoc.
Qed.

Lemma str_join_not_elem c sep l :
  c ∉ sep -> Forall (fun w => c ∉ w) l -> c ∉ str_join sep l.
Proof.
  intros Hs Hl. induction Hl as [|w [|w' l] Hw Hl IH]; simpl; [apply not_elem_of_nil|done|].
  rewrite !elem_of_app. naive_solver.
Qed.

Lemma lstrip_head s : match lstrip s with [] => True | c :: _ => is_space c = false end.
Proof. induction s as [|c s IH]; simpl; [done|]. destruct (is_space c) eqn:E; simpl; auto. Qed.

Lemma lstrip_idem s : lstrip (lstrip s) = lstrip s.
Proof.
  induction s as [|c s IH]; simpl; [done|].
  destruct (is_space c) eqn:E; [exact IH|]. simpl. by rewrite E.
Qed.

Lemma replace_char_not_in c r s : c ∉ r -> c ∉ replace_char c r s.
Proof.
  intros Hr. unfold replace_char. induction s as [|x s IH]; simpl; [set_solver|].
  rewrite elem_of_app. destruct (N.eqb_spec x c) as [->|Hxc]; [naive_solver|].
  rewrite list_elem_of_singleton. naive_solver.
Qed.

Lemma length_slice_to n s : length (slice_to n s) = Nat.min n (length s).
Proof. apply length_take. Qed.

#[export] Hint Resolve split_by_not_nil split_on_pieces replace_char_not_in : pyrocq.

Example s_run : s_ "ab" = [97%N; 98%N].
Proof. reflexivity. Qed.

Lemma elem_of_rev_iff {A} (x : A) (l : list A) : x ∈ rev l <-> x ∈ l.
Proof. rewrite !list_elem_of_In. symmetry. apply in_rev. Qed.

Lemma lstrip_subseteq s : lstrip s ⊆ s.
Proof.
  induction s as [|c s IH]; simpl; [done|].
  destruct (is_space c); [set_solver|reflexivity].
Qed.

Lemma strip_subseteq s : strip s ⊆ s.
Proof.
  unfold strip, rstrip. intros y Hy.
  rewrite elem_of_rev_iff in Hy. apply (lstrip_subseteq (rev (lstrip s))) in Hy.
  rewrite elem_of_rev_iff in Hy. exact (lstrip_subseteq s y Hy).
Qed.

(** Splitting gives one piece more than there are separators. *)
Lemma length_split_by p s : length (split_by p s) = S (length (filter (fun c => p c = true) s)).
Proof.
  induction s as [|x s IH]; simpl; [done|]. rewrite filter_cons.
  destruct (p x) eqn:E; simpl; [by rewrite IH|].
  pose proof (split_by_not_nil p s) as Hne.
  destruct (split_by p s) as [|w t]; [congruence|]. simpl in *. rewrite IH.
  by destruct (decide (false = true)).
Qed.

Lemma filter_eq_nil (c : N) (w : pystr) : c ∉ w -> filter (fun x => x = c) w = [].
Proof.
  induction w as [|x w IH]; intros Hw; [done|]. rewrite elem_of_cons in Hw.
  rewrite filter_cons_False by naive_solver. apply IH. naive_solver.
Qed.

(** Occurrences of [c] in a join of pieces without [c], when the separator
    holds one [c]. *)
Lemma count_str_join (c : N) sep l :
  length (filter (fun x => x = c) sep) = 1 -> Forall (fun w => c ∉ w) l -> l <> [] ->
  length (filter (fun x => x = c) (str_join sep l)) = length l - 1.
Proof.
  intros Hsep Hall Hne. induction l as [|w [|w' l] IH]; [congruence| |].
  - apply Forall_cons_iff in Hall as [Hw _]. simpl. by rewrite filter_eq_nil.
  - apply Forall_cons_iff in Hall as [Hw Hrest]. rewrite str_join_cons_cons, !filter_app, !length_app.
    rewrite filter_eq_nil by done. rewrite Hsep, IH by (done || discriminate). simpl. lia.
Qed.
