(* ===== verification/PyDict.v ===== *)
(** * Python [dict] with insertion order

    A Python dict iterates in insertion order, and assigning an existing key
    keeps the key at its first position while replacing the value.  A stdpp
    [gmap] forgets the order, and [parse_file.py] depends on it ([for element
    in element_map.values()] decides the sibling order of the tree), so the
    dict is an association list with unique keys.  The operations are the
    ones the code uses: [d.get(k)], [d[k] = v], a dict comprehension,
    [d.values()], and [d.setdefault(k, []).append(x)] (also what
    [defaultdict(list)] does with [d[k].append(x)]).

    The invariant is that keys are unique; every operation preserves it.
    The main lemma, [group_get], says that grouping a list by a key function
    gives, for every key, the sublist of the items with that key in their
    original order. *)

From S2P Require Import Prelude.

Section pydict.
Context {K V : Type} `{EqDecision K}.
Implicit Types (k : K) (v : V) (d : list (K * V)).

(** [d.get(k)] *)
Fixpoint dict_get k d : option V :=
  match d with
  | [] => None
  | (k', v) :: d' => if decide (k = k') then Some v else dict_get k d'
  end.

(** [d[k] = v]: in place when [k] is present, appended otherwise. *)
Fixpoint dict_set k v d : list (K * V) :=
  match d with
  | [] => [(k, v)]
  | (k', v') :: d' =>
      if decide (k = k') then (k', v) :: d' else (k', v') :: dict_set k v d'
  end.

Definition dict_keys d : list K := map fst d.
Definition dict_values d : list V := map snd d.

(** [{f(x): g(x) for x in xs}]: later items overwrite earlier ones. *)
Definition dict_of_list (l : list (K * V)) : list (K * V) :=
  fold_left (fun d kv => dict_set kv.1 kv.2 d) l [].

Definition dict_wf d : Prop := NoDup (dict_keys d).

Lemma dict_get_set_eq k v d : dict_get k (dict_set k v d) = Some v.
Proof.
  induction d as [|[k' v'] d IH]; simpl; [by rewrite decide_True|].
  case_decide as Hk; simpl; [by rewrite decide_True|].
  by rewrite decide_False.
Qed.

Lemma dict_get_set_ne k k2 v d : k2 <> k -> dict_get k2 (dict_set k v d) = dict_get k2 d.
Proof.
  intros Hne. induction d as [|[k' v'] d IH]; simpl; [by rewrite decide_False|].
  case_decide as Hk; simpl; [subst k'|].
  - by rewrite !(decide_False (P := k2 = k)).
  - by rewrite IH.
Qed.

Lemma dict_get_Some_in k v d : dict_get k d = Some v -> k ∈ dict_keys d.
Proof.
  induction d as [|[k' v'] d IH]; simpl; [discriminate|].
  case_decide; subst; rewrite elem_of_cons; naive_solver.
Qed.

Lemma dict_get_None k d : k ∉ dict_keys d -> dict_get k d = None.
Proof.
  induction d as [|[k' v'] d IH]; simpl; [done|].
  rewrite elem_of_cons. case_decide; naive_solver.
Qed.

Lemma dict_keys_set_in k v d : k ∈ dict_keys d -> dict_keys (dict_set k v d) = dict_keys d.
Proof.
  induction d as [|[k' v'] d IH]; simpl; [set_solver|].
  rewrite elem_of_cons. case_decide; simpl; [done|]. intros [?|?]; [congruence|].
  f_equal. auto.
Qed.

Lemma dict_keys_set_notin k v d : k ∉ dict_keys d -> dict_keys (dict_set k v d) = dict_keys d ++ [k].
Proof.
  induction d as [|[k' v'] d IH]; simpl; [done|].
  rewrite elem_of_cons. case_decide; simpl; [naive_solver|]. intros ?. f_equal. naive_solver.
Qed.

(** The invariant: assignment keeps the keys unique. *)
Lemma dict_set_wf k v d : dict_wf d -> dict_wf (dict_set k v d).
Proof.
  unfold dict_wf. intros Hnd. destruct (decide (k ∈ dict_keys d)) as [Hin|Hnin].
  - by rewrite dict_keys_set_in.
  - rewrite dict_keys_set_notin by done. apply NoDup_app. split_and!; [done| |].
    + intros x Hx ->%list_elem_of_singleton. contradiction.
    + apply NoDup_singleton.
Qed.

Lemma dict_of_list_wf l : dict_wf (dict_of_list l).
Proof.
  unfold dict_of_list. cut (forall d, dict_wf d -> dict_wf (fold_left (fun d kv => dict_set kv.1 kv.2 d) l d)).
  { intros H. apply H. constructor. }
  induction l as [|kv l IH]; simpl; [done|]. intros d Hd. apply IH, dict_set_wf, Hd.
Qed.

(** A comprehension over items with distinct keys keeps them in order. *)
Lemma dict_of_list_nodup l : NoDup (map fst l) -> dict_of_list l = l.
Proof.
  unfold dict_of_list. intros Hnd.
  cut (forall d, NoDup (map fst d ++ map fst l) ->
         fold_left (fun d kv => dict_set kv.1 kv.2 d) l d = d ++ l).
  { intros H. by apply H. }
  clear Hnd. induction l as [|[k v] l IH]; intros d Hnd; simpl; [by rewrite app_nil_r|].
  assert (k ∉ dict_keys d) as Hk.
  { apply NoDup_app in Hnd as (_ & Hdis & _). intros Hin. apply (Hdis k Hin). set_solver. }
  assert (dict_set k v d = d ++ [(k, v)]) as ->.
  { clear -Hk. induction d as [|[k' v'] d IH]; simpl in *; [done|].
    rewrite elem_of_cons in Hk. rewrite decide_False by naive_solver. f_equal. naive_solver. }
  rewrite IH; [by rewrite <- app_assoc|]. rewrite map_app, <- app_assoc. exact Hnd.
Qed.
End pydict.

(** * Grouping: [d.setdefault(key(x), []).append(x)] over a list *)

Section group.
Context {K A : Type} `{EqDecision K}.
Variable key : A -> K.

(** [d.setdefault(k, []).append(x)] *)
Definition setdefault_append (k : K) (x : A) (d : list (K * list A)) : list (K * list A) :=
  dict_set k (default [] (dict_get k d) ++ [x]) d.

(** [for x in xs: d.setdefault(key(x), []).append(x)], from [d]. *)
Definition group_into (xs : list A) (d : list (K * list A)) : list (K * list A) :=
  fold_left (fun d x => setdefault_append (key x) x d) xs d.

Definition group (xs : list A) : list (K * list A) := group_into xs [].

Lemma group_into_get (xs : list A) d k :
  dict_get k (group_into xs d) =
    match dict_get k d, filter (fun x => key x = k) xs with
    | None, [] => None
    | o, ys => Some (default [] o ++ ys)
    end.
Proof.
  revert d. induction xs as [|x xs IH]; intros d; simpl.
  - rewrite filter_nil. destruct (dict_get k d); simpl; by rewrite ?app_nil_r.
  - unfold group_into in IH. rewrite IH. unfold setdefault_append.
    destruct (decide (key x = k)) as [<-|Hne].
    + rewrite dict_get_set_eq, filter_cons_True by done. simpl.
      destruct (dict_get (key x) d); simpl; by rewrite <- ?app_assoc.
    + rewrite dict_get_set_ne, filter_cons_False by done. done.
Qed.

(** The children list of a key is the sublist of the items with that
    key, in their original order; an absent key has no entry. *)
Theorem group_get (xs : list A) k :
  dict_get k (group xs) =
    match filter (fun x => key x = k) xs with
    | [] => None
    | ys => Some ys
    end.
Proof. unfold group. rewrite group_into_get. simpl. by destruct (filter _ xs). Qed.

(** [d.get(k, [])] on the grouped dict. *)
Corollary group_get_default (xs : list A) k :
  default [] (dict_get k (group xs)) = filter (fun x => key x = k) xs.
Proof. rewrite group_get. by destruct (filter _ xs). Qed.

Lemma group_wf (xs : list A) : dict_wf (group xs).
Proof.
  unfold group, group_into. cut (forall d, dict_wf d -> dict_wf (fold_left (fun d x => setdefault_append (key x) x d) xs d)).
  { intros H. apply H. constructor. }
  induction xs as [|x xs IH]; simpl; [done|]. intros d Hd. apply IH, dict_set_wf, Hd.
Qed.
End group.

#[export] Hint Resolve dict_set_wf dict_of_list_wf group_wf : pyrocq.

(** Mapping the values before or after a comprehension gives the same dict. *)
Lemma dict_set_fmap {K V W : Type} `{EqDecision K} (f : V -> W) k v (d : list (K * V)) :
  dict_set k (f v) (map (prod_map id f) d) = map (prod_map id f) (dict_set k v d).
Proof.
  induction d as [|[k' v'] d IH]; simpl; [done|]. case_decide; simpl; [done|]. by rewrite IH.
Qed.

Lemma dict_of_list_fmap {K V W : Type} `{EqDecision K} (f : V -> W) (l : list (K * V)) :
  dict_of_list (map (prod_map id f) l) = map (prod_map id f) (dict_of_list l).
Proof.
  unfold dict_of_list. change [] with (map (prod_map (@id K) f) []) at 1.
  generalize (@nil (K * V)). induction l as [|[k v] l IH]; intros d; simpl; [done|].
  rewrite dict_set_fmap. apply IH.
Qed.

Lemma dict_get_fmap {K V W : Type} `{EqDecision K} (f : V -> W) k (d : list (K * V)) :
  dict_get k (map (prod_map id f) d) = f <$> dict_get k d.
Proof. induction d as [|[k' v'] d IH]; simpl; [done|]. by case_decide. Qed.

Lemma dict_values_of_list_nodup {K V : Type} `{EqDecision K} (l : list (K * V)) :
  NoDup (map fst l) -> dict_values (dict_of_list l) = map snd l.
Proof. intros H. by rewrite dict_of_list_nodup. Qed.

Lemma dict_get_nodup_in {K V : Type} `{EqDecision K} (l : list (K * V)) k v :
  NoDup (map fst l) -> (k, v) ∈ l -> dict_get k l = Some v.
Proof.
  induction l as [|[k' v'] l IH]; simpl; intros Hnd Hin; [set_solver|].
  apply NoDup_cons in Hnd as [Hk Hnd]. apply elem_of_cons in Hin as [Heq|Hin].
  - injection Heq as <- <-. by rewrite decide_True.
  - rewrite decide_False; [by apply IH|]. intros Hkk. subst k'. apply Hk.
    apply list_elem_of_fmap. by exists (k, v).
Qed.

Lemma dict_set_entries {K V : Type} `{EqDecision K} k v (d : list (K * V)) kv :
  kv ∈ dict_set k v d -> kv = (k, v) \/ kv ∈ d.
Proof.
  induction d as [|[k' v'] d IH]; simpl; [set_solver|].
  case_decide; subst; rewrite !elem_of_cons; [naive_solver|]. intros [?|Hin]; [naive_solver|].
  destruct (IH Hin); naive_solver.
Qed.

(** Every entry of a comprehension is one of its items. *)
Lemma dict_of_list_entries {K V : Type} `{EqDecision K} (l : list (K * V)) kv :
  kv ∈ dict_of_list l -> kv ∈ l.
Proof.
  unfold dict_of_list. cut (forall d, kv ∈ fold_left (fun d kv => dict_set kv.1 kv.2 d) l d -> kv ∈ d \/ kv ∈ l).
  { intros H Hin. destruct (H [] Hin) as [Hd|]; [set_solver|done]. }
  induction l as [|[k v] l IH]; simpl; intros d Hin; [by left|].
  destruct (IH _ Hin) as [Hd|Hl]; [|set_solver].
  apply dict_set_entries in Hd as [->|Hd]; set_solver.
Qed.

Lemma dict_values_elem {K V : Type} (d : list (K * V)) v :
  v ∈ dict_values d <-> exists k, (k, v) ∈ d.
Proof.
  unfold dict_values. rewrite list_elem_of_fmap. split.
  - intros [[k v'] [-> Hin]]. by exists k.
  - intros [k Hin]. by exists (k, v).
Qed.
