(* ===== verification/Element.v ===== *)
(** * Document elements and the object store that holds them

    [parse_file.py] receives the list returned by unstructured's
    [partition_pdf].  Each element is a Python object with an [id] (tested
    with [hasattr]), a [category] string, a [text], and a [metadata] object
    whose [parent_id] and [text_as_html] attributes may be missing or
    [None].  [element] is that object's state: [el_id = None] stands for a
    missing [id] attribute, and [parent_id = None] for a missing or [None]
    [metadata.parent_id] (the code reads both with [getattr(..., None)]).

    The code compares [category] with string literals.  [element_category] lists
    the categories of unstructured's element classes that the code or its
    output names, plus [OtherCategory] for the rest; a comparison
    [element.category == "Title"] is [cat_is "Title"], a comparison of
    names, exactly as Python compares strings.  [category_wf] says an
    [OtherCategory] does not reuse a listed name; under it a name test is a
    constructor test ([cat_is_iff]).

    The re-parenting pass assigns [element.metadata.parent_id] on the
    objects of the caller's list, so the objects are modelled as a [store]:
    a list of object states indexed by reference, and the caller's list is a
    list of references.  A second call on the same list sees the assignments
    of the first. *)

From S2P Require Import Prelude PyStr.
From stdpp Require Import strings.

Inductive element_category :=
| Title | NarrativeText | UncategorizedText | ListItem | Table | TableRow | TableCell
| Image | FigureCaption | Formula | Address | EmailAddress | PageBreak | PageNumber
| CodeSnippet | Header | Footer
| OtherCategory (name : pystr).

#[export] Instance category_eq_dec : EqDecision element_category.
Proof. solve_decision. Defined.

(** The string [element.category]. *)
Definition category_name (c : element_category) : pystr :=
  match c with
  | Title => s_ "Title" | NarrativeText => s_ "NarrativeText"
  | UncategorizedText => s_ "UncategorizedText" | ListItem => s_ "ListItem"
  | Table => s_ "Table" | TableRow => s_ "TableRow" | TableCell => s_ "TableCell"
  | Image => s_ "Image" | FigureCaption => s_ "FigureCaption" | Formula => s_ "Formula"
  | Address => s_ "Address" | EmailAddress => s_ "EmailAddress"
  | PageBreak => s_ "PageBreak" | PageNumber => s_ "PageNumber"
  | CodeSnippet => s_ "CodeSnippet" | Header => s_ "Header" | Footer => s_ "Footer"
  | OtherCategory n => n
  end.

Definition known_categories : list element_category :=
  [Title; NarrativeText; UncategorizedText; ListItem; Table; TableRow; TableCell;
   Image; FigureCaption; Formula; Address; EmailAddress; PageBreak; PageNumber;
   CodeSnippet; Header; Footer].

Definition category_wf (c : element_category) : Prop :=
  match c with
  | OtherCategory n => n ∉ map category_name known_categories
  | _ => True
  end.

(** [category == name] *)
Definition cat_is (name : string) (c : element_category) : bool :=
  bool_decide (category_name c = s_ name).

Record element := mkElement {
  el_id : option pystr;
  category : element_category;
  text : pystr;
  parent_id : option pystr;
  text_as_html : option pystr;
}.

#[export] Instance element_eq_dec : EqDecision element.
Proof. solve_decision. Defined.

#[export] Instance element_inhabited : Inhabited element :=
  populate (mkElement None NarrativeText [] None None).

(** [element.metadata.parent_id = p] *)
Definition set_parent_id (e : element) (p : option pystr) : element :=
  {| el_id := el_id e; category := category e; text := text e;
     parent_id := p; text_as_html := text_as_html e |}.

Definition is_title (e : element) : bool := cat_is "Title" (category e).
Definition is_header (e : element) : bool := cat_is "Header" (category e).
(** [element.category not in ["Header", "Footer"]], negated. *)
Definition is_header_or_footer (e : element) : bool :=
  cat_is "Header" (category e) || cat_is "Footer" (category e).

(** Python truthiness of an optional string: [None] and [""] are false. *)
Definition truthy (o : option pystr) : option pystr :=
  match o with
  | Some (_ :: _) => o
  | _ => None
  end.

(** * The object store *)

Abbreviation ref := nat.
Abbreviation store := (list element).

(** Reading a field of the object [r]. *)
Definition deref (h : store) (r : ref) : element := h !!! r.

(** Assigning [metadata.parent_id] of the object [r]. *)
Definition store_set_parent (h : store) (r : ref) (p : option pystr) : store :=
  <[r := set_parent_id (h !!! r) p]> h.

(** * Lemmas *)

Lemma set_parent_id_category e p : category (set_parent_id e p) = category e.
Proof. reflexivity. Qed.

Lemma set_parent_id_el_id e p : el_id (set_parent_id e p) = el_id e.
Proof. reflexivity. Qed.

Lemma set_parent_id_parent e p : parent_id (set_parent_id e p) = p.
Proof. reflexivity. Qed.

Lemma set_parent_id_twice e p q : set_parent_id (set_parent_id e p) q = set_parent_id e q.
Proof. reflexivity. Qed.

Lemma set_parent_id_same e : set_parent_id e (parent_id e) = e.
Proof. by destruct e. Qed.

(** Under [category_wf], comparing the name is comparing the constructor. *)
Lemma cat_is_iff (c c0 : element_category) (name : string) :
  category_wf c -> c0 ∈ known_categories -> category_name c0 = s_ name ->
  cat_is name c = true <-> c = c0.
Proof.
  intros Hwf Hk Hn. unfold cat_is. rewrite bool_decide_eq_true, <- Hn. split; [|by intros ->].
  destruct c; simpl in Hwf; try (intros H; apply list_elem_of_In in Hk; simpl in Hk;
    destruct_or! Hk; subst c0; vm_compute in H; congruence).
  intros Heq. exfalso. apply Hwf. simpl in Heq. rewrite Heq.
  change (category_name c0 ∈ map category_name known_categories). by apply list_elem_of_fmap_2.
Qed.

Lemma is_title_iff e : category_wf (category e) -> is_title e = true <-> category e = Title.
Proof. intros Hwf. apply cat_is_iff; [done | by left | reflexivity]. Qed.

Lemma is_header_iff e : category_wf (category e) -> is_header e = true <-> category e = Header.
Proof. intros Hwf. apply cat_is_iff; [done | set_solver | reflexivity]. Qed.

Lemma header_not_title e : is_header e = true -> is_title e = false.
Proof.
  unfold is_header, is_title, cat_is. rewrite bool_decide_eq_true. intros ->.
  by vm_compute.
Qed.

Lemma store_set_parent_deref_eq h r p :
  r < length h -> deref (store_set_parent h r p) r = set_parent_id (deref h r) p.
Proof.
  intros Hr. unfold deref, store_set_parent.
  apply list_lookup_total_correct, list_lookup_insert_eq. exact Hr.
Qed.

Lemma store_set_parent_deref_ne h r r' p :
  r <> r' -> deref (store_set_parent h r p) r' = deref h r'.
Proof.
  intros Hne. unfold deref, store_set_parent.
  rewrite !list_lookup_total_alt, list_lookup_insert_ne by done. reflexivity.
Qed.

Lemma deref_insert_eq h r e : r < length h -> deref (<[r := e]> h) r = e.
Proof. intros Hr. apply list_lookup_total_correct, list_lookup_insert_eq. exact Hr. Qed.

Lemma deref_insert_ne h r r' e : r <> r' -> deref (<[r := e]> h) r' = deref h r'.
Proof. intros Hne. unfold deref. rewrite !list_lookup_total_alt, list_lookup_insert_ne by done. reflexivity. Qed.

(** An assignment of [parent_id] changes no category or id. *)
Lemma store_set_parent_category h r p r' :
  category (deref (store_set_parent h r p) r') = category (deref h r').
Proof.
  destruct (decide (r = r')) as [<-|Hne]; [|by rewrite store_set_parent_deref_ne].
  destruct (decide (r < length h)) as [Hr|Hr]; [by rewrite store_set_parent_deref_eq|].
  unfold store_set_parent. by rewrite list_insert_ge by lia.
Qed.

Lemma store_set_parent_el_id h r p r' :
  el_id (deref (store_set_parent h r p) r') = el_id (deref h r').
Proof.
  destruct (decide (r = r')) as [<-|Hne]; [|by rewrite store_set_parent_deref_ne].
  destruct (decide (r < length h)) as [Hr|Hr]; [by rewrite store_set_parent_deref_eq|].
  unfold store_set_parent. by rewrite list_insert_ge by lia.
Qed.

Lemma length_store_set_parent h r p : length (store_set_parent h r p) = length h.
Proof. apply length_insert. Qed.

#[export] Hint Rewrite set_parent_id_category set_parent_id_el_id set_parent_id_parent
  set_parent_id_twice store_set_parent_category store_set_parent_el_id
  length_store_set_parent : pyrocq.
