(* ===== verification/Reparent.v ===== *)
(** * Pre-processing of [parse_file.py]: re-parenting and the element maps

    Lines 24-59 of [elements_to_visual_tree] (repeated verbatim as lines
    99-130 of [elements_to_markdown]):

    - [element_map] is the dict comprehension
      [{element.id: element for element in elements if hasattr(element, 'id')}];
    - when [ignore_header_footer] holds, [reparent] runs the loop
      [for idx, element in enumerate(elements)] that assigns
      [element.metadata.parent_id] of every element whose parent is a
      [Header]: [None] for a [Title], otherwise the id of the nearest
      preceding [Title] found by the backward scan [scan_back] (or [None]);
    - [element_map_no_hf] is the map rebuilt without Header and Footer.

    The loop works on the object store of [Element]: the decision for one
    element, [reparent_decision], reads the element, the parent found through
    [element_map] (whose values alias the objects of the list) and the
    earlier elements of the list, and the store is updated in place.

    [reparent_spec] is the specification the spec of the repository gives
    (section 9): a pure pass over a snapshot of the elements, deciding each
    element from the original values.  [reparent_loop_refines] proves that the
    in-place loop computes exactly that pass when the list holds distinct
    objects, including which exception it raises.  [nearest_title_idless]
    characterises the raise exactly: the loop raises, and then always
    [AttributeError], if and only if some non-Title child of a Header has a
    nearest preceding Title without an id. *)

From S2P Require Import Prelude PyStr PyDict Element.
From stdpp Require Import strings.

(** * Definitions *)

(** [for i in range(idx-1, -1, -1): if elements[i].category == "Title":
    new_parent_id = elements[i].id; break], given the elements before [idx]
    nearest first.  Reading [.id] of a Title without an id raises. *)
Fixpoint scan_back (before : list element) : pyres (option pystr) :=
  match before with
  | [] => POk None
  | e :: rest =>
      if is_title e then
        match el_id e with
        | Some i => POk (Some i)
        | None => PRaise AttributeError
        end
      else scan_back rest
  end.

(** The body of the loop for one element [e] (lines 33-56): [lookup] is
    [element_map.get] and [before] the elements before it, nearest first.
    The result is the element's new state. *)
Definition reparent_decision (lookup : pystr -> option element)
    (before : list element) (e : element) : pyres element :=
  match el_id e, truthy (parent_id e) with
  | Some _, Some pid =>
      match lookup pid with
      | Some pe =>
          if is_header pe then
            if is_title e then POk (set_parent_id e None)
            else set_parent_id e <$> scan_back before
          else POk e
      | None => POk e
      end
  | _, _ => POk e
  end.

(** [{element.id: element for element in elements if hasattr(element, 'id')}]
    over the objects [elements] of the store [h]: ids to references. *)
Definition id_entry (h : store) (r : ref) : option (pystr * ref) :=
  (fun i => (i, r)) <$> el_id (deref h r).

Definition element_map (h : store) (elements : list ref) : list (pystr * ref) :=
  dict_of_list (omap (id_entry h) elements).

(** The same comprehension with [and element.category not in ["Header", "Footer"]]. *)
Definition element_map_no_hf (h : store) (elements : list ref) : list (pystr * ref) :=
  dict_of_list (omap (fun r => if is_header_or_footer (deref h r) then None else id_entry h r) elements).

(** One iteration of the loop, on the store. *)
Definition reparent_step (emap : list (pystr * ref)) (elements : list ref)
    (h : store) (idx : nat) (r : ref) : pyres store :=
  e' ← reparent_decision (fun pid => deref h <$> dict_get pid emap)
         (map (deref h) (rev (take idx elements))) (deref h r);
  POk (<[r := e']> h).

Fixpoint reparent_loop (emap : list (pystr * ref)) (elements : list ref)
    (h : store) (idx : nat) (todo : list ref) : pyres store :=
  match todo with
  | [] => POk h
  | r :: rest =>
      h' ← reparent_step emap elements h idx r;
      reparent_loop emap elements h' (S idx) rest
  end.

(** Lines 31-56: the whole loop, over [enumerate(elements)]. *)
Definition reparent (h : store) (elements : list ref) : pyres store :=
  reparent_loop (element_map h elements) elements h 0 elements.

(** Lines 24-59: the element map the rest of the function uses, and the
    store after the assignments. *)
Definition preprocess (ignore_header_footer : bool) (h : store) (elements : list ref)
    : pyres (store * list (pystr * ref)) :=
  if ignore_header_footer then
    h' ← reparent h elements; POk (h', element_map_no_hf h' elements)
  else POk (h, element_map h elements).

(** ** The specification: a pure pass over a snapshot *)

Definition element_map_v (es : list element) : list (pystr * element) :=
  dict_of_list (omap (fun e => (fun i => (i, e)) <$> el_id e) es).

Fixpoint reparent_all (lookup : pystr -> option element) (es : list element)
    (idx : nat) (todo : list element) : pyres (list element) :=
  match todo with
  | [] => POk []
  | e :: rest =>
      e' ← reparent_decision lookup (rev (take idx es)) e;
      rest' ← reparent_all lookup es (S idx) rest;
      POk (e' :: rest')
  end.

Definition reparent_spec (es : list element) : pyres (list element) :=
  reparent_all (fun pid => dict_get pid (element_map_v es)) es 0 es.

(** The objects of the list exist in the store and are pairwise distinct. *)
Definition elements_wf (h : store) (elements : list ref) : Prop :=
  NoDup elements /\ Forall (fun r => r < length h) elements.

(** Lines 61-64 (and 133-136 with [defaultdict(list)]):
    [parent_child_map.setdefault(parent_id, []).append(element)] for every
    value of the element map, in the map's order. *)
Definition parent_child_map (h : store) (emap : list (pystr * ref)) : list (option pystr * list ref) :=
  group (fun r => parent_id (deref h r)) (dict_values emap).

(** [parent_child_map.get(key, [])] *)
Definition children (pcm : list (option pystr * list ref)) (key : option pystr) : list ref :=
  default [] (dict_get key pcm).

(** * The in-place loop refines the pure pass *)

(** What the loop reads of an element other than the one it updates. *)
Definition shape (e : element) : element_category * option pystr := (category e, el_id e).

Lemma shape_category e1 e2 : shape e1 = shape e2 -> category e1 = category e2.
Proof. intros H. exact (f_equal fst H). Qed.

Lemma shape_el_id e1 e2 : shape e1 = shape e2 -> el_id e1 = el_id e2.
Proof. intros H. exact (f_equal snd H). Qed.

Lemma scan_back_shape b1 b2 : map shape b1 = map shape b2 -> scan_back b1 = scan_back b2.
Proof.
  revert b2. induction b1 as [|e1 b1 IH]; intros [|e2 b2] H; simpl in H; try discriminate; [done|].
  unfold shape at 1 3 in H. injection H as Hc Hi Hb.
  simpl. unfold is_title. rewrite Hc, Hi. by rewrite (IH b2).
Qed.

Lemma reparent_decision_ext l1 l2 b1 b2 e :
  (forall pid, shape <$> l1 pid = shape <$> l2 pid) -> map shape b1 = map shape b2 ->
  reparent_decision l1 b1 e = reparent_decision l2 b2 e.
Proof.
  intros Hl Hb. unfold reparent_decision.
  destruct (el_id e); [|done]. destruct (truthy (parent_id e)) as [pid|]; [|done].
  specialize (Hl pid). destruct (l1 pid) as [p1|], (l2 pid) as [p2|]; simpl in Hl;
    try discriminate; [|done].
  unfold shape in Hl. injection Hl as Hc _. unfold is_header. rewrite Hc.
  by rewrite (scan_back_shape _ _ Hb).
Qed.

(** The decision only ever assigns [parent_id]. *)
Lemma reparent_decision_result l b e e' :
  reparent_decision l b e = POk e' -> e' = set_parent_id e (parent_id e').
Proof.
  unfold reparent_decision. intros H.
  repeat case_match; try (injection H as <-; by rewrite ?set_parent_id_same).
  apply pyres_fmap_ok in H as [p [_ ->]]. done.
Qed.

Lemma reparent_decision_shape l b e e' :
  reparent_decision l b e = POk e' -> shape e' = shape e.
Proof. intros H%reparent_decision_result. by rewrite H. Qed.

Lemma element_map_v_deref h elements :
  element_map_v (map (deref h) elements) = map (prod_map id (deref h)) (element_map h elements).
Proof.
  unfold element_map_v, element_map. rewrite <- dict_of_list_fmap. f_equal.
  induction elements as [|r rs IH]; simpl; [done|].
  unfold id_entry. destruct (el_id (deref h r)); simpl; [f_equal|]; apply IH.
Qed.

Lemma before_shape (h h0 : store) (elements : list ref) idx :
  (forall r, shape (deref h r) = shape (deref h0 r)) ->
  map shape (map (deref h) (rev (take idx elements))) =
  map shape (rev (take idx (map (deref h0) elements))).
Proof.
  intros Hs. rewrite firstn_map, <- map_rev, !map_map. apply map_ext. intros r. apply Hs.
Qed.

Section loop.
Variables (emap : list (pystr * ref)) (elements : list ref) (h0 : store).
Variable lookup : pystr -> option element.
Hypothesis Hlookup : forall pid, shape <$> lookup pid = shape <$> (deref h0 <$> dict_get pid emap).

(** The loop invariant: shapes never change, and the objects still to be
    visited are untouched. *)
Lemma reparent_loop_spec h idx todo :
  NoDup todo -> Forall (fun r => r < length h) todo ->
  (forall r, shape (deref h r) = shape (deref h0 r)) ->
  (forall r, r ∈ todo -> deref h r = deref h0 r) ->
  match reparent_loop emap elements h idx todo with
  | POk h' =>
      reparent_all lookup (map (deref h0) elements) idx (map (deref h0) todo)
        = POk (map (deref h') todo)
      /\ forall r, r ∉ todo -> deref h' r = deref h r
  | PRaise ex =>
      reparent_all lookup (map (deref h0) elements) idx (map (deref h0) todo) = PRaise ex
  end.
Proof.
  revert h idx. induction todo as [|r rest IH]; intros h idx Hnd Hlen Hs Hcur; simpl; [done|].
  apply NoDup_cons in Hnd as [Hr Hnd]. apply Forall_cons_iff in Hlen as [Hrl Hlen].
  unfold reparent_step.
  assert (reparent_decision (fun pid => deref h <$> dict_get pid emap)
            (map (deref h) (rev (take idx elements))) (deref h r)
          = reparent_decision lookup (rev (take idx (map (deref h0) elements))) (deref h0 r)) as ->.
  { rewrite Hcur by set_solver. apply reparent_decision_ext; [|by apply before_shape].
    intros pid. rewrite Hlookup. destruct (dict_get pid emap); simpl; [|done]. by rewrite Hs. }
  destruct (reparent_decision lookup _ (deref h0 r)) as [e'|ex] eqn:Hd; simpl; [|done].
  pose proof (reparent_decision_shape _ _ _ _ Hd) as Hse.
  assert (Forall (fun x => x < length (<[r := e']> h)) rest) as Hlen'.
  { eapply Forall_impl; [exact Hlen|]. intros x Hx. rewrite length_insert. exact Hx. }
  assert (forall r', shape (deref (<[r := e']> h) r') = shape (deref h0 r')) as Hs'.
  { intros r'. destruct (decide (r = r')) as [<-|Hne].
    - rewrite deref_insert_eq by exact Hrl. exact Hse.
    - rewrite deref_insert_ne by done. apply Hs. }
  assert (forall r', r' ∈ rest -> deref (<[r := e']> h) r' = deref h0 r') as Hcur'.
  { intros r' Hin. rewrite deref_insert_ne by set_solver. apply Hcur. set_solver. }
  specialize (IH (<[r := e']> h) (S idx) Hnd Hlen' Hs' Hcur').
  destruct (reparent_loop emap elements (<[r := e']> h) (S idx) rest) as [h''|ex]; [|by rewrite IH].
  destruct IH as [Hall Hout]. rewrite Hall. simpl. split.
  - rewrite Hout by done. by rewrite deref_insert_eq by exact Hrl.
  - intros r' Hin. rewrite Hout by set_solver. apply deref_insert_ne. set_solver.
Qed.
End loop.

(** Refinement: on a list of distinct objects, the in-place loop of lines
    31-56 leaves the objects in exactly the states that the pure pass over
    a snapshot computes, and raises exactly when that pass raises. *)
Theorem reparent_loop_refines h elements :
  elements_wf h elements ->
  match reparent h elements with
  | POk h' => reparent_spec (map (deref h) elements) = POk (map (deref h') elements)
  | PRaise ex => reparent_spec (map (deref h) elements) = PRaise ex
  end.
Proof.
  intros [Hnd Hlen]. unfold reparent, reparent_spec.
  pose proof (reparent_loop_spec (element_map h elements) elements h
    (fun pid => dict_get pid (element_map_v (map (deref h) elements)))) as H.
  specialize (H ltac:(intros pid; by rewrite element_map_v_deref, dict_get_fmap)
                h 0 elements Hnd Hlen (fun _ => eq_refl) (fun _ _ => eq_refl)).
  destruct (reparent_loop _ _ _ _ _); [exact (proj1 H) | exact H].
Qed.

(** * Behaviour of the pure pass *)

Lemma reparent_all_nth lookup es idx todo out :
  reparent_all lookup es idx todo = POk out ->
  length out = length todo /\
  forall i e, todo !! i = Some e ->
    exists e', out !! i = Some e' /\ reparent_decision lookup (rev (take (idx + i) es)) e = POk e'.
Proof.
  revert idx out. induction todo as [|e todo IH]; intros idx out H; simpl in H.
  - injection H as <-. split; [done|]. intros i0 e0 Hi0; by destruct i0.
  - py_simp. subst out. destruct (IH _ _ Ha0) as [Hlen Hall]. split; [simpl; lia|].
    intros [|i] e0 Hi; simpl in Hi.
    + injection Hi as <-. exists a. by rewrite Nat.add_0_r.
    + destruct (Hall i e0 Hi) as (e' & ? & ?). exists e'. by rewrite <- Nat.add_succ_comm.
Qed.

Lemma reparent_all_ok lookup es idx todo :
  (forall i e, todo !! i = Some e -> exists e', reparent_decision lookup (rev (take (idx + i) es)) e = POk e') ->
  exists out, reparent_all lookup es idx todo = POk out.
Proof.
  revert idx. induction todo as [|e todo IH]; intros idx H; simpl; [by eexists|].
  destruct (H 0 e eq_refl) as [e' He']. rewrite Nat.add_0_r in He'. rewrite He'. simpl.
  destruct (IH (S idx)) as [out ->]; [|by eexists].
  intros i e0 Hi. rewrite Nat.add_succ_l, <- Nat.add_succ_r. exact (H (S i) e0 Hi).
Qed.

Lemma reparent_all_fix lookup es idx todo :
  (forall i e, todo !! i = Some e -> reparent_decision lookup (rev (take (idx + i) es)) e = POk e) ->
  reparent_all lookup es idx todo = POk todo.
Proof.
  revert idx. induction todo as [|e todo IH]; intros idx H; simpl; [done|].
  rewrite <- (Nat.add_0_r idx), (H 0 e eq_refl), Nat.add_0_r. simpl.
  rewrite IH; [done|]. intros i e0 Hi. rewrite Nat.add_succ_l, <- Nat.add_succ_r. exact (H (S i) e0 Hi).
Qed.

(** The nearest preceding Title, read off the elements before the current
    one in document order. *)
Lemma scan_back_rev_spec l np :
  scan_back (rev l) = POk np ->
  (exists j t, l !! j = Some t /\ is_title t = true /\
     (forall k u, j < k -> l !! k = Some u -> is_title u = false) /\ np = el_id t) \/
  ((forall k u, l !! k = Some u -> is_title u = false) /\ np = None).
Proof.
  induction l as [|x l IH] using rev_ind; simpl; intros H.
  - injection H as <-. right. split; [|done]. intros i0 e0 Hi0; by destruct i0.
  - rewrite rev_unit in H. simpl in H. destruct (is_title x) eqn:Hx.
    + left. exists (length l), x. rewrite lookup_app_r, Nat.sub_diag by lia. split_and!; [done|done| |].
      * intros k u Hk Hu. apply lookup_lt_Some in Hu. rewrite length_app in Hu. simpl in Hu. lia.
      * destruct (el_id x); [by injection H as <- | discriminate H].
    + destruct (IH H) as [(j & t & Hj & Ht & Hafter & ->)|[Hnone ->]].
      * left. exists j, t. split_and!; [by apply lookup_app_l_Some|done| |done].
        intros k u Hk Hu. apply lookup_app_Some in Hu as [Hu|[Hge Hu]]; [by eapply Hafter|].
        apply list_lookup_singleton_Some in Hu as [_ <-]. exact Hx.
      * right. split; [|done]. intros k u Hu.
        apply lookup_app_Some in Hu as [Hu|[Hge Hu]]; [by eapply Hnone|].
        apply list_lookup_singleton_Some in Hu as [_ <-]. exact Hx.
Qed.

(** The scan succeeds when every Title has an id. *)
Lemma scan_back_ok l :
  Forall (fun e => is_title e = true -> is_Some (el_id e)) l -> exists np, scan_back l = POk np.
Proof.
  induction l as [|e l IH]; intros Hall; simpl; [by eexists|].
  apply Forall_cons_iff in Hall as [He Hall].
  destruct (is_title e) eqn:Ht; [|by apply IH].
  destruct (He eq_refl) as [i ->]. by eexists.
Qed.

(** The guard of lines 33-45: the element has an id, a truthy
    [parent_id], and the map gives a [Header] for it. *)
Definition under_header (lookup : pystr -> option element) (e : element) : bool :=
  match el_id e, truthy (parent_id e) with
  | Some _, Some pid =>
      match lookup pid with
      | Some pe => is_header pe
      | None => false
      end
  | _, _ => false
  end.

(** The condition under which line 54 raises at the [i]-th element: it is
    a non-Title child of a Header whose nearest preceding Title [rj] has no
    id. *)
Definition nearest_title_idless (h : store) (elements : list ref) (i : nat) : Prop :=
  exists r j rj, elements !! i = Some r /\
    under_header (fun pid => deref h <$> dict_get pid (element_map h elements)) (deref h r) = true /\
    is_title (deref h r) = false /\
    j < i /\ elements !! j = Some rj /\ is_title (deref h rj) = true /\ el_id (deref h rj) = None /\
    (forall k rk, j < k < i -> elements !! k = Some rk -> is_title (deref h rk) = false).

Lemma under_header_ext l1 l2 e :
  (forall pid, l1 pid = l2 pid) -> under_header l1 e = under_header l2 e.
Proof. intros H. unfold under_header. destruct (el_id e), (truthy (parent_id e)); by rewrite ?H. Qed.

Lemma reparent_decision_skip lookup b e :
  under_header lookup e = false -> reparent_decision lookup b e = POk e.
Proof. unfold under_header, reparent_decision. repeat case_match; congruence. Qed.

Lemma reparent_decision_title lookup b e :
  under_header lookup e = true -> is_title e = true ->
  reparent_decision lookup b e = POk (set_parent_id e None).
Proof. unfold under_header, reparent_decision. intros Hu Ht. rewrite Ht. repeat case_match; congruence. Qed.

Lemma reparent_decision_other lookup b e :
  under_header lookup e = true -> is_title e = false ->
  reparent_decision lookup b e = set_parent_id e <$> scan_back b.
Proof. unfold under_header, reparent_decision. intros Hu Ht. rewrite Ht. repeat case_match; congruence. Qed.

(** Deciding again on the decided element changes nothing. *)
Lemma reparent_decision_idem lookup b e e' :
  reparent_decision lookup b e = POk e' -> reparent_decision lookup b e' = POk e'.
Proof.
  intros H. destruct (under_header lookup e) eqn:Hu; [|rewrite reparent_decision_skip in H by done;
    injection H as <-; by apply reparent_decision_skip].
  destruct (is_title e) eqn:Ht.
  - rewrite reparent_decision_title in H by done. injection H as <-.
    apply reparent_decision_skip. unfold under_header. simpl. by destruct (el_id e).
  - rewrite reparent_decision_other in H by done.
    apply pyres_fmap_ok in H as [np [Hs ->]].
    destruct (under_header lookup (set_parent_id e np)) eqn:Hu'; [|by apply reparent_decision_skip].
    rewrite reparent_decision_other by done. by rewrite Hs.
Qed.

Lemma omap_entry_shape es1 es2 :
  map shape es1 = map shape es2 ->
  map (prod_map id shape) (omap (fun e => (fun i => (i, e)) <$> el_id e) es1) =
  map (prod_map id shape) (omap (fun e => (fun i => (i, e)) <$> el_id e) es2).
Proof.
  revert es2. induction es1 as [|e1 es1 IH]; intros [|e2 es2] H; simpl in H; try discriminate; [done|].
  assert (Hs : shape e1 = shape e2) by congruence.
  assert (Hr : map shape es1 = map shape es2) by congruence.
  pose proof (f_equal snd Hs) as Hi. simpl in Hi.
  simpl. rewrite Hi. destruct (el_id e2); simpl; [f_equal; [by rewrite Hs|]|]; exact (IH es2 Hr).
Qed.

Lemma element_map_v_shape es1 es2 :
  map shape es1 = map shape es2 ->
  forall pid, shape <$> dict_get pid (element_map_v es1) = shape <$> dict_get pid (element_map_v es2).
Proof.
  intros H pid. unfold element_map_v. rewrite <- !dict_get_fmap, <- !dict_of_list_fmap.
  by rewrite (omap_entry_shape _ _ H).
Qed.

Lemma reparent_spec_shape es es' :
  reparent_spec es = POk es' -> map shape es' = map shape es.
Proof.
  intros [Hlen Hall]%reparent_all_nth. apply list_eq. intros i. rewrite !list_lookup_fmap.
  destruct (es !! i) as [e|] eqn:E.
  - destruct (Hall i e E) as (e' & -> & Hd). simpl. f_equal. by eapply reparent_decision_shape.
  - apply lookup_ge_None in E. rewrite (proj2 (lookup_ge_None es' i)) by lia. done.
Qed.

(** The specification is idempotent. *)
Lemma reparent_spec_idem es es' :
  reparent_spec es = POk es' -> reparent_spec es' = POk es'.
Proof.
  intros H. pose proof (reparent_spec_shape _ _ H) as Hsh.
  apply reparent_all_nth in H as [Hlen Hall].
  unfold reparent_spec. apply reparent_all_fix. intros i e' Hi'. simpl.
  destruct (es !! i) as [e|] eqn:E; [|apply lookup_ge_None in E; apply lookup_lt_Some in Hi'; lia].
  destruct (Hall i e E) as (e0 & He0 & Hd). rewrite Hi' in He0. injection He0 as <-.
  rewrite (reparent_decision_ext _ (fun pid => dict_get pid (element_map_v es)) _ (rev (take i es))).
  - by eapply reparent_decision_idem.
  - by apply element_map_v_shape.
  - by rewrite !map_rev, <- !firstn_map, Hsh.
Qed.

(** * Behaviour of the loop on the objects of the list *)

Lemma reparent_loop_frame emap elements h idx todo h' :
  reparent_loop emap elements h idx todo = POk h' ->
  length h' = length h /\ forall r, r ∉ todo -> deref h' r = deref h r.
Proof.
  revert h idx. induction todo as [|r rest IH]; intros h idx H; simpl in H.
  - by injection H as <-.
  - unfold reparent_step in H. py_simp. subst a.
    destruct (IH _ _ H) as [Hlen Hfr]. rewrite length_insert in Hlen. split; [done|].
    intros r' Hr'. rewrite Hfr by set_solver. apply deref_insert_ne. set_solver.
Qed.

Lemma element_map_lookup h elements pid :
  dict_get pid (element_map_v (map (deref h) elements)) = deref h <$> dict_get pid (element_map h elements).
Proof. by rewrite element_map_v_deref, dict_get_fmap. Qed.

(** What the loop leaves in the [i]-th object: the decision of the pure
    pass for it. *)
Lemma reparent_at h elements h' i r :
  elements_wf h elements -> reparent h elements = POk h' -> elements !! i = Some r ->
  reparent_decision (fun pid => deref h <$> dict_get pid (element_map h elements))
    (rev (take i (map (deref h) elements))) (deref h r) = POk (deref h' r).
Proof.
  intros Hwf H Hi. pose proof (reparent_loop_refines h elements Hwf) as Hr. rewrite H in Hr.
  apply reparent_all_nth in Hr as [_ Hall].
  destruct (Hall i (deref h r)) as (e' & He' & Hd); [by rewrite list_lookup_fmap, Hi|].
  rewrite list_lookup_fmap, Hi in He'. injection He' as <-.
  rewrite <- Hd. apply reparent_decision_ext; [|done].
  intros pid. by rewrite element_map_lookup.
Qed.

Lemma under_header_of lookup e pid pe :
  is_Some (el_id e) -> truthy (parent_id e) = Some pid -> lookup pid = Some pe ->
  under_header lookup e = is_header pe.
Proof. intros [i Hi] Hp Hl. unfold under_header. by rewrite Hi, Hp, Hl. Qed.

(** The Title rule (rule 2 of the source's comment): a Title whose parent is
    a Header loses its parent and becomes a root. *)
Theorem title_rule h elements h' i r pid pr :
  elements_wf h elements -> reparent h elements = POk h' -> elements !! i = Some r ->
  is_Some (el_id (deref h r)) -> truthy (parent_id (deref h r)) = Some pid ->
  dict_get pid (element_map h elements) = Some pr -> is_header (deref h pr) = true ->
  is_title (deref h r) = true ->
  deref h' r = set_parent_id (deref h r) None.
Proof.
  intros Hwf H Hi Hid Hp Hl Hh Ht. pose proof (reparent_at _ _ _ _ _ Hwf H Hi) as Hd.
  rewrite reparent_decision_title in Hd; [by injection Hd| |done].
  erewrite under_header_of; [exact Hh|done|done|by rewrite Hl].
Qed.

(** Rule 3: any other element whose parent is a Header moves under the
    nearest Title that precedes it in the list, or becomes a root when no
    Title precedes it. *)
Theorem nearest_title_rule h elements h' i r pid pr :
  elements_wf h elements -> reparent h elements = POk h' -> elements !! i = Some r ->
  is_Some (el_id (deref h r)) -> truthy (parent_id (deref h r)) = Some pid ->
  dict_get pid (element_map h elements) = Some pr -> is_header (deref h pr) = true ->
  is_title (deref h r) = false ->
  (exists j rj, j < i /\ elements !! j = Some rj /\ is_title (deref h rj) = true /\
     (forall k rk, j < k < i -> elements !! k = Some rk -> is_title (deref h rk) = false) /\
     deref h' r = set_parent_id (deref h r) (el_id (deref h rj))) \/
  ((forall k rk, k < i -> elements !! k = Some rk -> is_title (deref h rk) = false) /\
     deref h' r = set_parent_id (deref h r) None).
Proof.
  intros Hwf H Hi Hid Hp Hl Hh Ht. pose proof (reparent_at _ _ _ _ _ Hwf H Hi) as Hd.
  rewrite reparent_decision_other in Hd; [|erewrite under_header_of; [exact Hh|done|done|by rewrite Hl]|done].
  apply pyres_fmap_ok in Hd as [np [Hs Hr]].
  apply scan_back_rev_spec in Hs as [(j & t & Hj & Htj & Hafter & ->)|[Hnone ->]].
  - assert (j < i) as Hji.
    { apply lookup_lt_Some in Hj. rewrite length_take in Hj. lia. }
    rewrite lookup_take_lt, list_lookup_fmap in Hj by done.
    destruct (elements !! j) as [rj|] eqn:Hej; [|discriminate]. injection Hj as <-.
    left. exists j, rj. split_and!; [done|done|done| |done].
    intros k rk Hk Hrk. apply (Hafter k (deref h rk)); [lia|].
    by rewrite lookup_take_lt, list_lookup_fmap, Hrk by lia.
  - right. split; [|done]. intros k rk Hk Hrk. apply (Hnone k).
    by rewrite lookup_take_lt, list_lookup_fmap, Hrk by lia.
Qed.

(** Every other element keeps its state. *)
Theorem keep_rule h elements h' i r :
  elements_wf h elements -> reparent h elements = POk h' -> elements !! i = Some r ->
  under_header (fun pid => deref h <$> dict_get pid (element_map h elements)) (deref h r) = false ->
  deref h' r = deref h r.
Proof.
  intros Hwf H Hi Hu. pose proof (reparent_at _ _ _ _ _ Hwf H Hi) as Hd.
  rewrite reparent_decision_skip in Hd by done. by injection Hd.
Qed.

Lemma reparent_decision_ok lookup b e :
  Forall (fun e => is_title e = true -> is_Some (el_id e)) b ->
  exists e', reparent_decision lookup b e = POk e'.
Proof.
  intros Hb. destruct (under_header lookup e) eqn:Hu; [|rewrite reparent_decision_skip; eauto].
  destruct (is_title e) eqn:Ht; [rewrite reparent_decision_title; eauto|].
  rewrite reparent_decision_other by done.
  destruct (scan_back_ok b Hb) as [np ->]. by eexists.
Qed.

(** The loop raises only through the backward scan: when every Title of the
    list has an id, it never raises. *)
Theorem reparent_no_raise h elements :
  elements_wf h elements ->
  (forall r, r ∈ elements -> is_title (deref h r) = true -> is_Some (el_id (deref h r))) ->
  exists h', reparent h elements = POk h'.
Proof.
  intros Hwf Hall. pose proof (reparent_loop_refines h elements Hwf) as Hr.
  destruct (reparent h elements) as [h'|ex]; [by eexists|exfalso].
  destruct (reparent_all_ok (fun pid => dict_get pid (element_map_v (map (deref h) elements)))
              (map (deref h) elements) 0 (map (deref h) elements)) as [out Hout].
  - intros i e _. apply reparent_decision_ok.
    apply Forall_forall. intros e0 He0. apply list_elem_of_In, in_rev, list_elem_of_In in He0.
    rewrite firstn_map in He0. apply list_elem_of_fmap in He0 as [r [-> Hin]].
    apply Hall. by apply (subseteq_take (0 + i)).
  - unfold reparent_spec in Hr. congruence.
Qed.

(** Elements that are not Titles are passed over by the scan. *)
Lemma scan_back_skip l1 l2 :
  Forall (fun u => is_title u = false) l1 -> scan_back (l1 ++ l2) = scan_back l2.
Proof. induction 1 as [|u l1 Hu _ IH]; simpl; [done|]. by rewrite Hu. Qed.

(** The backward scan raises exactly when the nearest Title has no id. *)
Lemma scan_back_rev_raise l ex :
  scan_back (rev l) = PRaise ex ->
  ex = AttributeError /\ exists j t, l !! j = Some t /\ is_title t = true /\ el_id t = None /\
    forall k u, j < k -> l !! k = Some u -> is_title u = false.
Proof.
  induction l as [|x l IH] using rev_ind; simpl; intros H; [discriminate|].
  rewrite rev_unit in H. simpl in H. destruct (is_title x) eqn:Hx.
  - destruct (el_id x) eqn:Hi; [discriminate|]. injection H as <-. split; [done|].
    exists (length l), x. rewrite lookup_app_r, Nat.sub_diag by lia. split_and!; [done|done|done|].
    intros k u Hk Hu. apply lookup_lt_Some in Hu. rewrite length_app in Hu. simpl in Hu. lia.
  - destruct (IH H) as [-> (j & t & Hj & Ht & Hi & Hafter)]. split; [done|].
    exists j, t. split_and!; [by apply lookup_app_l_Some|done|done|].
    intros k u Hk Hu. apply lookup_app_Some in Hu as [Hu|[Hge Hu]]; [by eapply Hafter|].
    apply list_lookup_singleton_Some in Hu as [_ <-]. exact Hx.
Qed.

Lemma scan_back_rev_idless l j t :
  l !! j = Some t -> is_title t = true -> el_id t = None ->
  (forall k u, j < k -> l !! k = Some u -> is_title u = false) ->
  scan_back (rev l) = PRaise AttributeError.
Proof.
  intros Hj Ht Hi Hafter. rewrite <- (take_drop_middle l j t Hj), rev_app_distr. simpl.
  rewrite <- app_assoc, scan_back_skip; simpl; [by rewrite Ht, Hi|].
  apply Forall_rev, Forall_lookup. intros k u Hu. apply (Hafter (S j + k)); [lia|].
  by rewrite <- lookup_drop.
Qed.

Lemma reparent_decision_raise lookup b e ex :
  reparent_decision lookup b e = PRaise ex ->
  under_header lookup e = true /\ is_title e = false /\ scan_back b = PRaise ex.
Proof.
  intros H. destruct (under_header lookup e) eqn:Hu;
    [|rewrite reparent_decision_skip in H by done; discriminate].
  destruct (is_title e) eqn:Ht; [rewrite reparent_decision_title in H by done; discriminate|].
  rewrite reparent_decision_other in H by done. by apply pyres_fmap_raise in H.
Qed.

Lemma reparent_all_raise lookup es idx todo ex :
  reparent_all lookup es idx todo = PRaise ex ->
  exists i e, todo !! i = Some e /\ reparent_decision lookup (rev (take (idx + i) es)) e = PRaise ex.
Proof.
  revert idx. induction todo as [|e todo IH]; intros idx H; simpl in H; [discriminate|].
  apply pyres_bind_raise_inv in H as [H|(e' & _ & H)].
  - exists 0, e. by rewrite Nat.add_0_r.
  - apply pyres_bind_raise_inv in H as [H|(rest' & _ & H)]; [|simpl in H; discriminate].
    destruct (IH _ H) as (i & e0 & Hi & Hd). exists (S i), e0. by rewrite <- Nat.add_succ_comm.
Qed.

Lemma take_map_lookup (h : store) (elements : list ref) i j t :
  take i (map (deref h) elements) !! j = Some t ->
  j < i /\ exists rj, elements !! j = Some rj /\ t = deref h rj.
Proof.
  intros Hj. pose proof (lookup_lt_Some _ _ _ Hj) as Hlt. rewrite length_take in Hlt.
  rewrite lookup_take_lt, list_lookup_fmap in Hj by lia. split; [lia|].
  destruct (elements !! j) as [rj|]; [|discriminate]. injection Hj as <-. by exists rj.
Qed.

(** Whenever the loop raises, the exception is [AttributeError] and some
    element meets [nearest_title_idless]. *)
Lemma reparent_raise_cases h elements ex :
  elements_wf h elements -> reparent h elements = PRaise ex ->
  ex = AttributeError /\ exists i, nearest_title_idless h elements i.
Proof.
  intros Hwf H. pose proof (reparent_loop_refines h elements Hwf) as Hr. rewrite H in Hr.
  apply reparent_all_raise in Hr as (i & e & Hi & Hd). rewrite Nat.add_0_l in Hd.
  rewrite list_lookup_fmap in Hi. destruct (elements !! i) as [r|] eqn:Er; [|discriminate].
  injection Hi as <-. apply reparent_decision_raise in Hd as (Hu & Ht & Hs).
  apply scan_back_rev_raise in Hs as [-> (j & t & Hj & Htj & Hid & Hafter)]. split; [done|].
  apply take_map_lookup in Hj as [Hji (rj & Hej & ->)].
  exists i, r, j, rj. split_and!; try done.
  - rewrite <- Hu. apply under_header_ext. intros pid. by rewrite element_map_lookup.
  - intros k rk Hk Hrk. apply (Hafter k (deref h rk)); [lia|].
    by rewrite lookup_take_lt, list_lookup_fmap, Hrk by lia.
Qed.

(** Conversely, an element meeting [nearest_title_idless] makes the loop
    raise [AttributeError]. *)
Lemma reparent_idless_raises h elements i :
  elements_wf h elements -> nearest_title_idless h elements i ->
  reparent h elements = PRaise AttributeError.
Proof.
  intros Hwf (r & j & rj & Hi & Hu & Ht & Hji & Hj & Htj & Hid & Hbetween).
  destruct (reparent h elements) as [h'|ex] eqn:H.
  - exfalso. pose proof (reparent_at _ _ _ _ _ Hwf H Hi) as Hd.
    rewrite reparent_decision_other in Hd by done.
    rewrite (scan_back_rev_idless _ j (deref h rj)) in Hd; [discriminate| |done|done|].
    + by rewrite lookup_take_lt, list_lookup_fmap, Hj by lia.
    + intros k u Hk Hu'. apply take_map_lookup in Hu' as [Hki (rk & Ek & ->)].
      apply (Hbetween k rk); [lia|done].
  - by destruct (reparent_raise_cases h elements ex Hwf H) as [-> _].
Qed.
Lemma reparent_wf h elements h' :
  elements_wf h elements -> reparent h elements = POk h' -> elements_wf h' elements.
Proof.
  intros [Hnd Hlen] H. apply reparent_loop_frame in H as [Hl _]. split; [done|]. by rewrite Hl.
Qed.

Lemma store_eq h1 h2 (elements : list ref) :
  length h1 = length h2 -> map (deref h1) elements = map (deref h2) elements ->
  (forall r, r ∉ elements -> deref h1 r = deref h2 r) -> h1 = h2.
Proof.
  intros Hl Hm Hout. apply list_eq. intros r.
  destruct (decide (r < length h1)) as [Hr|Hr].
  - rewrite !list_lookup_lookup_total_lt by lia. f_equal. fold (deref h1 r) (deref h2 r).
    destruct (decide (r ∈ elements)) as [Hin|Hnin]; [|by apply Hout].
    apply list_elem_of_lookup in Hin as [i Hi].
    pose proof (f_equal (fun l => l !! i) Hm) as Hmi. simpl in Hmi.
    rewrite !list_lookup_fmap, Hi in Hmi. by injection Hmi.
  - rewrite !lookup_ge_None_2 by lia. done.
Qed.

(** Idempotence.  The loop assigns [parent_id] on the caller's objects, so
    calling [elements_to_visual_tree] and then [elements_to_markdown] on the
    same list runs the loop a second time on the assigned objects; the
    second run assigns nothing new. *)
Lemma reparent_idem_lemma h elements h' :
  elements_wf h elements -> reparent h elements = POk h' -> reparent h' elements = POk h'.
Proof.
  intros Hwf H. pose proof (reparent_wf _ _ _ Hwf H) as Hwf'.
  pose proof (reparent_loop_refines h elements Hwf) as Hr. rewrite H in Hr.
  apply reparent_spec_idem in Hr.
  pose proof (reparent_loop_refines h' elements Hwf') as Hr'.
  destruct (reparent h' elements) as [h''|ex] eqn:E; [|congruence].
  rewrite Hr in Hr'. injection Hr' as Hm.
  apply reparent_loop_frame in E as [Hl Hout]. f_equal.
  apply (store_eq _ _ elements); [exact Hl | by symmetry | exact Hout].
Qed.

(** The loop changes no category and no id, on any object. *)
Lemma reparent_shape h elements h' r :
  elements_wf h elements -> reparent h elements = POk h' -> shape (deref h' r) = shape (deref h r).
Proof.
  intros Hwf H. destruct (decide (r ∈ elements)) as [Hin|Hnin].
  - apply list_elem_of_lookup in Hin as [i Hi].
    eapply reparent_decision_shape, (reparent_at _ _ _ _ _ Hwf H Hi).
  - apply reparent_loop_frame in H as [_ Hfr]. by rewrite Hfr.
Qed.

(** The loop only ever assigns [parent_id]. *)
Lemma reparent_only_parent h elements h' r :
  elements_wf h elements -> reparent h elements = POk h' ->
  deref h' r = set_parent_id (deref h r) (parent_id (deref h' r)).
Proof.
  intros Hwf H. destruct (decide (r ∈ elements)) as [Hin|Hnin].
  - apply list_elem_of_lookup in Hin as [i Hi].
    eapply reparent_decision_result, (reparent_at _ _ _ _ _ Hwf H Hi).
  - apply reparent_loop_frame in H as [_ Hfr]. rewrite Hfr by done. by rewrite set_parent_id_same.
Qed.

(** * Properties *)

(** The scenario of the repository's spec: a Header, a Title and a
    paragraph, both children of the Header. *)
Definition spec_scenario : store :=
  [mkElement (Some (s_ "1")) Header (s_ "H") None None;
   mkElement (Some (s_ "2")) Title (s_ "T1") (Some (s_ "1")) None;
   mkElement (Some (s_ "3")) NarrativeText (s_ "body") (Some (s_ "1")) None].

Definition spec_scenario_after : store :=
  match reparent spec_scenario [0; 1; 2] with POk h => h | PRaise _ => spec_scenario end.

(** A Title without an id before a paragraph whose parent is a Header. *)
Definition titleless_scenario : store :=
  [mkElement None Title (s_ "T") None None;
   mkElement (Some (s_ "h")) Header (s_ "H") None None;
   mkElement (Some (s_ "p")) NarrativeText (s_ "body") (Some (s_ "h")) None].

(** (C1) Refinement: on a list of distinct objects, the in-place loop of
    lines 31-56 leaves the objects exactly in the states computed by the
    pure pass over a snapshot that the spec prescribes, and raises exactly
    the exception that pass raises. *)
Theorem reparent_refines h elements :
  elements_wf h elements ->
  match reparent h elements with
  | POk h' => reparent_spec (map (deref h) elements) = POk (map (deref h') elements)
  | PRaise ex => reparent_spec (map (deref h) elements) = PRaise ex
  end.
Proof. apply reparent_loop_refines. Qed.

Lemma reparent_refines_witness :
  reparent_spec (map (deref spec_scenario) [0; 1; 2]) = POk (map (deref spec_scenario_after) [0; 1; 2]).
Proof.
  pose proof (reparent_refines spec_scenario [0; 1; 2] ltac:(split; decide_prop)) as H.
  exact H.
Defined.

(** (C2) Rule 2 of lines 27-29: a Title whose parent (found through
    [element_map]) is a Header has its [parent_id] set to [None] and
    becomes a root; nothing else of it changes. *)
Theorem reparent_title_becomes_root h elements h' i r pid pr :
  elements_wf h elements -> reparent h elements = POk h' -> elements !! i = Some r ->
  is_Some (el_id (deref h r)) -> truthy (parent_id (deref h r)) = Some pid ->
  dict_get pid (element_map h elements) = Some pr -> is_header (deref h pr) = true ->
  is_title (deref h r) = true ->
  deref h' r = set_parent_id (deref h r) None.
Proof. apply title_rule. Qed.

Lemma reparent_title_becomes_root_witness :
  deref spec_scenario_after 1 = set_parent_id (deref spec_scenario 1) None.
Proof.
  apply (reparent_title_becomes_root spec_scenario [0; 1; 2] spec_scenario_after 1 1 (s_ "1") 0).
  all: solve_concrete.
Defined.

(** (C3) Rule 3: any other element whose parent is a Header gets as parent
    the id of the nearest Title before it in the list (no Title lies
    between them), or [None] when no Title precedes it. *)
Theorem reparent_moves_under_nearest_title h elements h' i r pid pr :
  elements_wf h elements -> reparent h elements = POk h' -> elements !! i = Some r ->
  is_Some (el_id (deref h r)) -> truthy (parent_id (deref h r)) = Some pid ->
  dict_get pid (element_map h elements) = Some pr -> is_header (deref h pr) = true ->
  is_title (deref h r) = false ->
  (exists j rj, j < i /\ elements !! j = Some rj /\ is_title (deref h rj) = true /\
     (forall k rk, j < k < i -> elements !! k = Some rk -> is_title (deref h rk) = false) /\
     deref h' r = set_parent_id (deref h r) (el_id (deref h rj))) \/
  ((forall k rk, k < i -> elements !! k = Some rk -> is_title (deref h rk) = false) /\
     deref h' r = set_parent_id (deref h r) None).
Proof. apply nearest_title_rule. Qed.

Lemma reparent_moves_under_nearest_title_witness :
  (exists j rj, j < 2 /\ [0; 1; 2] !! j = Some rj /\ is_title (deref spec_scenario rj) = true /\
     (forall k rk, j < k < 2 -> [0; 1; 2] !! k = Some rk -> is_title (deref spec_scenario rk) = false) /\
     deref spec_scenario_after 2 = set_parent_id (deref spec_scenario 2) (el_id (deref spec_scenario rj))) \/
  ((forall k rk, k < 2 -> [0; 1; 2] !! k = Some rk -> is_title (deref spec_scenario rk) = false) /\
     deref spec_scenario_after 2 = set_parent_id (deref spec_scenario 2) None).
Proof.
  apply (reparent_moves_under_nearest_title spec_scenario [0; 1; 2] spec_scenario_after 2 2 (s_ "1") 0).
  all: solve_concrete.
Defined.

(** (C4) Every element that is not a child of a Header (no id, no truthy
    [parent_id], a parent missing from [element_map], or a parent that is
    not a Header) keeps its state. *)
Theorem reparent_keeps_others h elements h' i r :
  elements_wf h elements -> reparent h elements = POk h' -> elements !! i = Some r ->
  under_header (fun pid => deref h <$> dict_get pid (element_map h elements)) (deref h r) = false ->
  deref h' r = deref h r.
Proof. apply keep_rule. Qed.

Lemma reparent_keeps_others_witness : deref spec_scenario_after 0 = deref spec_scenario 0.
Proof.
  apply (reparent_keeps_others spec_scenario [0; 1; 2] spec_scenario_after 0 0).
  all: solve_concrete.
Defined.

(** (C7) Idempotence: the loop assigns [parent_id] on the caller's objects,
    so a second call on the same list (for instance [elements_to_markdown]
    after [elements_to_visual_tree], both with [ignore_header_footer]) runs
    it on the assigned objects; that run leaves every object as it is. *)
Theorem reparent_idempotent h elements h' :
  elements_wf h elements -> reparent h elements = POk h' -> reparent h' elements = POk h'.
Proof. apply reparent_idem_lemma. Qed.

Lemma reparent_idempotent_witness : reparent spec_scenario_after [0; 1; 2] = POk spec_scenario_after.
Proof.
  apply (reparent_idempotent spec_scenario); [split; decide_prop|vm_compute; reflexivity].
Defined.

(** (C9) The loop raises only from the backward scan of line 54: whenever
    it raises, the exception is [AttributeError] and some element of the
    list is a non-Title child of a Header whose nearest preceding Title has
    no id. *)
Theorem reparent_raises_only_on_idless_title h elements ex :
  elements_wf h elements -> reparent h elements = PRaise ex ->
  ex = AttributeError /\ exists i, nearest_title_idless h elements i.
Proof. apply reparent_raise_cases. Qed.

Lemma reparent_raises_only_on_idless_title_witness :
  AttributeError = AttributeError /\ exists i, nearest_title_idless titleless_scenario [0; 1; 2] i.
Proof.
  apply (reparent_raises_only_on_idless_title titleless_scenario [0; 1; 2] AttributeError).
  - split; decide_prop.
  - vm_compute. reflexivity.
Defined.

(** (C10) The error path of line 54: when a non-Title child of a Header
    has a nearest preceding Title without an id, reading [elements[i].id]
    raises [AttributeError], out of the loop and out of the function,
    whatever the other elements are. *)
Theorem reparent_raises_attribute_error h elements i :
  elements_wf h elements -> nearest_title_idless h elements i ->
  reparent h elements = PRaise AttributeError.
Proof. apply reparent_idless_raises. Qed.

Lemma reparent_raises_attribute_error_witness :
  reparent titleless_scenario [0; 1; 2] = PRaise AttributeError.
Proof.
  apply (reparent_raises_attribute_error titleless_scenario [0; 1; 2] 2).
  - split; decide_prop.
  - exists 2, 0, 0. split_and!; try (vm_compute; reflexivity); try lia.
    intros k rk Hk Hrk. assert (k = 1) as -> by lia. injection Hrk as <-. reflexivity.
Defined.

(** The scenario of the repository's spec: a Header with id "1", a
    Title "2" under it and a paragraph "3" under it give, with
    [ignore_header_footer], the index [{None: [Title], "2": [paragraph]}]:
    the Title is promoted to a root, the paragraph moves under the Title,
    the Header is dropped. *)
Example spec_roundtrip_example :
  (p ← preprocess true spec_scenario [0; 1; 2]; POk (parent_child_map p.1 p.2))
    = POk [(None, [1]); (Some (s_ "2"), [2])].
Proof. vm_compute. reflexivity. Qed.
