(* ===== verification/Forest.v ===== *)
(** * The forest index of [parse_file.py]

    [parent_child_map] (lines 61-64, and 132-136 of [elements_to_markdown])
    groups the values of the element map by their [parent_id]; both
    renderers read it with [parent_child_map.get(key, [])] ([children]).
    This file shows what that index contains after the pre-processing:

    - [forest_children]: the children of a key are the elements of the
      caller's list that have an id, are neither Header nor Footer, and
      carry that [parent_id], in the order of the list (siblings keep the
      document order);
    - [preprocess_index]: the same after the re-parenting loop of
      [preprocess true];
    - [preprocess_detaches_headers]: no element of the index is still
      attached to a Header.

    Ids are assumed unique in the list ([ids_unique]), as unstructured
    generates them; with duplicate ids the dict comprehension keeps the first
    position of a key but the last object, and the theorems would have to
    follow that. *)

From S2P Require Import Prelude PyStr PyDict Element Reparent.
From stdpp Require Import strings.

(** The ids of the objects of the list are pairwise distinct. *)
Definition ids_unique (h : store) (elements : list ref) : Prop :=
  NoDup (omap (fun r => el_id (deref h r)) elements).

(** The condition of the comprehension of line 59:
    [hasattr(element, 'id') and element.category not in ["Header", "Footer"]]. *)
Definition kept (h : store) (r : ref) : bool :=
  bool_decide (is_Some (el_id (deref h r))) && negb (is_header_or_footer (deref h r)).

Definition no_hf_entry (h : store) (r : ref) : option (pystr * ref) :=
  if is_header_or_footer (deref h r) then None else id_entry h r.

Lemma no_hf_entry_kept h r :
  no_hf_entry h r = if kept h r then (fun i => (i, r)) <$> el_id (deref h r) else None.
Proof.
  unfold no_hf_entry, id_entry, kept.
  destruct (is_header_or_footer (deref h r)), (el_id (deref h r)); reflexivity.
Qed.

Lemma no_hf_entries_values h elements :
  map snd (omap (no_hf_entry h) elements) = filter (fun r => kept h r = true) elements.
Proof.
  induction elements as [|r rs IH]; [done|]. rewrite filter_cons. simpl.
  rewrite no_hf_entry_kept. destruct (kept h r) eqn:Hk; simpl; [|exact IH].
  unfold kept in Hk. apply andb_prop in Hk as [[i Hi]%bool_decide_eq_true _].
  rewrite Hi. simpl. f_equal. exact IH.
Qed.

Lemma no_hf_entries_keys h elements :
  map fst (omap (no_hf_entry h) elements) `sublist_of` omap (fun r => el_id (deref h r)) elements.
Proof.
  induction elements as [|r rs IH]; [done|]. unfold no_hf_entry, id_entry in *. simpl.
  destruct (is_header_or_footer (deref h r)), (el_id (deref h r)); simpl;
    first [exact IH | apply sublist_skip; exact IH | apply sublist_cons; exact IH].
Qed.

Lemma element_map_no_hf_values h elements :
  ids_unique h elements ->
  dict_values (element_map_no_hf h elements) = filter (fun r => kept h r = true) elements.
Proof.
  intros Hu. unfold element_map_no_hf. fold (no_hf_entry h).
  rewrite dict_values_of_list_nodup; [apply no_hf_entries_values|].
  eapply sublist_NoDup; [exact Hu|apply no_hf_entries_keys].
Qed.

(** The children of [k] in the index: the elements with an id that are
    neither Header nor Footer and whose [parent_id] is [k], in list order. *)
Theorem forest_children_filter h elements k :
  ids_unique h elements ->
  children (parent_child_map h (element_map_no_hf h elements)) k =
    filter (fun r => parent_id (deref h r) = k /\ kept h r = true) elements.
Proof.
  intros Hu. unfold children, parent_child_map.
  rewrite group_get_default, element_map_no_hf_values by done.
  apply list_filter_filter.
Qed.

Lemma kept_shape h h' r :
  shape (deref h' r) = shape (deref h r) -> kept h' r = kept h r.
Proof.
  unfold kept, is_header_or_footer. intros Hs.
  pose proof (f_equal fst Hs) as Hc. pose proof (f_equal snd Hs) as Hi. simpl in Hc, Hi.
  by rewrite Hc, Hi.
Qed.

Lemma ids_unique_shape h h' elements :
  (forall r, shape (deref h' r) = shape (deref h r)) -> ids_unique h elements -> ids_unique h' elements.
Proof.
  unfold ids_unique. intros Hs.
  assert (omap (fun r => el_id (deref h' r)) elements = omap (fun r => el_id (deref h r)) elements) as ->;
    [|done].
  induction elements as [|r rs IH]; [done|]. simpl.
  pose proof (f_equal snd (Hs r)) as Hi. simpl in Hi. rewrite Hi.
  destruct (el_id (deref h r)); [f_equal|]; exact IH.
Qed.

(** After the pre-processing of [ignore_header_footer=True], the index
    holds the kept elements under their corrected parents, in list order. *)
Theorem preprocess_children h elements h' emap k :
  elements_wf h elements -> ids_unique h elements ->
  preprocess true h elements = POk (h', emap) ->
  children (parent_child_map h' emap) k =
    filter (fun r => parent_id (deref h' r) = k /\ kept h r = true) elements.
Proof.
  intros Hwf Hu H. simpl in H. py_simp. simplify_eq.
  pose proof (fun r => reparent_shape _ _ _ r Hwf Ha) as Hs.
  rewrite forest_children_filter by (by eapply ids_unique_shape).
  apply list_filter_iff. intros r. by rewrite (kept_shape h h' r).
Qed.

Lemma id_entries_keys h elements :
  map fst (omap (id_entry h) elements) = omap (fun r => el_id (deref h r)) elements.
Proof.
  induction elements as [|r rs IH]; [done|]. unfold id_entry in *. simpl.
  destruct (el_id (deref h r)); simpl; [f_equal|]; exact IH.
Qed.

Lemma id_entries_in h (elements : list ref) r i :
  r ∈ elements -> el_id (deref h r) = Some i -> (i, r) ∈ omap (id_entry h) elements.
Proof.
  intros Hr Hi. apply list_elem_of_omap. exists r. split; [done|]. unfold id_entry. by rewrite Hi.
Qed.

(** With unique ids, [element_map.get(id)] finds the object with that id. *)
Lemma element_map_get h elements r i :
  ids_unique h elements -> r ∈ elements -> el_id (deref h r) = Some i ->
  dict_get i (element_map h elements) = Some r.
Proof.
  intros Hu Hr Hi. unfold element_map.
  rewrite dict_of_list_nodup by (by rewrite id_entries_keys).
  apply dict_get_nodup_in; [by rewrite id_entries_keys|by apply id_entries_in].
Qed.

Lemma element_map_shape h h' elements :
  (forall r, shape (deref h' r) = shape (deref h r)) -> element_map h' elements = element_map h elements.
Proof.
  intros Hs. unfold element_map. f_equal. induction elements as [|r rs IH]; [done|].
  unfold id_entry in *. simpl. pose proof (f_equal snd (Hs r)) as Hi. simpl in Hi. rewrite Hi.
  destruct (el_id (deref h r)); simpl; [f_equal|]; exact IH.
Qed.

Lemma under_header_true lookup e :
  under_header lookup e = true ->
  exists pid pe, is_Some (el_id e) /\ truthy (parent_id e) = Some pid /\ lookup pid = Some pe /\
    is_header pe = true.
Proof.
  unfold under_header. destruct (el_id e); [|discriminate].
  destruct (truthy (parent_id e)) as [pid|]; [|discriminate].
  destruct (lookup pid) as [pe|] eqn:E; [|discriminate]. intros Hh. by exists pid, pe.
Qed.

(** After the pre-processing of [ignore_header_footer=True], no element of
    the index is attached to a Header any more: looked up as line 40 looks
    it up, its parent is not a Header. *)
Lemma detach_lemma h elements h' emap r pid pr :
  elements_wf h elements -> ids_unique h elements ->
  preprocess true h elements = POk (h', emap) ->
  r ∈ dict_values emap -> truthy (parent_id (deref h' r)) = Some pid ->
  dict_get pid (element_map h' elements) = Some pr -> is_header (deref h' pr) = false.
Proof.
  intros Hwf Hu H Hr Hp Hl. simpl in H. py_simp. simplify_eq.
  pose proof (fun r => reparent_shape _ _ _ r Hwf Ha) as Hs.
  rewrite element_map_no_hf_values in Hr by (by eapply ids_unique_shape).
  apply list_elem_of_filter in Hr as [Hk Hin].
  rewrite (element_map_shape h h' elements Hs) in Hl.
  assert (is_header (deref h' pr) = is_header (deref h pr)) as ->.
  { unfold is_header. by rewrite (shape_category _ _ (Hs pr)). }
  pose proof Hin as Hin'. apply list_elem_of_lookup in Hin' as [i Hi].
  set (lookup := fun pid => deref h <$> dict_get pid (element_map h elements)).
  destruct (under_header lookup (deref h r)) eqn:Hu0.
  - destruct (under_header_true _ _ Hu0) as (pid0 & pe & Hid & Hp0 & Hl0 & Hh0).
    subst lookup. simpl in Hl0. destruct (dict_get pid0 (element_map h elements)) as [pr0|] eqn:E0;
      [|discriminate]. injection Hl0 as <-.
    destruct (is_title (deref h r)) eqn:Ht.
    + rewrite (title_rule _ _ _ _ _ _ _ Hwf Ha Hi Hid Hp0 E0 Hh0 Ht) in Hp. discriminate.
    + destruct (nearest_title_rule _ _ _ _ _ _ _ Hwf Ha Hi Hid Hp0 E0 Hh0 Ht)
        as [(j & rj & _ & Hj & Htj & _ & Hnew)|[_ Hnew]]; rewrite Hnew in Hp; simpl in Hp; [|discriminate].
      destruct (el_id (deref h rj)) as [tid|] eqn:Etid; [|discriminate].
      assert (tid = pid) as -> by (destruct tid; simpl in Hp; congruence).
      rewrite (element_map_get h elements rj pid) in Hl; [|done|by eapply list_elem_of_lookup_2|done].
      injection Hl as <-. destruct (is_header (deref h rj)) eqn:Hh; [|done].
      rewrite (header_not_title _ Hh) in Htj. discriminate.
  - rewrite (keep_rule _ _ _ _ _ Hwf Ha Hi Hu0) in Hp.
    assert (is_Some (el_id (deref h r))) as Hid.
    { unfold kept in Hk. apply andb_prop in Hk as [Hk _]. apply bool_decide_eq_true in Hk.
      by rewrite <- (shape_el_id _ _ (Hs r)). }
    by rewrite (under_header_of lookup _ pid (deref h pr) Hid Hp) in Hu0 by (subst lookup; simpl; by rewrite Hl).
Qed.

(** * Properties *)

(** (C5) The children lists of the index built with
    [ignore_header_footer]: for every key, the elements of the caller's
    list that have an id, are neither Header nor Footer, and carry that
    [parent_id], in the order of the list.  No Header or Footer is a child,
    and siblings keep the document order. *)
Theorem forest_children h elements k :
  ids_unique h elements ->
  children (parent_child_map h (element_map_no_hf h elements)) k =
    filter (fun r => parent_id (deref h r) = k /\ kept h r = true) elements.
Proof. apply forest_children_filter. Qed.

Lemma forest_children_witness :
  children (parent_child_map spec_scenario_after (element_map_no_hf spec_scenario_after [0; 1; 2])) None =
    filter (fun r => parent_id (deref spec_scenario_after r) = None /\ kept spec_scenario_after r = true) [0; 1; 2].
Proof. apply forest_children. decide_prop. Defined.

(** (C6) After the pre-processing with [ignore_header_footer], no element
    of the index is attached to a Header: when its [parent_id] is found in
    [element_map], the element found is not a Header. *)
Theorem preprocess_detaches_headers h elements h' emap r pid pr :
  elements_wf h elements -> ids_unique h elements ->
  preprocess true h elements = POk (h', emap) ->
  r ∈ dict_values emap -> truthy (parent_id (deref h' r)) = Some pid ->
  dict_get pid (element_map h' elements) = Some pr -> is_header (deref h' pr) = false.
Proof. apply detach_lemma. Qed.

Lemma preprocess_detaches_headers_witness : is_header (deref spec_scenario_after 1) = false.
Proof.
  apply (preprocess_detaches_headers spec_scenario [0; 1; 2] spec_scenario_after
           (element_map_no_hf spec_scenario_after [0; 1; 2]) 2 (s_ "2")).
  all: solve_concrete.
Defined.

(** (C12) The index after the pre-processing of [ignore_header_footer=True]
    holds the kept elements under their corrected parents, in list order. *)
Theorem preprocess_index h elements h' emap k :
  elements_wf h elements -> ids_unique h elements ->
  preprocess true h elements = POk (h', emap) ->
  children (parent_child_map h' emap) k =
    filter (fun r => parent_id (deref h' r) = k /\ kept h r = true) elements.
Proof. apply preprocess_children. Qed.

Lemma preprocess_index_witness :
  children (parent_child_map spec_scenario_after (element_map_no_hf spec_scenario_after [0; 1; 2])) (Some (s_ "2")) =
    filter (fun r => parent_id (deref spec_scenario_after r) = Some (s_ "2") /\ kept spec_scenario r = true) [0; 1; 2].
Proof. apply (preprocess_index spec_scenario). all: solve_concrete. Defined.
