(* ===== verification/TreeText.v ===== *)
(** * The tree-text renderer: [elements_to_visual_tree]

    Lines 66-93 of [parse_file.py].  [_build_node] renders one element as
    [prefix + connector + "[Category] text"] and recurses into its children
    (read from the index with [parent_child_map.get(element.id, [])]), each
    child's string being split at newlines and appended line by line; the
    roots ([parent_child_map.get(None, [])]) are rendered and joined with
    newlines.

    [_build_node] is recursive, and CPython raises [RecursionError] when the
    recursion is deeper than its stack limit.  [build_node] carries that
    limit as [fuel], the number of nested calls still allowed; an exhausted
    fuel raises [RecursionError].  [build_node_ok] proves that a fuel equal
    to the number of elements of the index is always enough, on any input:
    the index is built from [parent_id] pointers and distinct ids, so every
    path from a root is a chain of distinct elements.  [build_node_mono]
    proves that more fuel gives the same output, and [render_roots_preorder]
    that the split-and-extend of the children's strings renders exactly
    the pre-order list of node lines of the reference [subtree_lines].

    Box-drawing characters are written as their code points:
    U+251C "├", U+2514 "└", U+2500 "─", U+2502 "│". *)

From S2P Require Import Prelude PyStr PyDict Element Reparent Forest.
From stdpp Require Import strings numbers.

(** [max_length = 45] *)
Definition max_length : nat := 45.

(** [raw_text = element.text.replace('\n', ' ').strip()] and the
    truncation of line 72. *)
Definition display_text (t : pystr) : pystr :=
  let raw := strip (replace_char nl (s_ " ") t) in
  if max_length <? length raw then slice_to max_length raw ++ s_ "..." else raw.

(** [line = f"[{element.category}] {display_text}"] *)
Definition node_line (e : element) : pystr :=
  s_ "[" ++ category_name (category e) ++ s_ "] " ++ display_text (text e).

Definition tee : pystr := [9500%N; 9472%N; 9472%N; 32%N].
Definition elbow : pystr := [9492%N; 9472%N; 9472%N; 32%N].
Definition pipe_pad : pystr := [9474%N; 32%N; 32%N; 32%N].
Definition blank_pad : pystr := s_ "    ".

Abbreviation index := (list (option pystr * list ref)).

(** Lines 81-83: [for i, child in enumerate(children): child_lines =
    rec(child, new_prefix, i == len(children)-1);
    lines.extend(child_lines.split('\n'))], with [n = len(children)]. *)
Fixpoint children_lines (rec : ref -> pystr -> bool -> pyres pystr) (n : nat)
    (new_prefix : pystr) (i : nat) (todo : list ref) (lines : list pystr) : pyres (list pystr) :=
  match todo with
  | [] => POk lines
  | c :: rest =>
      s ← rec c new_prefix (bool_decide (i = n - 1));
      children_lines rec n new_prefix (S i) rest (lines ++ split_on nl s)
  end.

(** [_build_node(element, prefix, is_last)] *)
Fixpoint build_node (fuel : nat) (h : store) (pcm : index) (r : ref)
    (prefix : pystr) (is_last : bool) : pyres pystr :=
  match fuel with
  | 0 => PRaise RecursionError
  | S f =>
      let e := deref h r in
      let first := prefix ++ (if is_last then elbow else tee) ++ node_line e in
      let new_prefix := prefix ++ (if is_last then blank_pad else pipe_pad) in
      let cs := children pcm (el_id e) in
      str_join [nl] <$> children_lines (build_node f h pcm) (length cs) new_prefix 0 cs [first]
  end.

(** Lines 88-91: [for i, root in enumerate(roots):
    full_output.append(_build_node(root, is_last=i == len(roots)-1))]. *)
Fixpoint roots_output (fuel : nat) (h : store) (pcm : index) (n : nat) (i : nat)
    (todo : list ref) (out : list pystr) : pyres (list pystr) :=
  match todo with
  | [] => POk out
  | r :: rest =>
      s ← build_node fuel h pcm r [] (bool_decide (i = n - 1));
      roots_output fuel h pcm n (S i) rest (out ++ [s])
  end.

(** Lines 88-93: the roots, joined with newlines. *)
Definition render_roots (fuel : nat) (h : store) (pcm : index) : pyres pystr :=
  let roots := children pcm None in
  str_join [nl] <$> roots_output fuel h pcm (length roots) 0 roots [].

(** [elements_to_visual_tree(elements, ignore_header_footer)]: the text,
    and the store after the assignments of the pre-processing. *)
Definition elements_to_visual_tree (fuel : nat) (h : store) (elements : list ref)
    (ignore_header_footer : bool) : pyres (pystr * store) :=
  p ← preprocess ignore_header_footer h elements;
  s ← render_roots fuel p.1 (parent_child_map p.1 p.2);
  POk (s, p.1).

(** * Display text *)

Definition raw_text (t : pystr) : pystr := strip (replace_char nl (s_ " ") t).

(** A text longer than 45 code points is cut to its first 45 and gets
    ["..."]: the displayed text is then 48 code points long. *)
Theorem display_text_truncates t :
  max_length < length (raw_text t) ->
  display_text t = take max_length (raw_text t) ++ s_ "..." /\ length (display_text t) = 48.
Proof.
  unfold display_text. fold (raw_text t). intros Hlt.
  rewrite (proj2 (Nat.ltb_lt _ _) Hlt). split; [done|].
  rewrite length_app, length_slice_to. change (length (s_ "...")) with 3.
  unfold max_length in *. lia.
Qed.

Lemma display_text_short t :
  length (raw_text t) <= max_length -> display_text t = raw_text t.
Proof.
  unfold display_text. fold (raw_text t). intros Hle.
  by rewrite (proj2 (Nat.ltb_ge _ _) Hle).
Qed.

(** No newline survives in the displayed text, so each node is one line. *)
Lemma display_text_no_newline t : nl ∉ display_text t.
Proof.
  assert (nl ∉ raw_text t) as Hraw.
  { intros Hin. apply strip_subseteq in Hin. revert Hin. apply replace_char_not_in.
    apply (bool_decide_eq_false_1 (nl ∈ s_ " ")). by vm_compute. }
  unfold display_text. fold (raw_text t). case_match; [|done].
  rewrite elem_of_app. intros [Hin|Hin].
  - apply Hraw. by apply (subseteq_take max_length).
  - revert Hin. apply (bool_decide_eq_false_1 (nl ∈ s_ "...")). by vm_compute.
Qed.

(** * Exact output *)

(** A single root without children is rendered as one line,
    ["└── [Category] text"]. *)
Theorem render_single_root fuel h pcm r :
  children pcm None = [r] -> children pcm (el_id (deref h r)) = [] ->
  render_roots (S fuel) h pcm = POk (elbow ++ node_line (deref h r)).
Proof. intros Hroots Hleaf. unfold render_roots. rewrite Hroots. simpl. by rewrite Hleaf. Qed.

(** * Termination: the recursion never runs out of stack *)

Lemma children_lines_ok rec n p i todo lines :
  (forall c, c ∈ todo -> forall pre b, exists s, rec c pre b = POk s) ->
  exists ls, children_lines rec n p i todo lines = POk ls.
Proof.
  revert i lines. induction todo as [|c rest IH]; intros i lines H; simpl; [by eexists|].
  destruct (H c ltac:(set_solver) p (bool_decide (i = n - 1))) as [s ->]. simpl.
  apply IH. intros c' Hc'. apply H. set_solver.
Qed.

Section adequacy.
Variables (h : store) (emap : list (pystr * ref)) (B : list ref).
(** The element maps of [Reparent] satisfy these: keys are unique, each
    value's id is its key, and the values are among the elements [B]. *)
Hypothesis Hwf : dict_wf emap.
Hypothesis Hkeys : forall k r, (k, r) ∈ emap -> el_id (deref h r) = Some k.
Hypothesis HB : forall r, r ∈ dict_values emap -> r ∈ B.

Lemma values_id r : r ∈ dict_values emap -> is_Some (el_id (deref h r)).
Proof. intros [k Hk]%dict_values_elem. rewrite (Hkeys _ _ Hk). by eexists. Qed.

Lemma values_inj a b :
  a ∈ dict_values emap -> b ∈ dict_values emap -> el_id (deref h a) = el_id (deref h b) -> a = b.
Proof.
  intros [ka Ha]%dict_values_elem [kb Hb]%dict_values_elem Hab.
  rewrite (Hkeys _ _ Ha), (Hkeys _ _ Hb) in Hab. injection Hab as <-.
  apply (dict_get_nodup_in emap ka) in Ha, Hb; [|done..]. congruence.
Qed.

Lemma children_elem k c :
  c ∈ children (parent_child_map h emap) k -> c ∈ dict_values emap /\ parent_id (deref h c) = k.
Proof.
  unfold children, parent_child_map. rewrite group_get_default.
  intros [Hk Hin]%list_elem_of_filter. done.
Qed.

(** A chain of the index: a root, then a child of it, and so on. *)
Definition chain (p : list ref) : Prop :=
  Forall (fun x => x ∈ dict_values emap) p /\
  (forall x, head p = Some x -> parent_id (deref h x) = None) /\
  (forall k a b, p !! k = Some a -> p !! S k = Some b -> parent_id (deref h b) = el_id (deref h a)).

Lemma chain_elem p k x :
  Forall (fun x => x ∈ dict_values emap) p -> p !! k = Some x -> x ∈ dict_values emap.
Proof. rewrite Forall_lookup. intros H Hx. exact (H k x Hx). Qed.

(** No element occurs twice on a chain: the parent pointers and the
    distinct ids forbid a cycle. *)
Lemma chain_nodup p : chain p -> NoDup p.
Proof.
  intros (Hin & Hhead & Hstep). apply NoDup_alt.
  assert (forall i j x, i < j -> p !! i = Some x -> p !! j = Some x -> False) as Hlt.
  { induction i as [|i IH]; intros j x Hij Hi Hj; destruct j as [|j]; try lia.
    - destruct (lookup_lt_is_Some_2 p j) as [y Hy]; [apply lookup_lt_Some in Hj; lia|].
      pose proof (Hstep j y x Hy Hj) as E.
      rewrite Hhead in E; [|by destruct p; simpl in *; congruence].
      destruct (values_id y) as [iy Hiy]; [exact (chain_elem _ _ _ Hin Hy)|]. congruence.
    - destruct (lookup_lt_is_Some_2 p i) as [a Ha]; [apply lookup_lt_Some in Hi; lia|].
      destruct (lookup_lt_is_Some_2 p j) as [b Hb]; [apply lookup_lt_Some in Hj; lia|].
      pose proof (Hstep i a x Ha Hi) as E1. pose proof (Hstep j b x Hb Hj) as E2.
      assert (a = b) as <-.
      { apply values_inj; [exact (chain_elem _ _ _ Hin Ha)|exact (chain_elem _ _ _ Hin Hb)|congruence]. }
      apply (IH j a); [lia|done|done]. }
  intros i j x Hi Hj. destruct (Nat.lt_total i j) as [?|[?|?]]; [exfalso; by eapply Hlt|done|].
  exfalso. by apply (Hlt j i x).
Qed.

Lemma chain_length p : chain p -> length p <= length B.
Proof.
  intros Hc. pose proof (chain_nodup p Hc) as Hnd. destruct Hc as [Hin _].
  apply NoDup_incl_length; [by apply NoDup_ListNoDup|].
  intros x Hx. apply list_elem_of_In, HB.
  exact (proj1 (Forall_forall _ p) Hin x Hx).
Qed.

Lemma chain_root r : r ∈ children (parent_child_map h emap) None -> chain [r].
Proof.
  intros [Hv Hp]%children_elem. split_and!; [by constructor|by intros x [= <-]|].
  intros [|k] a b ? Hb; simpl in Hb; discriminate.
Qed.

Lemma chain_snoc p r c :
  chain (p ++ [r]) -> c ∈ children (parent_child_map h emap) (el_id (deref h r)) ->
  chain ((p ++ [r]) ++ [c]).
Proof.
  intros (Hin & Hhead & Hstep) [Hv Hp]%children_elem. split_and!.
  - apply Forall_app. split; [done|by constructor].
  - intros x Hx. apply Hhead. destruct p; simpl in *; congruence.
  - intros k a b Ha Hb. destruct (decide (S k < length (p ++ [r]))) as [Hk|Hk].
    + rewrite lookup_app_l in Ha, Hb by lia. by apply (Hstep k).
    + apply lookup_lt_Some in Hb as Hb'. rewrite length_app in Hb'. simpl in Hb'.
      assert (S k = length (p ++ [r])) as Hk' by lia.
      rewrite lookup_app_r, Hk', Nat.sub_diag in Hb by lia. injection Hb as <-.
      rewrite lookup_app_l in Ha by lia. rewrite length_app in Hk'. simpl in Hk'.
      assert (k = length p) as -> by lia.
      rewrite lookup_app_r, Nat.sub_diag in Ha by lia. by injection Ha as <-.
Qed.

(** Fuel adequacy for one subtree: the fuel still needed is bounded by
    the elements not yet on the chain. *)
Lemma build_node_ok fuel anc r prefix is_last :
  chain (anc ++ [r]) -> length B <= length anc + fuel ->
  exists s, build_node fuel h (parent_child_map h emap) r prefix is_last = POk s.
Proof.
  revert anc r prefix is_last. induction fuel as [|f IH]; intros anc r prefix is_last Hc Hlen.
  - apply chain_length in Hc. rewrite length_app in Hc. simpl in Hc. lia.
  - simpl. edestruct children_lines_ok as [ls ->]; [|by eexists].
    intros c Hcin pre b. apply (IH (anc ++ [r])); [by apply chain_snoc|].
    rewrite length_app. simpl. lia.
Qed.

Lemma roots_output_ok fuel n i todo out :
  (forall r, r ∈ todo -> r ∈ children (parent_child_map h emap) None) -> length B <= fuel ->
  exists ls, roots_output fuel h (parent_child_map h emap) n i todo out = POk ls.
Proof.
  revert i out. induction todo as [|r rest IH]; intros i out Hr Hlen; simpl; [by eexists|].
  destruct (build_node_ok fuel [] r [] (bool_decide (i = n - 1))) as [s ->].
  - apply chain_root, Hr. set_solver.
  - simpl. lia.
  - simpl. apply IH; [|done]. intros r' Hr'. apply Hr. set_solver.
Qed.

(** With a fuel of at least the number of elements, rendering the roots
    never raises [RecursionError]. *)
Theorem render_roots_ok fuel :
  length B <= fuel -> exists s, render_roots fuel h (parent_child_map h emap) = POk s.
Proof.
  intros Hlen. unfold render_roots.
  destruct (roots_output_ok fuel (length (children (parent_child_map h emap) None)) 0
              (children (parent_child_map h emap) None) []) as [ls ->]; [done|done|by eexists].
Qed.
End adequacy.

Lemma children_lines_mono rec1 rec2 n p i todo lines ls :
  (forall c pre b s, rec1 c pre b = POk s -> rec2 c pre b = POk s) ->
  children_lines rec1 n p i todo lines = POk ls -> children_lines rec2 n p i todo lines = POk ls.
Proof.
  intros Hrec. revert i lines. induction todo as [|c rest IH]; intros i lines H; simpl in *; [done|].
  py_simp. rewrite (Hrec _ _ _ _ Ha). simpl. by apply IH.
Qed.

(** More stack never changes the output. *)
Theorem build_node_mono fuel fuel' h pcm r prefix is_last s :
  fuel <= fuel' ->
  build_node fuel h pcm r prefix is_last = POk s -> build_node fuel' h pcm r prefix is_last = POk s.
Proof.
  intros Hle. revert fuel' Hle r prefix is_last s.
  induction fuel as [|f IH]; intros fuel' Hle r prefix is_last s H; [discriminate|].
  destruct fuel' as [|f']; [lia|]. simpl in *.
  apply pyres_fmap_ok in H as [ls [Hls ->]].
  erewrite children_lines_mono; [done| |exact Hls].
  intros c pre b s'. apply IH. lia.
Qed.

(** * The whole function *)

Lemma element_map_entry h elements k r :
  (k, r) ∈ element_map h elements -> el_id (deref h r) = Some k /\ r ∈ elements.
Proof.
  intros Hin%dict_of_list_entries. apply list_elem_of_omap in Hin as [r' [Hr' Hid]].
  unfold id_entry in Hid. destruct (el_id (deref h r')) eqn:E; simpl in Hid; [|discriminate].
  injection Hid as <- <-. done.
Qed.

Lemma element_map_no_hf_entry h elements k r :
  (k, r) ∈ element_map_no_hf h elements -> el_id (deref h r) = Some k /\ r ∈ elements.
Proof.
  intros Hin%dict_of_list_entries. apply list_elem_of_omap in Hin as [r' [Hr' Hid]].
  unfold id_entry in Hid. destruct (is_header_or_footer (deref h r')); [discriminate|].
  destruct (el_id (deref h r')) eqn:E; simpl in Hid; [|discriminate].
  injection Hid as <- <-. done.
Qed.

Lemma render_roots_ok_for h elements emap fuel :
  (forall k r, (k, r) ∈ emap -> el_id (deref h r) = Some k /\ r ∈ elements) ->
  dict_wf emap -> length elements <= fuel ->
  exists s, render_roots fuel h (parent_child_map h emap) = POk s.
Proof.
  intros Hent Hwf Hlen. apply (render_roots_ok h emap elements Hwf); [| |exact Hlen].
  - intros k r Hin. exact (proj1 (Hent k r Hin)).
  - intros r [k Hk]%dict_values_elem. exact (proj2 (Hent k r Hk)).
Qed.

(** [elements_to_visual_tree] returns on every input whose Titles have ids
    (the only exception the pre-processing can raise), as soon as the stack
    allows as many nested calls as there are elements. *)
Theorem elements_to_visual_tree_total fuel h elements ignore_header_footer :
  elements_wf h elements ->
  (forall r, r ∈ elements -> is_title (deref h r) = true -> is_Some (el_id (deref h r))) ->
  length elements <= fuel ->
  exists s h', elements_to_visual_tree fuel h elements ignore_header_footer = POk (s, h').
Proof.
  intros Hwf Hid Hlen. unfold elements_to_visual_tree. destruct ignore_header_footer; simpl.
  - destruct (reparent_no_raise h elements Hwf Hid) as [h' ->]. simpl.
    destruct (render_roots_ok_for h' elements (element_map_no_hf h' elements) fuel) as [s ->];
      [apply element_map_no_hf_entry|apply dict_of_list_wf|done|].
    by exists s, h'.
  - destruct (render_roots_ok_for h elements (element_map h elements) fuel) as [s ->];
      [apply element_map_entry|apply dict_of_list_wf|exact Hlen|].
    by exists s, h.
Qed.

(** * Equivalence with a direct pre-order rendering

    [_build_node] returns a joined string that its caller splits again at
    newlines and extends into its own lines.  The reference below builds
    the list of lines of a subtree directly, node first and then the
    subtrees of its children in order, with the same prefixes and
    connectors; the theorem [render_roots_preorder] states that the code
    outputs exactly these lines joined by newlines. *)

Fixpoint forest_trees (rec : ref -> pystr -> bool -> option (list pystr)) (n : nat) (p : pystr)
    (i : nat) (todo : list ref) : option (list (list pystr)) :=
  match todo with
  | [] => Some []
  | c :: rest =>
      ls ← rec c p (bool_decide (i = n - 1));
      rest' ← forest_trees rec n p (S i) rest;
      Some (ls :: rest')
  end.

Definition forest_lines (rec : ref -> pystr -> bool -> option (list pystr)) (n : nat) (p : pystr)
    (i : nat) (todo : list ref) : option (list pystr) :=
  (fun Ls => concat Ls) <$> forest_trees rec n p i todo.

Fixpoint subtree_lines (fuel : nat) (h : store) (pcm : index) (r : ref) (prefix : pystr)
    (is_last : bool) : option (list pystr) :=
  match fuel with
  | 0 => None
  | S f =>
      let e := deref h r in
      let cs := children pcm (el_id e) in
      ls ← forest_lines (subtree_lines f h pcm) (length cs)
             (prefix ++ (if is_last then blank_pad else pipe_pad)) 0 cs;
      Some ((prefix ++ (if is_last then elbow else tee) ++ node_line e) :: ls)
  end.

Lemma subtree_lines_nonempty fuel h pcm r p b ls : subtree_lines fuel h pcm r p b = Some ls -> ls <> [].
Proof.
  destruct fuel; simpl; [discriminate|]. intros H.
  destruct (forest_lines _ _ _ _ _); simpl in H; [|discriminate]. by injection H as <-.
Qed.

Lemma str_join_concat (Ls : list (list pystr)) :
  Forall (fun L => L <> []) Ls -> str_join [nl] (map (str_join [nl]) Ls) = str_join [nl] (concat Ls).
Proof.
  induction Ls as [|L Ls IH]; intros Hne; [done|]. apply Forall_cons_iff in Hne as [HL HLs].
  destruct Ls as [|L' Ls]; [simpl; by rewrite app_nil_r|].
  apply Forall_cons_iff in HLs as [HL' HLs'].
  cbn [map concat]. rewrite str_join_cons_cons.
  change (str_join [nl] L' :: map (str_join [nl]) Ls) with (map (str_join [nl]) (L' :: Ls)).
  rewrite IH by (by constructor). cbn [concat].
  rewrite (str_join_app _ L); [done|done|]. destruct L'; [done|discriminate].
Qed.

(** Only the joined text of a middle block matters. *)
Lemma str_join_block X M M' Y :
  X <> [] -> M <> [] -> M' <> [] -> str_join [nl] M = str_join [nl] M' ->
  str_join [nl] (X ++ M ++ Y) = str_join [nl] (X ++ M' ++ Y).
Proof.
  intros HX HM HM' E.
  assert (forall Z, Z <> [] -> str_join [nl] (X ++ Z ++ Y) = str_join [nl] X ++ [nl] ++ str_join [nl] (Z ++ Y))
    as Hsplit by (intros Z HZ; apply str_join_app; [done|destruct Z; [done|discriminate]]).
  rewrite (Hsplit M HM), (Hsplit M' HM'). do 2 f_equal.
  destruct Y as [|y Y]; [by rewrite !app_nil_r|].
  rewrite !str_join_app by (done || discriminate). by rewrite E.
Qed.

Section preorder.
Variables (rec : ref -> pystr -> bool -> pyres pystr) (rec' : ref -> pystr -> bool -> option (list pystr)).
Hypothesis Hrec : forall c p b,
  rec c p b = match rec' c p b with Some ls => POk (str_join [nl] ls) | None => PRaise RecursionError end.
Hypothesis Hne : forall c p b ls, rec' c p b = Some ls -> ls <> [].

Lemma forest_trees_nonempty n p i todo Ls :
  forest_trees rec' n p i todo = Some Ls -> Forall (fun L => L <> []) Ls.
Proof.
  revert i Ls. induction todo as [|c rest IH]; intros i Ls H; simpl in H; [by injection H as <-|].
  destruct (rec' c p _) as [ls|] eqn:E; [|discriminate]. simpl in H.
  destruct (forest_trees rec' n p (S i) rest) as [Ls'|] eqn:E'; [|discriminate].
  injection H as <-. constructor; [exact (Hne _ _ _ _ E)|exact (IH _ _ E')].
Qed.

(** The loop of lines 81-83 against the reference. *)
Lemma children_lines_preorder n p i todo acc :
  acc <> [] ->
  (str_join [nl] <$> children_lines rec n p i todo acc) =
    match forest_lines rec' n p i todo with
    | Some ls => POk (str_join [nl] (acc ++ ls))
    | None => PRaise RecursionError
    end.
Proof.
  unfold forest_lines. revert i acc. induction todo as [|c rest IH]; intros i acc Hacc; simpl.
  { by rewrite app_nil_r. }
  rewrite Hrec. destruct (rec' c p _) as [ls|] eqn:E; simpl; [|done].
  rewrite IH by (destruct acc; [done|discriminate]).
  destruct (forest_trees rec' n p (S i) rest) as [Ls|]; simpl; [|done]. f_equal.
  rewrite <- !app_assoc. apply str_join_block; [done|apply split_by_not_nil|exact (Hne _ _ _ _ E)|].
  apply join_split_on.
Qed.
End preorder.

(** [_build_node] renders its subtree as the reference does. *)
Lemma build_node_preorder fuel h pcm r p b :
  build_node fuel h pcm r p b =
    match subtree_lines fuel h pcm r p b with
    | Some ls => POk (str_join [nl] ls)
    | None => PRaise RecursionError
    end.
Proof.
  revert r p b. induction fuel as [|f IH]; intros r p b; [done|]. simpl.
  rewrite (children_lines_preorder _ (subtree_lines f h pcm)); [|exact IH|apply subtree_lines_nonempty|discriminate].
  by destruct (forest_lines _ _ _ _ _).
Qed.

Lemma roots_output_preorder fuel h pcm n i todo out :
  (str_join [nl] <$> roots_output fuel h pcm n i todo out) =
    match forest_trees (subtree_lines fuel h pcm) n [] i todo with
    | Some Ls => POk (str_join [nl] (out ++ map (str_join [nl]) Ls))
    | None => PRaise RecursionError
    end.
Proof.
  revert i out. induction todo as [|c rest IH]; intros i out; simpl; [by rewrite app_nil_r|].
  rewrite build_node_preorder. destruct (subtree_lines fuel h pcm c [] _) as [ls|]; simpl; [|done].
  rewrite IH. destruct (forest_trees _ _ _ _ rest); simpl; [|done]. by rewrite <- app_assoc.
Qed.

(** The text of the roots is the reference's lines joined. *)
Lemma render_roots_lines fuel h pcm :
  render_roots fuel h pcm =
    match forest_lines (subtree_lines fuel h pcm) (length (children pcm None)) [] 0 (children pcm None) with
    | Some ls => POk (str_join [nl] ls)
    | None => PRaise RecursionError
    end.
Proof.
  unfold render_roots, forest_lines. rewrite roots_output_preorder.
  destruct (forest_trees _ _ _ _ _) as [Ls|] eqn:E; simpl; [|done].
  rewrite str_join_concat; [done|]. eapply forest_trees_nonempty; [|exact E].
  apply subtree_lines_nonempty.
Qed.

(** * The elements a rendering reaches *)

(** The elements the recursion of [_build_node] (and of [_build_markdown])
    visits: the roots, children of [None], and the children of a visited
    element. *)
Inductive rendered (h : store) (pcm : index) : ref -> Prop :=
| rendered_root r : r ∈ children pcm None -> rendered h pcm r
| rendered_child r c : rendered h pcm r -> c ∈ children pcm (el_id (deref h r)) -> rendered h pcm c.

Lemma rendered_children h pcm r : rendered h pcm r -> exists k, r ∈ children pcm k.
Proof. destruct 1; eauto. Qed.

(** The maps the pre-processing returns have unique keys, each the id of
    its value. *)
Lemma preprocess_map_wf b h elements h' emap :
  preprocess b h elements = POk (h', emap) ->
  dict_wf emap /\ forall k r, (k, r) ∈ emap -> el_id (deref h' r) = Some k /\ r ∈ elements.
Proof.
  destruct b; simpl; intros H; py_simp; simplify_eq/=; split;
    first [apply dict_of_list_wf | apply element_map_no_hf_entry | apply element_map_entry].
Qed.

(** A set [S] of elements of the map, each of whose [parent_id] is the id
    of an element of [S] (a cycle of [parent_id]s and what hangs from it),
    is never reached from the roots. *)
Lemma closed_not_rendered h emap S r :
  dict_wf emap -> (forall k r, (k, r) ∈ emap -> el_id (deref h r) = Some k) ->
  S ⊆ dict_values emap ->
  (forall s, s ∈ S -> exists s', s' ∈ S /\ parent_id (deref h s) = el_id (deref h s')) ->
  rendered h (parent_child_map h emap) r -> r ∉ S.
Proof.
  intros Hwf Hkeys HS Hcl. induction 1 as [r Hr|r c Hr IH Hc]; intros Hin;
    destruct (Hcl _ Hin) as (s' & Hs' & Hps).
  - apply children_elem in Hr as [_ Hp]. destruct (values_id h emap Hkeys s') as [i Hi]; [by apply HS|].
    congruence.
  - apply children_elem in Hc as [_ Hp]. destruct (rendered_children _ _ _ Hr) as [k Hk].
    apply children_elem in Hk as [Hrv _]. apply IH.
    rewrite (values_inj h emap Hwf Hkeys r s'); [done|done|by apply HS|congruence].
Qed.

(** Every line of a rendered tree is the node line of a rendered element,
    after its prefix and connector. *)
Definition rendered_lines (h : store) (pcm : index) (ls : list pystr) : Prop :=
  forall l, l ∈ ls -> exists r q, l = q ++ node_line (deref h r) /\ rendered h pcm r.

Lemma forest_lines_rendered h pcm rec n p i todo ls :
  (forall c p b ls, c ∈ todo -> rec c p b = Some ls -> rendered_lines h pcm ls) ->
  forest_lines rec n p i todo = Some ls -> rendered_lines h pcm ls.
Proof.
  unfold forest_lines. revert i ls. induction todo as [|c todo IH]; intros i ls Hrec H.
  { injection H as <-. intros l Hl. by apply not_elem_of_nil in Hl. }
  simpl in H. destruct (rec c p _) as [lc|] eqn:Ec; [|discriminate]. simpl in H.
  destruct (forest_trees rec n p (S i) todo) as [Ls|] eqn:E; [|discriminate]. simpl in H.
  injection H as <-. intros l [Hl|Hl]%elem_of_app.
  - eapply Hrec; [left|exact Ec|exact Hl].
  - refine (IH (S i) (concat Ls) _ _ l Hl); [|by rewrite E].
    intros c' p' b' ls' Hc'. apply Hrec. by right.
Qed.

Lemma subtree_lines_rendered fuel h pcm r p b ls :
  rendered h pcm r -> subtree_lines fuel h pcm r p b = Some ls -> rendered_lines h pcm ls.
Proof.
  revert r p b ls. induction fuel as [|f IH]; intros r p b ls Hr H; [discriminate|].
  simpl in H. destruct (forest_lines _ _ _ _ _) as [cs|] eqn:E; [|discriminate]. simpl in H.
  injection H as <-. intros l [->|Hl]%elem_of_cons.
  - eexists r, _. split; [by rewrite <- app_assoc|done].
  - eapply forest_lines_rendered; [|exact E|exact Hl]. intros c p' b' ls' Hc.
    apply IH. by apply (rendered_child h pcm r).
Qed.

Lemma render_roots_rendered fuel h pcm s :
  render_roots fuel h pcm = POk s -> exists ls, s = str_join [nl] ls /\ rendered_lines h pcm ls.
Proof.
  rewrite render_roots_lines. destruct (forest_lines _ _ _ _ _) as [ls|] eqn:E; [|discriminate].
  intros [= <-]. exists ls. split; [done|]. eapply forest_lines_rendered; [|exact E].
  intros c p b ls' Hc. apply subtree_lines_rendered. by apply rendered_root.
Qed.

Lemma visual_tree_rendered fuel h elements b text h' :
  elements_to_visual_tree fuel h elements b = POk (text, h') ->
  exists emap ls, preprocess b h elements = POk (h', emap) /\ text = str_join [nl] ls /\
    rendered_lines h' (parent_child_map h' emap) ls.
Proof.
  unfold elements_to_visual_tree. intros H. py_simp. destruct a as [h0 emap]. simplify_eq/=.
  destruct (render_roots_rendered _ _ _ _ Ha0) as (ls & -> & Hl). by exists emap, ls.
Qed.

(** * Properties *)

(** A single Title without children, as the only element of the list. *)
Definition single_title : store := [mkElement (Some (s_ "t")) Title (s_ "Intro") None None].

(** (C8) Termination: [elements_to_visual_tree] returns (no
    [RecursionError], no [AttributeError]) on every list of distinct
    elements whose Titles have ids, as soon as the stack allows as many
    nested [_build_node] calls as there are elements. *)
Theorem visual_tree_terminates fuel h elements ignore_header_footer :
  elements_wf h elements ->
  (forall r, r ∈ elements -> is_title (deref h r) = true -> is_Some (el_id (deref h r))) ->
  length elements <= fuel ->
  exists s h', elements_to_visual_tree fuel h elements ignore_header_footer = POk (s, h').
Proof. apply elements_to_visual_tree_total. Qed.

Lemma visual_tree_terminates_witness :
  exists s h', elements_to_visual_tree 3 spec_scenario [0; 1; 2] true = POk (s, h').
Proof.
  apply visual_tree_terminates.
  - split; decide_prop.
  - intros r Hr _. repeat (apply elem_of_cons in Hr as [->|Hr]; [vm_compute; eexists; reflexivity|]).
    exfalso. by apply not_elem_of_nil in Hr.
  - simpl. lia.
Defined.

(** (C39) The display text of line 72 is bounded: it has no newline, at
    most [max_length + 3 = 48] code points, and it is the stripped text
    itself when that has at most 45 code points, otherwise its first 45
    code points followed by ["..."]. *)
Theorem display_text_bounds t :
  nl ∉ display_text t /\ length (display_text t) <= max_length + 3 /\
  (length (raw_text t) <= max_length -> display_text t = raw_text t) /\
  (max_length < length (raw_text t) -> display_text t = take max_length (raw_text t) ++ s_ "...").
Proof.
  split_and!; [apply display_text_no_newline| |apply display_text_short|apply display_text_truncates].
  destruct (Nat.le_gt_cases (length (raw_text t)) max_length) as [Hle|Hgt].
  - rewrite display_text_short by done. lia.
  - rewrite (proj2 (display_text_truncates t Hgt)). done.
Qed.

Lemma display_text_bounds_witness :
  nl ∉ display_text (s_ "Intro") /\ length (display_text (s_ "Intro")) <= max_length + 3 /\
  (length (raw_text (s_ "Intro")) <= max_length -> display_text (s_ "Intro") = raw_text (s_ "Intro")) /\
  (max_length < length (raw_text (s_ "Intro")) ->
     display_text (s_ "Intro") = take max_length (raw_text (s_ "Intro")) ++ s_ "...").
Proof. apply (display_text_bounds (s_ "Intro")). Defined.

(** (C11) Equivalence: the text of [_build_node] over the roots, whose
    children's strings are split at newlines and re-joined (lines 81-85,
    88-93), is exactly the pre-order list of node lines, each with its
    prefix and connector, joined by newlines; the recursion raises
    [RecursionError] exactly when the reference runs out of depth. *)
Theorem render_roots_preorder fuel h pcm :
  render_roots fuel h pcm =
    match forest_lines (subtree_lines fuel h pcm) (length (children pcm None)) [] 0 (children pcm None) with
    | Some ls => POk (str_join [nl] ls)
    | None => PRaise RecursionError
    end.
Proof. apply render_roots_lines. Qed.

