(* ===== verification/ParseScript.v ===== *)
(** * The script of [parse_file.py]: partition a PDF and print its tree

    Lines 1-11 of [src/HW-05/parse_file.py] call unstructured's
    [partition_pdf] on a fixed file with [skip_infer_table_types=False],
    [strategy="hi_res"] and [infer_table_structure=True]; line 229 prints
    [elements_to_visual_tree(elements, ignore_header_footer=True)].

    [partition_pdf] is a library (layout detection and OCR): it is a
    section variable from the path and the options to the element objects
    it allocates, a store and the list of their references.  [print]
    writes the text and a newline.

    [parse_script_prints_tree] composes the re-parenting pass, the index
    and the renderer: on any partition whose Titles have ids, with a stack
    deep enough for the elements, the script prints the pre-order lines of
    the tree, one per element of the re-parented element map, and none of
    them is a Header or a Footer. *)

From stdpp Require Import strings.
From S2P Require Import Prelude PyStr PyDict Element Reparent Forest TreeText.

(** The keyword arguments of [partition_pdf] (lines 6-11). *)
Record partition_opts := mkOpts {
  skip_infer_table_types : bool;
  strategy : pystr;
  infer_table_structure : bool;
}.

(** ["90-文档-Data/复杂PDF/billionaires_page-1-5.pdf"], line 4. *)
Definition file_path : pystr :=
  s_ "90-" ++ [0x6587%N; 0x6863%N] ++ s_ "-Data/" ++ [0x590d%N; 0x6742%N] ++ s_ "PDF/billionaires_page-1-5.pdf".

(** Lines 8-10. *)
Definition script_opts : partition_opts := mkOpts false (s_ "hi_res") true.

Section script.
Variable partition_pdf : pystr -> partition_opts -> store * list ref.

(** Lines 6-11: [elements = partition_pdf(file_path, ...)]. *)
Definition partition_elements : store * list ref := partition_pdf file_path script_opts.

(** Line 229: [print(elements_to_visual_tree(elements,
    ignore_header_footer=True))], the printed text and the store after
    the re-parenting. *)
Definition print_visual_tree (fuel : nat) (h : store) (elements : list ref) : pyres (pystr * store) :=
  '(text, h') ← elements_to_visual_tree fuel h elements true;
  POk (text ++ [nl], h').

(** The script. *)
Definition parse_script (fuel : nat) : pyres (pystr * store) :=
  let '(h, elements) := partition_elements in print_visual_tree fuel h elements.
End script.

(** * Lemmas *)

Lemma element_map_no_hf_not_hf h elements k r :
  (k, r) ∈ element_map_no_hf h elements -> is_header_or_footer (deref h r) = false.
Proof.
  intros Hin%dict_of_list_entries. apply list_elem_of_omap in Hin as [r' [_ Hid]].
  destruct (is_header_or_footer (deref h r')) eqn:E; [discriminate|].
  unfold id_entry in Hid. destruct (el_id (deref h r')); simpl in Hid; [|discriminate].
  by injection Hid as <- <-.
Qed.

(** * Properties *)

Section properties.
Variable partition_pdf : pystr -> partition_opts -> store * list ref.

(** (C18) Composition of the script of [parse_file.py]: when the
    partition of the file has distinct elements whose Titles have ids, and
    the stack allows as many nested calls as there are elements, the
    script returns and prints the lines of the tree followed by a newline;
    every line is the node line of one of the partitioned elements, after
    its prefix and connector, and none of them is a Header or a Footer
    ([ignore_header_footer=True]). *)
Theorem parse_script_prints_tree fuel h elements :
  partition_pdf file_path script_opts = (h, elements) ->
  elements_wf h elements ->
  (forall r, r ∈ elements -> is_title (deref h r) = true -> is_Some (el_id (deref h r))) ->
  length elements <= fuel ->
  exists h' ls, parse_script partition_pdf fuel = POk (str_join [nl] ls ++ [nl], h') /\
    forall l, l ∈ ls -> exists r q, l = q ++ node_line (deref h' r) /\ r ∈ elements /\
      is_header_or_footer (deref h' r) = false.
Proof.
  intros Hp Hwf Hid Hlen. unfold parse_script, partition_elements, print_visual_tree. rewrite Hp.
  destruct (reparent_no_raise h elements Hwf Hid) as [h' Hr].
  set (emap := element_map_no_hf h' elements).
  destruct (render_roots_ok_for h' elements emap fuel) as [s Hs];
    [apply element_map_no_hf_entry|apply dict_of_list_wf|exact Hlen|].
  pose proof Hs as Hs'. rewrite render_roots_lines in Hs'.
  destruct (forest_lines _ _ _ _ _) as [ls|] eqn:E; [|discriminate]. injection Hs' as <-.
  exists h', ls. unfold elements_to_visual_tree, preprocess. rewrite Hr. simpl. fold emap. rewrite Hs.
  split; [done|]. intros l Hl.
  destruct (forest_lines_rendered h' _ _ _ _ _ _ ls
              (fun c p b ls' Hc => subtree_lines_rendered fuel h' _ c p b ls' (rendered_root _ _ c Hc)) E l Hl)
    as (r & q & -> & Hrd).
  destruct (rendered_children _ _ _ Hrd) as [k Hk].
  apply children_elem, proj1, dict_values_elem in Hk as [k' Hk'].
  exists r, q. split; [done|]. split.
  - exact (proj2 (element_map_no_hf_entry _ _ _ _ Hk')).
  - exact (element_map_no_hf_not_hf _ _ _ _ Hk').
Qed.
End properties.

(** A partition with one Title. *)
Definition single_partition (p : pystr) (o : partition_opts) : store * list ref := (single_title, [0]).

Lemma parse_script_prints_tree_witness :
  exists h' ls, parse_script single_partition 1 = POk (str_join [nl] ls ++ [nl], h') /\
    forall l, l ∈ ls -> exists r q, l = q ++ node_line (deref h' r) /\ r ∈ [0] /\
      is_header_or_footer (deref h' r) = false.
Proof.
  apply (parse_script_prints_tree single_partition 1 single_title [0]).
  - reflexivity.
  - split; [repeat constructor; set_solver|repeat constructor; simpl; lia].
  - intros r Hr _. apply list_elem_of_singleton in Hr as ->. by eexists.
  - simpl. lia.
Defined.
