(* ===== verification/Markdown.v ===== *)
(** * The Markdown renderer: [elements_to_markdown] and [_handle_table]

    Lines 95-226 of [parse_file.py].  After the same pre-processing as the
    tree renderer ([Reparent.preprocess], here with [ignore_header_footer]
    defaulting to [True]) and the same index (a [defaultdict(list)], read
    with [.get(key, [])]), [_build_markdown] appends to the shared list
    [markdown_lines]:

    - a blank separator [''] unless the list is empty or already ends with
      one (lines 144-146);
    - for a Table, the lines of [_handle_table] and nothing for its
      children (lines 148-151);
    - for a Title, ["<indent>## text"] and a blank (lines 157-159), for any
      other element ["<indent>- text"] (lines 160-162), the text being
      stripped with its newlines turned into Markdown hard breaks;
    - then the children, one level deeper.

    [_handle_table] parses [metadata.text_as_html] with BeautifulSoup.  The
    parser is a library, so it is a parameter [soup_rows] of the section:
    for an HTML string it gives the cell texts of every [<tr>] (what
    [td.get_text(strip=True)] returns for each [<td>]/[<th>]), or
    [inr (str e)] when it raises an exception [e], which the [except] of
    line 195 catches and line 196 prints.  Without [text_as_html], or after
    an exception, the table is rebuilt from its TableRow/TableCell children
    in the index.

    [markdown_lines] and the text printed to stdout are the state
    threaded through [build_markdown]; the recursion has the same stack
    fuel as the tree renderer.

    The properties: no two consecutive blank lines when every table has
    HTML the parser reads ([markdown_no_double_blank]) and, at any level,
    the fallback table that breaks it ([markdown_fallback_double_blank]);
    the separator with two cells too many ([separator_two_extra_columns]);
    the exact lines of an HTML table, one entry with no blank after it and
    the indent at the end of its rows ([html_table_markdown]); the
    fallback table without separator at any level; termination;
    [markdown_prints_table_errors], everything the renderer prints is the
    line of an exception the parser raised on a Table; and
    [cycle_dropped]: with [TreeText.rendered], the elements reachable from
    the roots, every line of either rendering comes from a reachable
    element, and a set of elements closed under [parent_id] is never
    reached, so such elements vanish from both renderings. *)

From S2P Require Import Prelude PyStr PyDict Element Reparent Forest TreeText.
From stdpp Require Import strings.

Definition is_table (e : element) : bool := cat_is "Table" (category e).
Definition is_table_row (e : element) : bool := cat_is "TableRow" (category e).
Definition is_table_cell (e : element) : bool := cat_is "TableCell" (category e).

Definition pipe : N := 124%N.

(** [indent = "  " * level] *)
Definition indent_of (level : nat) : pystr := concat (replicate level (s_ "  ")).

(** Lines 145-146: [if markdown_lines and markdown_lines[-1] != '':
    markdown_lines.append('')]. *)
Definition sep_blank (lines : list pystr) : list pystr :=
  match last lines with
  | Some [] | None => lines
  | Some _ => lines ++ [[]]
  end.

(** Lines 154-155: [node.text.strip().replace('\n', '  \n')]. *)
Definition md_text (e : element) : pystr :=
  replace_char nl (s_ "  " ++ [nl]) (strip (text e)).

(** ["| " + " | ".join(cells) + " |"] *)
Definition table_row (cells : list pystr) : pystr :=
  s_ "| " ++ str_join (s_ " | ") cells ++ s_ " |".

(** Line 189 (and 211): ["| " + " | ".join(["---"] * len(rows[0].split('|'))) + " |"]. *)
Definition separator (row0 : pystr) : pystr :=
  table_row (replicate (length (split_on pipe row0)) (s_ "---")).

(** Lines 181-184: the rows of the HTML table, skipping [<tr>]s without cells. *)
Definition html_rows (trs : list (list pystr)) : list pystr :=
  map table_row (filter (fun cells => cells <> []) trs).

(** Lines 187-194: one line for a single row, otherwise the rows joined
    with [indent + "\n"], the separator after the first. *)
Definition html_table_lines (rows : list pystr) (indent : pystr) : list pystr :=
  match rows with
  | [] => []
  | [r0] => [indent ++ r0]
  | r0 :: rest => [str_join (indent ++ [nl]) (r0 :: separator r0 :: rest)]
  end.

(** Lines 199-208: the rows rebuilt from the TableRow children of the table
    and their TableCell children. *)
Definition fallback_rows (h : store) (pcm : index) (e : element) : list pystr :=
  map (fun row => table_row (map (fun c => strip (text (deref h c)))
                               (filter (fun c => is_table_cell (deref h c) = true)
                                  (children pcm (el_id (deref h row))))))
      (filter (fun row => is_table_row (deref h row) = true) (children pcm (el_id e))).

(** Lines 210-219: the rows joined with [indent + "\n"] (the separator
    computed at line 211 is not used), surrounded by blanks. *)
Definition fallback_lines (rows : list pystr) (indent : pystr) : list pystr :=
  match rows with
  | [] => []
  | _ => [[]; str_join (indent ++ [nl]) rows; []]
  end.

(** ["表格解析失败: " + str(e)], line 196. *)
Definition table_error (msg : pystr) : pystr :=
  [0x8868%N; 0x683c%N; 0x89e3%N; 0x6790%N; 0x5931%N; 0x8d25%N] ++ s_ ": " ++ msg.

(** The state of [_build_markdown]: the shared list [markdown_lines] and
    the text written to stdout. *)
Abbreviation md_state := (list pystr * pystr)%type.

Section markdown.
Variable soup_rows : pystr -> list (list pystr) + pystr.

(** [_handle_table(table_element, indent)]: its lines, and the line the
    [except] of lines 195-196 prints. *)
Definition handle_table (h : store) (pcm : index) (e : element) (indent : pystr) : list pystr * pystr :=
  match truthy (text_as_html e) with
  | Some html =>
      match soup_rows html with
      | inl trs => (html_table_lines (html_rows trs) indent, [])
      | inr msg => (fallback_lines (fallback_rows h pcm e) indent, print_line (table_error msg))
      end
  | None => (fallback_lines (fallback_rows h pcm e) indent, [])
  end.

(** [for child in children: rec(child, level)], threading the state. *)
Fixpoint md_children (rec : ref -> nat -> md_state -> pyres md_state) (level : nat)
    (todo : list ref) (st : md_state) : pyres md_state :=
  match todo with
  | [] => POk st
  | c :: rest => st' ← rec c level st; md_children rec level rest st'
  end.

(** [_build_markdown(node, level)] on [markdown_lines] and stdout. *)
Fixpoint build_markdown (fuel : nat) (h : store) (pcm : index) (r : ref) (level : nat)
    (st : md_state) : pyres md_state :=
  match fuel with
  | 0 => PRaise RecursionError
  | S f =>
      let e := deref h r in
      let indent := indent_of level in
      let lines1 := sep_blank st.1 in
      if is_table e then
        let t := handle_table h pcm e indent in POk (lines1 ++ t.1, st.2 ++ t.2)
      else
        let lines2 :=
          if is_title e then lines1 ++ [indent ++ s_ "## " ++ md_text e; []]
          else lines1 ++ [indent ++ s_ "- " ++ md_text e] in
        md_children (build_markdown f h pcm) (S level) (children pcm (el_id e)) (lines2, st.2)
  end.

(** Lines 99-224: [markdown_lines] and stdout after the roots have been
    rendered, and the store after the assignments of the pre-processing. *)
Definition markdown_lines_of (fuel : nat) (h : store) (elements : list ref)
    (ignore_header_footer : bool) : pyres (md_state * store) :=
  p ← preprocess ignore_header_footer h elements;
  let pcm := parent_child_map p.1 p.2 in
  st ← md_children (build_markdown fuel p.1 pcm) 0 (children pcm None) ([], []);
  POk (st, p.1).

(** [elements_to_markdown(elements, ignore_header_footer)]:
    [return "\n".join(markdown_lines)] (line 226), the store, and what was
    printed. *)
Definition elements_to_markdown (fuel : nat) (h : store) (elements : list ref)
    (ignore_header_footer : bool) : pyres (pystr * store * pystr) :=
  (fun p => (str_join [nl] p.1.1, p.2, p.1.2)) <$> markdown_lines_of fuel h elements ignore_header_footer.
End markdown.

(** * A concrete parser for the examples

    The theorems below hold for every [soup_rows].  The examples use
    [simple_soup], which reads flat tables the way BeautifulSoup does for
    them: [<tr>] opens a row, [<td>]/[<th>] a cell whose text is stripped
    when it closes, other tags are skipped, and an unterminated tag is an
    error. *)

(** The name of a tag after its [<], and the input after its [>]. *)
Fixpoint read_tag (s : pystr) (acc : pystr) : option (pystr * pystr) :=
  match s with
  | [] => None
  | c :: s' => if (c =? 62)%N then Some (rev acc, s') else read_tag s' (c :: acc)
  end.

Fixpoint soup_scan (fuel : nat) (s : pystr) (row : option (list pystr)) (cell : option pystr)
    (rows : list (list pystr)) : option (list (list pystr)) :=
  match fuel, s with
  | 0, _ | _, [] => Some rows
  | S f, c :: s' =>
      if (c =? 60)%N then
        match read_tag s' [] with
        | None => None
        | Some (tag, rest) =>
            if bool_decide (tag = s_ "tr") then soup_scan f rest (Some []) None rows
            else if bool_decide (tag = s_ "/tr") then soup_scan f rest None None (rows ++ [default [] row])
            else if bool_decide (tag = s_ "td") || bool_decide (tag = s_ "th") then
              soup_scan f rest row (Some []) rows
            else if bool_decide (tag = s_ "/td") || bool_decide (tag = s_ "/th") then
              soup_scan f rest ((fun r => r ++ [strip (default [] cell)]) <$> row) None rows
            else soup_scan f rest row cell rows
        end
      else soup_scan f s' row ((fun t => t ++ [c]) <$> cell) rows
  end.

Definition simple_soup (html : pystr) : list (list pystr) + pystr :=
  match soup_scan (length html) html None None [] with
  | Some rows => inl rows
  | None => inr (s_ "unterminated tag")
  end.

(** The table of the repository's spec. *)
Definition spec_table_html : pystr :=
  s_ "<table><tr><td>A</td><td>B</td></tr><tr><td>1</td><td>2</td></tr></table>".

(** * The separator row *)

Lemma table_row_pipes cells :
  cells <> [] -> Forall (fun w => pipe ∉ w) cells ->
  length (filter (fun x => x = pipe) (table_row cells)) = length cells + 1.
Proof.
  intros Hne Hall. unfold table_row. rewrite !filter_app, !length_app.
  rewrite (count_str_join pipe) by (done || by vm_compute).
  destruct cells; [congruence|]. vm_compute (length (filter _ (s_ "| "))).
  vm_compute (length (filter _ (s_ " |"))). simpl. lia.
Qed.

Lemma split_on_count c s : length (split_on c s) = S (length (filter (fun x => x = c) s)).
Proof.
  unfold split_on. rewrite length_split_by. do 2 f_equal.
  apply list_filter_iff. intros x. rewrite N.eqb_eq. split; congruence.
Qed.

(** The separator of line 189 has one [---] per piece of
    [rows[0].split('|')]: for a row of [n] cells without [|] that is
    [n + 2] pieces, two more than the table has columns. *)
Lemma separator_columns cells :
  cells <> [] -> Forall (fun w => pipe ∉ w) cells ->
  separator (table_row cells) = table_row (replicate (length cells + 2) (s_ "---")).
Proof.
  intros Hne Hall. unfold separator. rewrite split_on_count, table_row_pipes by done.
  do 2 f_equal. lia.
Qed.

(** * Blank lines *)

(** No two consecutive entries of [markdown_lines] are blank. *)
Definition no_double_blank (l : list pystr) : Prop :=
  forall i, l !! i = Some [] -> l !! S i <> Some [].

Lemma ndb_nil : no_double_blank [].
Proof. intros i H. by destruct i. Qed.

Lemma ndb_snoc l x :
  no_double_blank l -> (x <> [] \/ last l <> Some []) -> no_double_blank (l ++ [x]).
Proof.
  intros Hl Hx i Hi Hsi.
  destruct (decide (S i < length l)) as [Hlt|Hge].
  - rewrite lookup_app_l in Hi, Hsi by lia. exact (Hl i Hi Hsi).
  - apply lookup_lt_Some in Hsi as Hlen. rewrite length_app in Hlen. simpl in Hlen.
    assert (S i = length l) as Hsl by lia.
    rewrite lookup_app_r, Hsl, Nat.sub_diag in Hsi by lia. injection Hsi as ->.
    destruct Hx as [Hx|Hx]; [done|]. apply Hx.
    rewrite lookup_app_l in Hi by lia. rewrite last_lookup. by replace (pred (length l)) with i by lia.
Qed.

Lemma ndb_app_nonblank l xs :
  no_double_blank l -> Forall (fun x => x <> []) xs -> no_double_blank (l ++ xs).
Proof.
  revert l. induction xs as [|x xs IH] using rev_ind; intros l Hl Hxs; [by rewrite app_nil_r|].
  apply Forall_app in Hxs as [Hxs Hx]. apply Forall_cons_iff in Hx as [Hx _].
  rewrite app_assoc. apply ndb_snoc; [by apply IH|by left].
Qed.

Lemma ndb_sep_blank l : no_double_blank l -> no_double_blank (sep_blank l).
Proof.
  unfold sep_blank. destruct (last l) as [[|c w]|] eqn:E; intros Hl; [done| |done].
  apply ndb_snoc; [done|right; by rewrite E].
Qed.

Lemma html_rows_nonblank trs : Forall (fun x => x <> []) (html_rows trs).
Proof. apply Forall_forall. intros x [cells [-> _]]%list_elem_of_fmap. unfold table_row. by destruct cells. Qed.

Lemma html_table_lines_nonblank trs indent :
  Forall (fun x => x <> []) (html_table_lines (html_rows trs) indent).
Proof.
  pose proof (html_rows_nonblank trs) as Hr. unfold html_table_lines.
  destruct (html_rows trs) as [|r0 [|r1 rest]]; [done| |].
  - apply Forall_cons_iff in Hr as [Hr0 _]. constructor; [|done]. by destruct indent, r0.
  - apply Forall_cons_iff in Hr as [Hr0 _]. constructor; [|done].
    rewrite str_join_cons_cons. by destruct r0.
Qed.

Section blank_lines.
Variable soup_rows : pystr -> list (list pystr) + pystr.
Variables (h : store) (pcm : index).

(** Every Table has [text_as_html] that the parser reads. *)
Hypothesis Htables : forall r, is_table (deref h r) = true ->
  exists html trs, truthy (text_as_html (deref h r)) = Some html /\ soup_rows html = inl trs.

(** A property of the states that every step of the children loop keeps. *)
Lemma md_children_inv (P : md_state -> Prop) rec level todo st st' :
  (forall c lv s s', c ∈ todo -> rec c lv s = POk s' -> P s -> P s') ->
  md_children rec level todo st = POk st' -> P st -> P st'.
Proof.
  revert st. induction todo as [|c rest IH]; intros st Hrec H Hl; simpl in H.
  - by injection H as <-.
  - py_simp. apply (IH a); [|done|].
    + intros c' lv s s' Hc'. apply Hrec. by right.
    + apply (Hrec c level st); [left|done|done].
Qed.

Lemma build_markdown_ndb fuel r level st st' :
  build_markdown soup_rows fuel h pcm r level st = POk st' ->
  no_double_blank st.1 -> no_double_blank st'.1.
Proof.
  revert r level st st'. induction fuel as [|f IH]; intros r level [lines out] st' H Hl; simpl in H;
    [discriminate|].
  pose proof (ndb_sep_blank lines Hl) as Hs.
  destruct (is_table (deref h r)) eqn:Ht.
  - injection H as <-. destruct (Htables r Ht) as (html & trs & Hh & Hp).
    unfold handle_table. rewrite Hh, Hp. apply ndb_app_nonblank; [done|].
    apply html_table_lines_nonblank.
  - eapply (md_children_inv (fun s => no_double_blank s.1)); [|exact H|].
    + intros c lv l l' _ Hc. exact (IH c lv l l' Hc).
    + cbn [fst]. destruct (is_title (deref h r)).
      * match goal with |- no_double_blank (?l ++ [?x; ?y]) =>
          replace (l ++ [x; y]) with ((l ++ [x]) ++ [y]) by (by rewrite <- app_assoc) end.
        apply ndb_snoc; [apply ndb_snoc; [done|left]|right].
        -- by destruct (indent_of level).
        -- rewrite last_snoc. intros [= Hx]. by destruct (indent_of level).
      * apply ndb_snoc; [done|left]. by destruct (indent_of level).
Qed.
End blank_lines.

Lemma preprocess_only_parent b h elements h' emap r :
  elements_wf h elements -> preprocess b h elements = POk (h', emap) ->
  deref h' r = set_parent_id (deref h r) (parent_id (deref h' r)).
Proof.
  intros Hwf H. destruct b; simpl in H; py_simp; simplify_eq.
  - by apply (reparent_only_parent h elements).
  - by rewrite set_parent_id_same.
Qed.

Lemma markdown_ndb soup_rows fuel h elements b lines out h' :
  elements_wf h elements ->
  (forall r, is_table (deref h r) = true ->
     exists html trs, truthy (text_as_html (deref h r)) = Some html /\ soup_rows html = inl trs) ->
  markdown_lines_of soup_rows fuel h elements b = POk ((lines, out), h') -> no_double_blank lines.
Proof.
  intros Hwf Htab H. unfold markdown_lines_of in H. py_simp. destruct a as [h1 emap]. simplify_eq/=.
  change lines with (lines, out).1.
  eapply (md_children_inv (fun s => no_double_blank s.1)); [|exact Ha0|apply ndb_nil].
  intros c lv l l' _ Hc. eapply (build_markdown_ndb soup_rows h'); [|exact Hc].
  intros r Ht. rewrite (preprocess_only_parent _ _ _ _ _ r Hwf Ha) in Ht |- *. by apply Htab.
Qed.

(** * What the renderer prints *)

(** The text printed is a sequence of [表格解析失败: ...] lines, one for
    each message the parser raised on the HTML of a Table of the store. *)
Definition printed_table_errors (soup_rows : pystr -> list (list pystr) + pystr) (h : store) (out : pystr) : Prop :=
  exists ms, out = concat (map (fun m => print_line (table_error m)) ms) /\
    forall m, m ∈ ms -> exists r html, is_table (deref h r) = true /\
      truthy (text_as_html (deref h r)) = Some html /\ soup_rows html = inr m.

Lemma printed_table_errors_nil soup_rows h : printed_table_errors soup_rows h [].
Proof. exists []. split; [done|]. intros m Hm. by apply not_elem_of_nil in Hm. Qed.

Lemma printed_table_errors_snoc soup_rows h out r html m :
  printed_table_errors soup_rows h out -> is_table (deref h r) = true ->
  truthy (text_as_html (deref h r)) = Some html -> soup_rows html = inr m ->
  printed_table_errors soup_rows h (out ++ print_line (table_error m)).
Proof.
  intros (ms & -> & Hms) Ht Hh Hm. exists (ms ++ [m]). rewrite map_app, concat_app. simpl.
  rewrite app_nil_r. split; [done|]. intros m' [Hm'|Hm']%elem_of_app; [by apply Hms|].
  apply list_elem_of_singleton in Hm' as ->. eauto.
Qed.

Lemma build_markdown_printed soup_rows fuel h pcm r level st st' :
  build_markdown soup_rows fuel h pcm r level st = POk st' ->
  printed_table_errors soup_rows h st.2 -> printed_table_errors soup_rows h st'.2.
Proof.
  revert r level st st'. induction fuel as [|f IH]; intros r level [lines out] st' H Hp; simpl in H;
    [discriminate|].
  destruct (is_table (deref h r)) eqn:Ht.
  - injection H as <-. cbn [snd] in *. unfold handle_table.
    destruct (truthy (text_as_html (deref h r))) as [html|] eqn:Hh; [|by rewrite app_nil_r].
    destruct (soup_rows html) as [trs|m] eqn:Hm; [by rewrite app_nil_r|].
    by apply (printed_table_errors_snoc _ _ _ r html).
  - eapply (md_children_inv (fun s => printed_table_errors soup_rows h s.2)); [|exact H|exact Hp].
    intros c lv s s' _ Hc. exact (IH c lv s s' Hc).
Qed.

Lemma markdown_printed soup_rows fuel h elements b lines out h' :
  markdown_lines_of soup_rows fuel h elements b = POk ((lines, out), h') ->
  printed_table_errors soup_rows h' out.
Proof.
  intros H. unfold markdown_lines_of in H. py_simp. destruct a as [h1 emap]. simplify_eq/=.
  change out with (lines, out).2.
  eapply (md_children_inv (fun s => printed_table_errors soup_rows h' s.2)); [|exact Ha0|apply printed_table_errors_nil].
  intros c lv s s' _ Hc. exact (build_markdown_printed _ _ _ _ _ _ _ _ Hc).
Qed.

(** * The elements the renderer reaches *)

(** The entries [_build_markdown] appends for the element [r] at a
    level, besides the blank separator of lines 145-146. *)
Definition md_entries (soup_rows : pystr -> list (list pystr) + pystr) (h : store) (pcm : index)
    (r : ref) (level : nat) : list pystr :=
  let e := deref h r in
  if is_table e then (handle_table soup_rows h pcm e (indent_of level)).1
  else if is_title e then [indent_of level ++ s_ "## " ++ md_text e; []]
  else [indent_of level ++ s_ "- " ++ md_text e].

(** Every entry is blank or an entry of a rendered element. *)
Definition rendered_entries soup_rows h pcm (lines : list pystr) : Prop :=
  forall x, x ∈ lines -> x = [] \/ exists r level, rendered h pcm r /\ x ∈ md_entries soup_rows h pcm r level.

Lemma rendered_entries_app soup_rows h pcm l1 l2 :
  rendered_entries soup_rows h pcm l1 -> rendered_entries soup_rows h pcm l2 ->
  rendered_entries soup_rows h pcm (l1 ++ l2).
Proof. intros H1 H2 x [Hx|Hx]%elem_of_app; auto. Qed.

Lemma rendered_entries_sep_blank soup_rows h pcm l :
  rendered_entries soup_rows h pcm l -> rendered_entries soup_rows h pcm (sep_blank l).
Proof.
  unfold sep_blank. intros Hl. case_match; [case_match|]; try done.
  apply rendered_entries_app; [done|]. intros x ->%list_elem_of_singleton. by left.
Qed.

Lemma rendered_entries_of soup_rows h pcm r level :
  rendered h pcm r -> rendered_entries soup_rows h pcm (md_entries soup_rows h pcm r level).
Proof. intros Hr x Hx. right. eauto. Qed.

Lemma build_markdown_rendered soup_rows fuel h pcm r level st st' :
  rendered h pcm r -> build_markdown soup_rows fuel h pcm r level st = POk st' ->
  rendered_entries soup_rows h pcm st.1 -> rendered_entries soup_rows h pcm st'.1.
Proof.
  revert r level st st'. induction fuel as [|f IH]; intros r level [lines out] st' Hr H Hl; simpl in H;
    [discriminate|].
  pose proof (rendered_entries_of soup_rows h pcm r level Hr) as He. unfold md_entries in He.
  pose proof (rendered_entries_sep_blank _ _ _ _ Hl) as Hs.
  destruct (is_table (deref h r)) eqn:Ht.
  - injection H as <-. by apply rendered_entries_app.
  - eapply (md_children_inv (fun s => rendered_entries soup_rows h pcm s.1)); [|exact H|].
    + intros c lv s s' Hc Hb. apply (IH c lv s s'); [by apply (rendered_child h pcm r)|exact Hb].
    + cbn [fst]. by destruct (is_title (deref h r)); apply rendered_entries_app.
Qed.

Lemma markdown_rendered soup_rows fuel h elements b lines out h' :
  markdown_lines_of soup_rows fuel h elements b = POk ((lines, out), h') ->
  exists emap, preprocess b h elements = POk (h', emap) /\
    rendered_entries soup_rows h' (parent_child_map h' emap) lines.
Proof.
  intros H. unfold markdown_lines_of in H. py_simp. destruct a as [h1 emap]. simplify_eq/=.
  exists emap. split; [done|]. change lines with (lines, out).1.
  eapply (md_children_inv (fun s => rendered_entries soup_rows h' _ s.1)); [|exact Ha0|].
  - intros c lv s s' Hc Hb. apply (build_markdown_rendered soup_rows fuel h' _ c lv s s'); [by apply rendered_root|exact Hb].
  - intros x Hx. by apply not_elem_of_nil in Hx.
Qed.

(** * Table output *)

Lemma handle_table_fallback soup_rows h pcm e indent :
  truthy (text_as_html e) = None ->
  handle_table soup_rows h pcm e indent = (fallback_lines (fallback_rows h pcm e) indent, []).
Proof. unfold handle_table. by intros ->. Qed.

Lemma str_join_blank_around sep rows :
  rows <> [] -> str_join sep [[]; str_join sep rows; []] = str_join sep ([[]] ++ rows ++ [[]]).
Proof.
  intros Hne. rewrite (str_join_app sep [[]] (rows ++ [[]])) by (done || by destruct rows).
  rewrite (str_join_app sep rows [[]]) by done. reflexivity.
Qed.

Lemma indent_of_no_nl level : nl ∉ indent_of level.
Proof.
  unfold indent_of. intros H. apply list_elem_of_In, in_concat in H as (w & Hw & Hin).
  apply list_elem_of_In, elem_of_replicate in Hw as [-> _]. simpl in Hin. vm_compute in Hin. naive_solver.
Qed.

Lemma table_row_no_nl cells : Forall (fun w => nl ∉ w) cells -> nl ∉ table_row cells.
Proof.
  intros Hc. unfold table_row. rewrite !elem_of_app. intros [H|[H|H]].
  - vm_compute in H. set_solver.
  - revert H. apply str_join_not_elem; [vm_compute; set_solver|done].
  - vm_compute in H. set_solver.
Qed.

Lemma separator_no_nl r0 : nl ∉ separator r0.
Proof.
  apply table_row_no_nl, Forall_replicate. vm_compute. set_solver.
Qed.

Lemma indent_rows_no_nl level rs rl :
  Forall (fun w => nl ∉ w) (rs ++ [rl]) ->
  Forall (fun w => nl ∉ w) (map (fun r => r ++ indent_of level) rs ++ [rl]).
Proof.
  intros Hall. apply Forall_app in Hall as [Hrs Hrl]. apply Forall_app. split; [|done].
  apply Forall_fmap, (Forall_impl _ _ _ Hrs). intros w Hw. unfold compose.
  rewrite elem_of_app. pose proof (indent_of_no_nl level). naive_solver.
Qed.

(** The lines of a table text joined with [indent + "\n"]: every row but
    the last ends with the indent. *)
Lemma split_indent_join level rs rl :
  Forall (fun w => nl ∉ w) (rs ++ [rl]) ->
  split_on nl (str_join (indent_of level ++ [nl]) (rs ++ [rl])) = map (fun r => r ++ indent_of level) rs ++ [rl].
Proof.
  intros Hall. rewrite str_join_suffix_sep. apply split_on_join; [by destruct rs|].
  by apply indent_rows_no_nl.
Qed.

Lemma fallback_lines_rows rows indent :
  rows <> [] -> fallback_lines rows indent = [[]; str_join (indent ++ [nl]) rows; []].
Proof. by destruct rows. Qed.

Lemma html_table_lines_rows r0 rest indent :
  rest <> [] -> html_table_lines (r0 :: rest) indent = [str_join (indent ++ [nl]) (r0 :: separator r0 :: rest)].
Proof. by destruct rest. Qed.

Lemma sep_blank_nonblank lines l : last lines = Some l -> l <> [] -> sep_blank lines = lines ++ [[]].
Proof. unfold sep_blank. intros -> Hl. by destruct l. Qed.

(** The fallback table of a Table element: a blank, the rows joined with
    [indent + "\n"], a blank, and possibly the printed parse error. *)
Lemma handle_table_fallback_rows soup_rows h pcm e indent :
  (truthy (text_as_html e) = None \/
     exists html m, truthy (text_as_html e) = Some html /\ soup_rows html = inr m) ->
  fallback_rows h pcm e <> [] ->
  exists out, handle_table soup_rows h pcm e indent =
    ([[]; str_join (indent ++ [nl]) (fallback_rows h pcm e); []], out).
Proof.
  intros Hh Hne. unfold handle_table. rewrite fallback_lines_rows by done.
  destruct Hh as [->|(html & m & -> & ->)]; by eexists.
Qed.

(** * Exact output of one element *)

Lemma markdown_title_leaf_lemma soup_rows f h pcm r level lines out :
  is_table (deref h r) = false -> is_title (deref h r) = true ->
  children pcm (el_id (deref h r)) = [] ->
  build_markdown soup_rows (S f) h pcm r level (lines, out)
    = POk (sep_blank lines ++ [indent_of level ++ s_ "## " ++ md_text (deref h r); []], out).
Proof. intros Ht Htt Hc. simpl. by rewrite Ht, Htt, Hc. Qed.

(** * Termination *)

Lemma md_children_ok rec level todo lines :
  (forall c, c ∈ todo -> forall lv l, exists l', rec c lv l = POk l') ->
  exists l', md_children rec level todo lines = POk l'.
Proof.
  revert lines. induction todo as [|c rest IH]; intros lines H; simpl; [by eexists|].
  destruct (H c ltac:(set_solver) level lines) as [l' ->]. simpl.
  apply IH. intros c' Hc'. apply H. set_solver.
Qed.

Lemma build_markdown_ok soup_rows h emap B fuel anc r level lines :
  dict_wf emap -> (forall k r, (k, r) ∈ emap -> el_id (deref h r) = Some k) ->
  (forall r, r ∈ dict_values emap -> r ∈ B) ->
  chain h emap (anc ++ [r]) -> length B <= length anc + fuel ->
  exists l', build_markdown soup_rows fuel h (parent_child_map h emap) r level lines = POk l'.
Proof.
  intros Hwf Hkeys HB. revert anc r level lines.
  induction fuel as [|f IH]; intros anc r level lines Hc Hlen.
  - apply (chain_length h emap B Hwf Hkeys HB) in Hc. rewrite length_app in Hc. simpl in Hc. lia.
  - simpl. destruct (is_table (deref h r)); [by eexists|].
    apply md_children_ok. intros c Hcin lv l. apply (IH (anc ++ [r])); [by apply chain_snoc|].
    rewrite length_app. simpl. lia.
Qed.

Lemma markdown_total soup_rows fuel h elements b :
  elements_wf h elements ->
  (forall r, r ∈ elements -> is_title (deref h r) = true -> is_Some (el_id (deref h r))) ->
  length elements <= fuel ->
  exists s h' out, elements_to_markdown soup_rows fuel h elements b = POk (s, h', out).
Proof.
  intros Hwf Hid Hlen.
  assert (exists h' emap, preprocess b h elements = POk (h', emap) /\ dict_wf emap /\
            forall k r, (k, r) ∈ emap -> el_id (deref h' r) = Some k /\ r ∈ elements)
    as (h' & emap & Hp & Hdw & Hent).
  { destruct b; simpl.
    - destruct (reparent_no_raise h elements Hwf Hid) as [h' ->]. simpl.
      eexists _, _. split_and!; [done|apply dict_of_list_wf|apply element_map_no_hf_entry].
    - eexists _, _. split_and!; [done|apply dict_of_list_wf|apply element_map_entry]. }
  unfold elements_to_markdown, markdown_lines_of. rewrite Hp. simpl.
  destruct (md_children_ok (build_markdown soup_rows fuel h' (parent_child_map h' emap)) 0
              (children (parent_child_map h' emap) None) ([], [])) as [[l' out] ->].
  - intros c Hc lv l. apply (build_markdown_ok soup_rows h' emap elements fuel []); [done| | |by apply chain_root|done].
    + intros k r Hin. exact (proj1 (Hent k r Hin)).
    + intros r [k Hk]%dict_values_elem. exact (proj2 (Hent k r Hk)).
  - simpl. by eexists _, _, _.
Qed.

(** * Properties *)

(** A paragraph followed by a table without [text_as_html], rebuilt from
    its TableRow and TableCell children. *)
Definition fallback_scenario : store :=
  [mkElement (Some (s_ "p")) NarrativeText (s_ "intro") None None;
   mkElement (Some (s_ "t")) Table (s_ "A") None None;
   mkElement (Some (s_ "r")) TableRow (s_ "A") (Some (s_ "t")) None;
   mkElement (Some (s_ "c")) TableCell (s_ " A ") (Some (s_ "r")) None].

(** The table of the repository's spec, with its HTML markup. *)
Definition spec_table_scenario : store :=
  [mkElement (Some (s_ "t")) Table (s_ "A B 1 2") None (Some spec_table_html)].

Definition spec_scenario_md_lines : list pystr :=
  [s_ "## T1"; []; s_ "  - body"].

(** (C13) Blank lines: when every Table has [text_as_html] that the parser
    reads, [markdown_lines] never holds two consecutive blank entries (the
    separator of lines 145-146 is skipped after a blank, and every other
    entry the code appends is non-empty). *)
Theorem markdown_no_double_blank soup_rows fuel h elements b lines out h' :
  elements_wf h elements ->
  (forall r, is_table (deref h r) = true ->
     exists html trs, truthy (text_as_html (deref h r)) = Some html /\ soup_rows html = inl trs) ->
  markdown_lines_of soup_rows fuel h elements b = POk ((lines, out), h') -> no_double_blank lines.
Proof. apply markdown_ndb. Qed.

Lemma markdown_no_double_blank_witness : no_double_blank spec_scenario_md_lines.
Proof.
  apply (markdown_no_double_blank simple_soup 3 spec_scenario [0; 1; 2] true _ [] spec_scenario_after).
  - split; decide_prop.
  - intros r Ht. exfalso. destruct r as [|[|[|r]]]; vm_compute in Ht; discriminate.
  - vm_compute. reflexivity.
Defined.

(** (C22) The exception to the blank-line rule: a Table whose rows are
    rebuilt from its children (no [text_as_html], or HTML the parser
    rejects), rendered after a non-blank line at any level, appends two
    consecutive blanks, the separator of line 146 and the leading blank
    that line 216 inserts; the spec says the Markdown never has two. *)
Theorem markdown_fallback_double_blank soup_rows f h pcm r level lines l out :
  is_table (deref h r) = true ->
  (truthy (text_as_html (deref h r)) = None \/
     exists html m, truthy (text_as_html (deref h r)) = Some html /\ soup_rows html = inr m) ->
  fallback_rows h pcm (deref h r) <> [] ->
  last lines = Some l -> l <> [] ->
  exists out', build_markdown soup_rows (S f) h pcm r level (lines, out) =
    POk (lines ++ [[]; []; str_join (indent_of level ++ [nl]) (fallback_rows h pcm (deref h r)); []], out').
Proof.
  intros Ht Hh Hne Hl Hl'. cbn [build_markdown]. rewrite Ht.
  destruct (handle_table_fallback_rows soup_rows h pcm (deref h r) (indent_of level) Hh Hne) as [o ->].
  exists (out ++ o). cbn. by rewrite (sep_blank_nonblank _ l), <- app_assoc.
Qed.

Definition fallback_index : index :=
  parent_child_map fallback_scenario (element_map_no_hf fallback_scenario [0; 1; 2; 3]).

Lemma markdown_fallback_double_blank_witness :
  exists out', build_markdown simple_soup 1 fallback_scenario fallback_index 1 0 ([s_ "- intro"], []) =
    POk ([s_ "- intro"] ++ [[]; []; str_join (indent_of 0 ++ [nl])
           (fallback_rows fallback_scenario fallback_index (deref fallback_scenario 1)); []], out').
Proof.
  apply (markdown_fallback_double_blank simple_soup 0 fallback_scenario fallback_index 1 0 _ (s_ "- intro")).
  - reflexivity.
  - left. reflexivity.
  - vm_compute. discriminate.
  - reflexivity.
  - discriminate.
Defined.

(** (C21) The header separator of line 189 has one [---] per piece of
    [rows[0].split('|')]: two more than the table has columns, whenever
    the cells contain no [|]. *)
Theorem separator_two_extra_columns cells :
  cells <> [] -> Forall (fun w => pipe ∉ w) cells ->
  separator (table_row cells) = table_row (replicate (length cells + 2) (s_ "---")).
Proof. apply separator_columns. Qed.

Lemma separator_two_extra_columns_witness :
  separator (table_row [s_ "A"; s_ "B"]) = table_row (replicate 4 (s_ "---")).
Proof. apply (separator_two_extra_columns [s_ "A"; s_ "B"]); [discriminate|decide_prop]. Defined.

(** (C23) The HTML path of lines 186-194: a Table whose HTML gives two
    rows or more is one entry of [markdown_lines], after the block
    separator and with no blank after it (the spec asks for blanks around
    tables), nothing is printed, and its lines are the first row, the
    separator and the middle rows, each followed by the indent (the join
    is on [indent + "\n"]), then the last row, with no indent before any
    of them. *)
Theorem html_table_markdown soup_rows f h pcm r level lines out html trs r0 mid rl :
  is_table (deref h r) = true -> truthy (text_as_html (deref h r)) = Some html ->
  soup_rows html = inl trs -> html_rows trs = r0 :: mid ++ [rl] ->
  Forall (fun w => nl ∉ w) (html_rows trs) ->
  exists t, build_markdown soup_rows (S f) h pcm r level (lines, out) = POk (sep_blank lines ++ [t], out) /\
    split_on nl t = map (fun x => x ++ indent_of level) (r0 :: separator r0 :: mid) ++ [rl].
Proof.
  intros Ht Hh Hs Hrows Hnl. cbn [build_markdown]. rewrite Ht. unfold handle_table.
  rewrite Hh, Hs, Hrows, html_table_lines_rows by (by destruct mid). cbn [fst snd].
  eexists. rewrite app_nil_r. split; [reflexivity|].
  change (r0 :: separator r0 :: mid ++ [rl]) with ((r0 :: separator r0 :: mid) ++ [rl]).
  rewrite Hrows in Hnl. apply Forall_cons_iff in Hnl as [H0 Hrest].
  apply split_indent_join. constructor; [done|]. constructor; [apply separator_no_nl|done].
Qed.

Lemma html_table_markdown_witness :
  exists t, build_markdown simple_soup 1 spec_table_scenario [] 0 1 ([s_ "- x"], []) =
      POk (sep_blank [s_ "- x"] ++ [t], []) /\
    split_on nl t = map (fun x => x ++ indent_of 1)
      [s_ "| A | B |"; separator (s_ "| A | B |")] ++ [s_ "| 1 | 2 |"].
Proof.
  apply (html_table_markdown simple_soup 0 spec_table_scenario [] 0 1 _ _ spec_table_html
           [[s_ "A"; s_ "B"]; [s_ "1"; s_ "2"]] (s_ "| A | B |") [] (s_ "| 1 | 2 |")).
  all: first [reflexivity | vm_compute; reflexivity | decide_prop].
Defined.

(** (C24) Fallback path of lines 198-219: without [text_as_html], at any
    level, the table text is a blank line, one line per rebuilt row, and a
    blank line: there is no header separator (the one of line 211 is
    computed and dropped), and every row but the last ends with the
    indent. *)
Theorem fallback_table_no_separator soup_rows h pcm e level rs rl :
  truthy (text_as_html e) = None -> fallback_rows h pcm e = rs ++ [rl] ->
  Forall (fun w => nl ∉ w) (rs ++ [rl]) ->
  split_on nl (str_join [nl] (handle_table soup_rows h pcm e (indent_of level)).1)
    = [] :: map (fun r => r ++ indent_of level) rs ++ [rl; []].
Proof.
  intros Hh Hrows Hnl. rewrite handle_table_fallback, Hrows by done. cbn [fst].
  rewrite fallback_lines_rows, str_join_suffix_sep, str_join_blank_around by (by destruct rs).
  rewrite split_on_join; [by rewrite <- app_assoc|done|].
  constructor; [apply not_elem_of_nil|]. apply Forall_app. split; [by apply indent_rows_no_nl|].
  repeat constructor. apply not_elem_of_nil.
Qed.

Lemma fallback_table_no_separator_witness :
  split_on nl (str_join [nl] (handle_table simple_soup fallback_scenario fallback_index
                                (deref fallback_scenario 1) (indent_of 2)).1)
    = [] :: map (fun r => r ++ indent_of 2) [] ++ [s_ "| A |"; []].
Proof.
  apply (fallback_table_no_separator simple_soup fallback_scenario fallback_index _ 2 [] (s_ "| A |")).
  - reflexivity.
  - vm_compute. reflexivity.
  - decide_prop.
Defined.


(** (C14) Termination: [elements_to_markdown] returns on every list of
    distinct elements whose Titles have ids, for any parser, as soon as the
    stack allows as many nested [_build_markdown] calls as there are
    elements. *)
Theorem markdown_terminates soup_rows fuel h elements b :
  elements_wf h elements ->
  (forall r, r ∈ elements -> is_title (deref h r) = true -> is_Some (el_id (deref h r))) ->
  length elements <= fuel ->
  exists s h' out, elements_to_markdown soup_rows fuel h elements b = POk (s, h', out).
Proof. apply markdown_total. Qed.

Lemma markdown_terminates_witness :
  exists s h' out, elements_to_markdown simple_soup 3 spec_scenario [0; 1; 2] true = POk (s, h', out).
Proof.
  apply markdown_terminates.
  - split; decide_prop.
  - intros r Hr _. repeat (apply elem_of_cons in Hr as [->|Hr]; [vm_compute; eexists; reflexivity|]).
    exfalso. by apply not_elem_of_nil in Hr.
  - simpl. lia.
Defined.

(** A Table whose HTML stops inside a tag: the parser raises. *)
Definition broken_table_scenario : store :=
  [mkElement (Some (s_ "t")) Table (s_ "A") None (Some (s_ "<tr"))].

(** (C25) Output of the [except] of lines 195-196: everything
    [elements_to_markdown] prints is a sequence of lines
    ["表格解析失败: " + str(e)], one for each exception the HTML parser
    raised on the [text_as_html] of a Table, and nothing is printed when
    every Table's HTML parses. *)
Theorem markdown_prints_table_errors soup_rows fuel h elements b lines out h' :
  markdown_lines_of soup_rows fuel h elements b = POk ((lines, out), h') ->
  exists ms, out = concat (map (fun m => print_line (table_error m)) ms) /\
    forall m, m ∈ ms -> exists r html, is_table (deref h' r) = true /\
      truthy (text_as_html (deref h' r)) = Some html /\ soup_rows html = inr m.
Proof. apply markdown_printed. Qed.

Lemma markdown_prints_table_errors_witness :
  exists ms, print_line (table_error (s_ "unterminated tag")) =
      concat (map (fun m => print_line (table_error m)) ms) /\
    forall m, m ∈ ms -> exists r html, is_table (deref broken_table_scenario r) = true /\
      truthy (text_as_html (deref broken_table_scenario r)) = Some html /\ simple_soup html = inr m.
Proof.
  apply (markdown_prints_table_errors simple_soup 1 broken_table_scenario [0] true []).
  vm_compute. reflexivity.
Defined.

(** Two paragraphs whose [parent_id]s point at each other. *)
Definition cycle_scenario : store :=
  [mkElement (Some (s_ "a")) NarrativeText (s_ "first") (Some (s_ "b")) None;
   mkElement (Some (s_ "b")) NarrativeText (s_ "second") (Some (s_ "a")) None].

(** (C26) Elements on a cycle of [parent_id]s are silently dropped, for
    any input: a set [S] of elements of the rebuilt map (no Header, no
    Footer, each with an id) whose [parent_id]s are all ids of elements of
    [S] contributes nothing to either rendering.  Every line of the tree
    text is the node line of an element outside [S], and every entry of
    [markdown_lines] is blank or an entry of an element outside [S]: the
    index has no path from the roots to them, and no error is raised.  The
    spec's data model says the forest is acyclic by construction; the code
    does not break cycles of the input. *)
Theorem cycle_dropped soup_rows fuel h elements h' emap S :
  preprocess true h elements = POk (h', emap) ->
  S ⊆ dict_values emap ->
  (forall s, s ∈ S -> exists s', s' ∈ S /\ parent_id (deref h' s) = el_id (deref h' s')) ->
  (forall text h'', elements_to_visual_tree fuel h elements true = POk (text, h'') ->
     exists ls, text = str_join [nl] ls /\
       forall l, l ∈ ls -> exists r q, l = q ++ node_line (deref h' r) /\ r ∉ S) /\
  (forall lines out h'', markdown_lines_of soup_rows fuel h elements true = POk ((lines, out), h'') ->
     forall x, x ∈ lines -> x = [] \/
       exists r level, x ∈ md_entries soup_rows h' (parent_child_map h' emap) r level /\ r ∉ S).
Proof.
  intros Hp HS Hcl. destruct (preprocess_map_wf _ _ _ _ _ Hp) as [Hwf Hent].
  assert (forall k r, (k, r) ∈ emap -> el_id (deref h' r) = Some k) as Hkeys
    by (intros k r Hk; exact (proj1 (Hent k r Hk))).
  split.
  - intros text h'' H. destruct (visual_tree_rendered _ _ _ _ _ _ H) as (emap' & ls & Hp' & -> & Hl).
    rewrite Hp in Hp'. injection Hp' as <- <-.
    exists ls. split; [done|]. intros l Hin. destruct (Hl l Hin) as (r & q & -> & Hr).
    exists r, q. split; [done|]. by apply (closed_not_rendered h' emap S r).
  - intros lines out h'' H x Hx. destruct (markdown_rendered _ _ _ _ _ _ _ _ H) as (emap' & Hp' & Hl).
    rewrite Hp in Hp'. injection Hp' as <- <-.
    destruct (Hl x Hx) as [->|(r & level & Hr & He)]; [by left|right].
    exists r, level. split; [done|]. by apply (closed_not_rendered h' emap S r).
Qed.

Lemma cycle_dropped_witness :
  (forall text h'', elements_to_visual_tree 2 cycle_scenario [0; 1] true = POk (text, h'') ->
     exists ls, text = str_join [nl] ls /\
       forall l, l ∈ ls -> exists r q, l = q ++ node_line (deref cycle_scenario r) /\ r ∉ [0; 1]) /\
  (forall lines out h'', markdown_lines_of simple_soup 2 cycle_scenario [0; 1] true = POk ((lines, out), h'') ->
     forall x, x ∈ lines -> x = [] \/
       exists r level, x ∈ md_entries simple_soup cycle_scenario
         (parent_child_map cycle_scenario (element_map_no_hf cycle_scenario [0; 1])) r level /\ r ∉ [0; 1]).
Proof.
  apply (cycle_dropped simple_soup 2 cycle_scenario [0; 1] cycle_scenario
           (element_map_no_hf cycle_scenario [0; 1]) [0; 1]).
  - vm_compute. reflexivity.
  - intros x Hx. assert (dict_values (element_map_no_hf cycle_scenario [0; 1]) = [0; 1]) as ->
      by (vm_compute; reflexivity). exact Hx.
  - intros s Hs. apply elem_of_cons in Hs as [->|Hs].
    + exists 1. split; [set_solver|reflexivity].
    + apply list_elem_of_singleton in Hs as ->. exists 0. split; [set_solver|reflexivity].
Defined.
