(* ===== verification/Batching.v ===== *)
(** * The batching loop of [create_db.py]

    Lines 60-113 of [src/HW-03/create_db.py] embed the financial terms of a
    CSV column in batches of [batch_size = 1000] and insert each batch into
    a Milvus collection.  This file models:

    - [py_range], Python's [range(start, stop, step)] for a positive step,
      defined by well-founded recursion with Equations (the recursion is on
      [stop - start], not structural), and [py_slice], the slice
      [terms[i:j]];
    - [batches]: the slices [terms[i:i + batch_size]] of the loop, one per
      [i in range(0, total_terms, batch_size)];
    - in [CreateDb.v], the external services (the embedding function and the
      Milvus client) behind an interface, and the loop body itself.

    The partition lemmas here say what the loop iterates over: the batches
    are non-empty, hold at most [batch_size] terms, concatenate back to the
    whole column, and there are exactly [total_batches] of them, the
    ceiling division of line 65. *)

From S2P Require Import Prelude PyStr.
From Equations Require Import Equations.
From Stdlib Require Import Lia.

(** [range(start, stop, step)] for [step = S k > 0]: [start, start + step,
    ...] while below [stop]. *)
Equations py_range (start stop k : nat) : list nat by wf (stop - start) lt :=
  py_range start stop k with lt_dec start stop => {
    | left _ => start :: py_range (start + S k) stop k ;
    | right _ => [] }.
Next Obligation. lia. Qed.

(** [l[i:j]] for non-negative [i] and [j]. *)
Definition py_slice {A} (i j : nat) (l : list A) : list A := take (j - i) (drop i l).

(** Line 64: [batch_size = 1000]. *)
Definition batch_size : nat := 1000.

(** Line 65: [total_batches = (total_terms + batch_size - 1) // batch_size]. *)
Definition total_batches_of (total_terms bs : nat) : nat := (total_terms + bs - 1) / bs.

(** Lines 74-75: the batch of every iteration, for a batch size [S k]. *)
Definition batches {A} (k : nat) (terms : list A) : list (list A) :=
  map (fun i => py_slice i (i + S k) terms) (py_range 0 (length terms) k).

(** * Lemmas on [range] *)

Lemma py_range_eq start stop k :
  py_range start stop k = if decide (start < stop) then start :: py_range (start + S k) stop k else [].
Proof.
  rewrite py_range_equation_1. destruct (lt_dec start stop), (decide (start < stop)); done.
Qed.

Lemma py_range_nil start stop k : stop <= start -> py_range start stop k = [].
Proof. intros H. rewrite py_range_eq. case_decide; [lia|done]. Qed.

Lemma py_range_cons start stop k :
  start < stop -> py_range start stop k = start :: py_range (start + S k) stop k.
Proof. intros H. rewrite py_range_eq. by case_decide. Qed.

(** Induction along a range: on the distance to [stop]. *)
Lemma py_range_ind (P : nat -> Prop) stop k :
  (forall start, stop <= start -> P start) ->
  (forall start, start < stop -> P (start + S k) -> P start) ->
  forall start, P start.
Proof.
  intros Hb Hs start. remember (stop - start) as d eqn:Hd. revert start Hd.
  induction d as [d IH] using lt_wf_ind. intros start ->.
  destruct (decide (start < stop)) as [Hlt|Hge]; [|apply Hb; lia].
  apply Hs; [done|]. apply (IH (stop - (start + S k))); [lia|done].
Qed.

(** The number of iterations of [range(start, stop, S k)]. *)
Lemma length_py_range start stop k :
  length (py_range start stop k) = (stop - start + k) / S k.
Proof.
  revert start. apply (py_range_ind _ stop k).
  - intros start H. rewrite py_range_nil by done.
    replace (stop - start) with 0 by lia. rewrite Nat.div_small by lia. done.
  - intros start H IH. rewrite py_range_cons by done. cbn [length]. rewrite IH.
    destruct (decide (stop - start <= S k)).
    + replace (stop - (start + S k) + k) with k by lia. rewrite Nat.div_small by lia.
      apply (Nat.div_unique _ _ _ (stop - start + k - S k)); lia.
    + replace (stop - start + k) with (1 * S k + (stop - (start + S k) + k)) by lia.
      rewrite Nat.div_add_l by lia. lia.
Qed.

Lemma py_range_elem start stop k i :
  i ∈ py_range start stop k -> start <= i < stop /\ exists m, i = start + m * S k.
Proof.
  revert start. apply (py_range_ind (fun start => i ∈ py_range start stop k -> _) stop k).
  - intros start H. rewrite py_range_nil by done. intros Hi. by apply not_elem_of_nil in Hi.
  - intros start H IH. rewrite py_range_cons by done. intros [->|Hi]%elem_of_cons.
    + split; [lia|]. by exists 0.
    + destruct (IH Hi) as [Hb [m ->]]. split; [lia|]. exists (S m). lia.
Qed.

(** * Lemmas on the batches *)

Lemma py_slice_drop {A} i n (l : list A) : py_slice i (i + n) l = take n (drop i l).
Proof. unfold py_slice. f_equal. lia. Qed.

(** The slices from [start] on concatenate to the rest of the list. *)
Lemma concat_slices {A} k (l : list A) start :
  concat (map (fun i => py_slice i (i + S k) l) (py_range start (length l) k)) = drop start l.
Proof.
  revert start.
  apply (py_range_ind (fun start =>
    concat (map (fun i => py_slice i (i + S k) l) (py_range start (length l) k)) = drop start l) (length l) k).
  - intros start H. rewrite py_range_nil by done. simpl. symmetry. apply drop_ge. lia.
  - intros start H IH. rewrite py_range_cons by done. cbn [map concat]. rewrite IH, py_slice_drop.
    rewrite <- drop_drop. apply take_drop.
Qed.

Lemma length_py_slice {A} i n (l : list A) :
  length (py_slice i (i + n) l) = Nat.min n (length l - i).
Proof. rewrite py_slice_drop, length_take, length_drop. lia. Qed.

Section batches.
Context {A : Type} (k : nat) (terms : list A).

(** The batches concatenate back to the column: every term is in exactly
    one batch, in order. *)
Lemma concat_batches : concat (batches k terms) = terms.
Proof. unfold batches. rewrite concat_slices. apply drop_0. Qed.

(** There are [total_batches] of them. *)
Lemma length_batches : length (batches k terms) = total_batches_of (length terms) (S k).
Proof.
  unfold batches, total_batches_of. rewrite length_map, length_py_range. f_equal. lia.
Qed.

(** Every batch is non-empty and holds at most [S k] terms. *)
Lemma batches_bounded b : b ∈ batches k terms -> 0 < length b <= S k.
Proof.
  unfold batches. intros (i & -> & Hi)%list_elem_of_fmap.
  apply py_range_elem in Hi as [Hi _]. rewrite length_py_slice. lia.
Qed.

(** The batch of the iteration [i] starts at term [i]. *)
Lemma batches_lookup j :
  j < length (batches k terms) ->
  batches k terms !! j = Some (take (S k) (drop (j * S k) terms)).
Proof.
  intros Hj. unfold batches in *. rewrite length_map in Hj.
  rewrite list_lookup_fmap. revert j Hj.
  assert (forall start j, j < length (py_range start (length terms) k) ->
            py_range start (length terms) k !! j = Some (start + j * S k)) as Hgen.
  { intros start. pattern start.
    apply (py_range_ind _ (length terms) k).
    - intros s Hs j. rewrite py_range_nil by done. simpl. lia.
    - intros s Hs IH [|j] Hj; rewrite py_range_cons in * by done; simpl in *; [f_equal; lia|].
      rewrite IH by lia. f_equal. lia. }
  intros j Hj. rewrite (Hgen 0 j Hj). simpl. f_equal. apply py_slice_drop.
Qed.
End batches.

(** [l[n]]: [IndexError] out of range. *)
Definition py_index {A} (l : list A) (n : nat) : pyres A :=
  match l !! n with
  | Some x => POk x
  | None => PRaise IndexError
  end.

Lemma py_index_head {A} (x : A) l : py_index (x :: l) 0 = POk x.
Proof. reflexivity. Qed.

Lemma py_index_nil {A} n : py_index (@nil A) n = PRaise IndexError.
Proof. reflexivity. Qed.

(** * The iterations of [range(0, n, S k)] *)

(** The [j]-th iteration starts at [j * S k]. *)
Lemma py_range_seq_from k n m :
  py_range (m * S k) n k = map (fun j => j * S k) (seq m (length (py_range (m * S k) n k))).
Proof.
  assert (forall start m, start = m * S k ->
            py_range start n k = map (fun j => j * S k) (seq m (length (py_range start n k)))) as H.
  { intros start. pattern start. apply (py_range_ind _ n k).
    - intros s Hs m' _. by rewrite py_range_nil.
    - intros s Hs IH m' ->. rewrite py_range_cons by done. cbn [length seq map]. f_equal.
      apply (IH (S m')). lia. }
  by apply H.
Qed.

Lemma py_range_seq k n : py_range 0 n k = map (fun j => j * S k) (seq 0 (length (py_range 0 n k))).
Proof. apply (py_range_seq_from k n 0). Qed.

(** [i // step + 1] over the iterations: the batch numbers [1, 2, ...]. *)
Lemma py_range_batch_numbers k n :
  map (fun i => i / S k + 1) (py_range 0 n k) = seq 1 (length (py_range 0 n k)).
Proof.
  rewrite py_range_seq at 1. rewrite map_map, <- seq_shift.
  apply map_ext. intros j. rewrite Nat.div_mul by lia. lia.
Qed.

(** [i + len(terms[i:i + step])] over the iterations: [min(j * step, n)]
    for the batch numbers [j]. *)
Lemma py_range_progress {A} k (terms : list A) :
  map (fun i => i + length (py_slice i (i + S k) terms)) (py_range 0 (length terms) k) =
  map (fun j => Nat.min (j * S k) (length terms)) (seq 1 (length (py_range 0 (length terms) k))).
Proof.
  rewrite <- seq_shift, map_map.
  rewrite py_range_seq at 1. rewrite map_map.
  apply map_ext_in. intros j Hj. rewrite length_py_slice.
  assert (j * S k ∈ py_range 0 (length terms) k) as Hin.
  { rewrite py_range_seq. apply list_elem_of_fmap. exists j. split; [done|].
    apply list_elem_of_In. exact Hj. }
  apply py_range_elem in Hin as [Hlt _]. lia.
Qed.

Lemma length_py_range_batches k n : length (py_range 0 n k) = total_batches_of n (S k).
Proof. rewrite length_py_range. unfold total_batches_of. f_equal. lia. Qed.

(** The batches cover the column: [total_batches * batch_size >= total_terms]. *)
Lemma total_batches_cover n bs : 0 < bs -> n <= total_batches_of n bs * bs.
Proof.
  intros Hbs. unfold total_batches_of.
  pose proof (Nat.div_mod_eq (n + bs - 1) bs). pose proof (Nat.mod_upper_bound (n + bs - 1) bs).
  lia.
Qed.

Lemma total_batches_pos n bs : 0 < n -> 0 < bs -> 0 < total_batches_of n bs.
Proof.
  intros Hn Hbs. unfold total_batches_of. apply Nat.div_str_pos. lia.
Qed.

Lemma last_map_seq {B} (f : nat -> B) m : 0 < m -> last (map f (seq 1 m)) = Some (f m).
Proof.
  intros Hm. destruct m as [|m]; [lia|]. rewrite seq_S, map_app, last_app. simpl. by replace (1 + m) with (S m) by lia.
Qed.

(** * Properties *)

(** (C27) The loop of lines 74-75 partitions the column: the slices
    [terms[i:i + step]] for [i in range(0, len(terms), step)] concatenate
    back to [terms], there are [total_batches = ceil(len(terms) / step)] of
    them, and each holds between 1 and [step] terms. *)
Theorem batches_partition {A} k (terms : list A) :
  concat (batches k terms) = terms /\
  length (batches k terms) = total_batches_of (length terms) (S k) /\
  (forall b, b ∈ batches k terms -> 0 < length b <= S k).
Proof. split; [apply concat_batches|split; [apply length_batches|apply batches_bounded]]. Qed.
