(* ===== verification/CreateDb.v ===== *)
(** * [create_db.py]: building the vector collection

    Lines 45-121 of [src/HW-03/create_db.py].  When the collection does not
    exist the script creates it (an exception is logged and re-raised),
    indexes it, and runs the batching loop: for every
    [i in range(0, total_terms, batch_size)] it embeds the slice
    [terms[i:i + batch_size]], pairs vectors and terms with [zip], adds the
    token estimate, logs progress, logs [insert_data[0]] (outside the [try])
    and inserts the batch, an insert error being logged and swallowed.
    Finally the collection is loaded.  The progress of line 93 divides by
    [total_terms]; the loop runs only when there are terms, so the
    [ZeroDivisionError] the model keeps for it never happens
    ([range_terms_nonzero]).

    The services are not part of the repository.  [MilvusClient] is the
    interface the script uses of [pymilvus.MilvusClient], every call naming
    its collection as the code does (a failing call is [None]; outside a
    [try] it propagates as [ServiceError]), with an abstract view
    [contents d n] of the rows of collection [n], and
    [MilvusLaws] what the script relies on: an insert appends its rows, a
    created collection is empty, and indexing and loading leave its rows
    alone.  The
    collection's [CollectionSchema] is the record [schema] (vector
    dimension and [term_name] length).  The embedding function is a section
    variable.  The index of lines 55-56 is the record [vector_index].  Line
    112 loads the collection by a literal, [loaded_collection], that equals
    [collection_name]; the refinement theorem uses that equality.
    [mem_client] is an in-memory client that satisfies the laws,
    [down_client] one whose inserts all fail.

    Python's side effects survive an exception: rows inserted and lines
    logged before [insert_data[0]] raises stay.  The monad [stm] is
    therefore a state monad whose exceptions keep the state reached.  The
    log records the values each [logging.info] call formats, not the
    rendered strings (the progress percentage is logged as its numerator
    and denominator). *)

From S2P Require Import Prelude PyStr PyDict Batching.
From stdpp Require Import strings.

(** ** State with exceptions that keep the state *)

Definition stm (S A : Type) : Type := S -> pyres A * S.

#[export] Instance stm_ret {S} : MRet (stm S) := fun A a s => (POk a, s).
#[export] Instance stm_bind {S} : MBind (stm S) := fun A B f m s =>
  match m s with
  | (POk a, s') => f a s'
  | (PRaise e, s') => (PRaise e, s')
  end.

Definition stm_raise {S A} (e : exn) : stm S A := fun s => (PRaise e, s).
Definition stm_lift {S A} (r : pyres A) : stm S A := fun s => (r, s).
Definition stm_get {S} : stm S S := fun s => (POk s, s).
Definition stm_modify {S} (f : S -> S) : stm S unit := fun s => (POk tt, f s).

(** ** The rows and the services *)

(** [{"vector": vector, "term_name": term}] *)
Record record (vec : Type) := mkRecord { vector : vec; term_name : pystr }.
Arguments mkRecord {vec} _ _.
Arguments vector {vec} _.
Arguments term_name {vec} _.

(** Lines 39-44: the fields that matter of the [CollectionSchema]: the
    dimension of the [vector] field and the [max_length] of [term_name]
    (the primary key is [auto_id]). *)
Record schema := mkSchema { sch_dim : nat; sch_term_max : nat }.

(** Lines 55-56: the index of [prepare_index_params()] and
    [add_index(field_name, index_type, metric_type, params={"nlist": ...})]. *)
Record index_params := mkIndexParams { idx_field : pystr; idx_type : pystr; idx_metric : pystr; idx_nlist : nat }.

Definition vector_index : index_params :=
  mkIndexParams (s_ "vector") (s_ "AUTOINDEX") (s_ "COSINE") 1024.

(** Line 45: [collection_name = "financial_concepts"]. *)
Definition collection_name : pystr := s_ "financial_concepts".

(** Line 112: [client.load_collection("financial_concepts")] names the
    collection by a literal of its own. *)
Definition loaded_collection : pystr := s_ "financial_concepts".

(** The calls the script makes on [pymilvus.MilvusClient], each on a named
    collection; [contents d n] is the rows of the collection [n]. *)
Class MilvusClient (db vec : Type) := {
  has_collection : db -> pystr -> bool;
  create_collection : db -> pystr -> schema -> option db;
  create_index : db -> pystr -> index_params -> option db;
  insert : db -> pystr -> list (record vec) -> option db;
  load_collection : db -> pystr -> option db;
  contents : db -> pystr -> list (record vec);
}.

Class MilvusLaws (db vec : Type) `{!MilvusClient db vec} := {
  insert_contents d n rs d' : insert d n rs = Some d' -> contents d' n = contents d n ++ rs;
  create_index_contents d n p d' : create_index d n p = Some d' -> contents d' n = contents d n;
  load_collection_contents d n d' : load_collection d n = Some d' -> contents d' n = contents d n;
  create_collection_contents d n sch d' : create_collection d n sch = Some d' -> contents d' n = [];
}.

(** What the script logs, call by call. *)
Inductive log_event (vec : Type) :=
| LCreated | LCreateError | LPreparing (total : nat) | LBatchSize (n : nat)
| LTotalBatches (n : nat) | LRule
| LProgress (done total : nat) | LCurrentBatch (current total : nat)
| LBatchRows (n : nat) | LBatchTokens (n : nat) | LTotalTokens (n : nat)
| LSample (r : record vec) | LInserted (batch : nat) | LInsertError (batch : nat)
| LInsertDone | LTokensUsed (n : nat) | LLoaded | LBuilt | LExists
| LLoading | LHead (rows : list (pystr * pystr)).
Arguments LCreated {vec}. Arguments LCreateError {vec}. Arguments LPreparing {vec} _.
Arguments LBatchSize {vec} _. Arguments LTotalBatches {vec} _. Arguments LRule {vec}.
Arguments LProgress {vec} _ _. Arguments LCurrentBatch {vec} _ _. Arguments LBatchRows {vec} _.
Arguments LBatchTokens {vec} _. Arguments LTotalTokens {vec} _. Arguments LSample {vec} _.
Arguments LInserted {vec} _. Arguments LInsertError {vec} _. Arguments LInsertDone {vec}.
Arguments LTokensUsed {vec} _. Arguments LLoaded {vec}. Arguments LBuilt {vec}. Arguments LExists {vec}.
Arguments LLoading {vec}. Arguments LHead {vec} _.

(** The client, the local [total_tokens] and the log. *)
Record state (db vec : Type) := mkState { st_db : db; st_tokens : nat; st_log : list (log_event vec) }.
Arguments mkState {db vec} _ _ _.
Arguments st_db {db vec} _.
Arguments st_tokens {db vec} _.
Arguments st_log {db vec} _.

(** [df.fillna("NA")] then [df['term_name'].tolist()] (lines 29 and 62). *)
Definition terms_of (column : list (option pystr)) : list pystr := map (default (s_ "NA")) column.

(** Line 90: [len(term.split()) * 2] summed over the batch. *)
Definition batch_tokens (batch_terms : list pystr) : nat :=
  sum_list_with (fun t => length (split_ws t) * 2) batch_terms.

Section create_db.
Context {db vec : Type} `{!MilvusClient db vec}.
Variable embedding_function : list pystr -> list vec.

Abbreviation M := (stm (state db vec)).

Definition log (e : log_event vec) : M unit :=
  stm_modify (fun s => mkState (st_db s) (st_tokens s) (st_log s ++ [e])).
Definition set_db (d : db) : M unit :=
  stm_modify (fun s => mkState d (st_tokens s) (st_log s)).
(** A client call outside any [try]: its exception propagates. *)
Definition call (o : option db) : M unit :=
  match o with Some d => set_db d | None => stm_raise ServiceError end.
Definition set_tokens (n : nat) : M unit :=
  stm_modify (fun s => mkState (st_db s) n (st_log s)).

(** Lines 81-87: [[{"vector": v, "term_name": t} for v, t in zip(vectors, batch_terms)]]. *)
Definition insert_data_of (batch_terms : list pystr) : list (record vec) :=
  zip_with mkRecord (embedding_function batch_terms) batch_terms.

(** Lines 75-110: one iteration of the loop.  The progress of line 93 is
    [(i + len(batch_terms)) / total_terms * 100]: a [ZeroDivisionError]
    when [total_terms] is 0; the log keeps its numerator and denominator. *)
Definition batch_body (terms : list pystr) (total_terms total_batches i : nat) : M unit :=
  let batch_terms := py_slice i (i + batch_size) terms in
  let current_batch := i / batch_size + 1 in
  let insert_data := insert_data_of batch_terms in
  let btok := batch_tokens batch_terms in
  s ← stm_get;
  let total_tokens := st_tokens s + btok in
  set_tokens total_tokens;;
  (if bool_decide (total_terms = 0) then stm_raise ZeroDivisionError else mret tt);;
  log (LProgress (i + length batch_terms) total_terms);;
  log (LCurrentBatch current_batch total_batches);;
  log (LBatchRows (length insert_data));;
  log (LBatchTokens btok);;
  log (LTotalTokens total_tokens);;
  sample ← stm_lift (py_index insert_data 0);
  log (LSample sample);;
  log LRule;;
  s ← stm_get;
  match insert (st_db s) collection_name insert_data with
  | Some d' => set_db d';; log (LInserted (i / batch_size + 1))
  | None => log (LInsertError (i / batch_size + 1))
  end.

(** Line 74: [for i in range(0, total_terms, batch_size)]. *)
Fixpoint batch_loop (terms : list pystr) (total_terms total_batches : nat) (starts : list nat) : M unit :=
  match starts with
  | [] => mret tt
  | i :: rest => batch_body terms total_terms total_batches i;; batch_loop terms total_terms total_batches rest
  end.

(** Lines 62-113. *)
Definition insert_terms (terms : list pystr) : M unit :=
  let total_terms := length terms in
  let total_batches := total_batches_of total_terms batch_size in
  log (LPreparing total_terms);;
  log (LBatchSize batch_size);;
  log (LTotalBatches total_batches);;
  log LRule;;
  set_tokens 0;;
  batch_loop terms total_terms total_batches (py_range 0 total_terms (pred batch_size));;
  s ← stm_get;
  log LInsertDone;;
  log (LTokensUsed (st_tokens s)).

(** Lines 47-121, given the column read from the CSV. *)
Definition create_db (sch : schema) (column : list (option pystr)) : M unit :=
  s ← stm_get;
  if has_collection (st_db s) collection_name then log LExists
  else
    match create_collection (st_db s) collection_name sch with
    | None => log LCreateError;; stm_raise ServiceError
    | Some d1 =>
        set_db d1;;
        log LCreated;;
        s1 ← stm_get;
        call (create_index (st_db s1) collection_name vector_index);;
        insert_terms (terms_of column);;
        s2 ← stm_get;
        call (load_collection (st_db s2) loaded_collection);;
        log LLoaded;;
        log LBuilt
    end.
End create_db.

(** ** In-memory clients *)

(** The collections by name; every call succeeds, and an insert into a
    collection that does not exist creates it. *)
#[export] Instance mem_client {vec} : MilvusClient (list (pystr * list (record vec))) vec := {
  has_collection d n := bool_decide (is_Some (dict_get n d));
  create_collection d n sch := Some (dict_set n [] d);
  create_index d n p := Some d;
  insert d n rs := Some (dict_set n (default [] (dict_get n d) ++ rs) d);
  load_collection d n := Some d;
  contents d n := default [] (dict_get n d);
}.

#[export] Instance mem_client_laws {vec} : MilvusLaws (list (pystr * list (record vec))) vec.
Proof. split; intros * H; injection H as <-; simpl; by rewrite ?dict_get_set_eq. Qed.

(** The same client with the server down for inserts: every insert raises. *)
Definition down_client {vec} : MilvusClient (list (pystr * list (record vec))) vec := {|
  has_collection d n := bool_decide (is_Some (dict_get n d));
  create_collection d n sch := Some (dict_set n [] d);
  create_index d n p := Some d;
  insert d n rs := None;
  load_collection d n := Some d;
  contents d n := default [] (dict_get n d);
|}.

(** * Running the loop *)

(** Run the monad's plumbing. *)
Ltac stm_simp :=
  cbv beta iota delta [mbind stm_bind mret stm_ret log stm_modify set_tokens set_db
                       stm_get stm_raise stm_lift call];
  cbn [st_db st_tokens st_log].

Section run.
Context {db vec : Type} `{!MilvusClient db vec}.
Variable emb : list pystr -> list vec.

(** The client after [client.insert], whether it succeeds or raises. *)
Definition after_insert (d : db) (rs : list (record vec)) : db :=
  match insert d collection_name rs with Some d' => d' | None => d end.

Definition insert_log (d : db) (rs : list (record vec)) (k : nat) : log_event vec :=
  match insert d collection_name rs with Some _ => LInserted k | None => LInsertError k end.

(** The batch of the iteration [i]. *)
Definition batch_at (terms : list pystr) (i : nat) : list pystr := py_slice i (i + batch_size) terms.

(** One iteration whose [insert_data] is not empty, with terms to divide
    the progress by. *)
Lemma batch_body_run terms n tb i s r rs :
  n <> 0 -> insert_data_of emb (batch_at terms i) = r :: rs ->
  batch_body emb terms n tb i s =
    (POk tt, mkState (after_insert (st_db s) (r :: rs))
                     (st_tokens s + batch_tokens (batch_at terms i))
                     (st_log s ++
                        [LProgress (i + length (batch_at terms i)) n;
                         LCurrentBatch (i / batch_size + 1) tb;
                         LBatchRows (length (r :: rs));
                         LBatchTokens (batch_tokens (batch_at terms i));
                         LTotalTokens (st_tokens s + batch_tokens (batch_at terms i));
                         LSample r; LRule;
                         insert_log (st_db s) (r :: rs) (i / batch_size + 1)])).
Proof.
  unfold batch_at. intros Hn Hd. unfold batch_body. rewrite Hd, py_index_head, bool_decide_eq_false_2 by done.
  unfold after_insert, insert_log.
  cbv beta iota delta [mbind stm_bind mret stm_ret stm_get set_tokens log stm_modify stm_lift set_db].
  cbn [st_db st_tokens st_log]. destruct (insert (st_db s) collection_name (r :: rs));
    cbn [st_db st_tokens st_log]; repeat rewrite <- app_assoc; reflexivity.
Qed.

Lemma insert_data_nonempty b : b <> [] -> emb b <> [] -> insert_data_of emb b <> [].
Proof. intros Hb He. unfold insert_data_of. destruct (emb b), b; simpl; congruence. Qed.

(** One iteration whose [insert_data] is empty: [insert_data[0]] raises
    after the progress, batch, row count and token lines. *)
Lemma batch_body_raise_state terms n tb i s :
  n <> 0 -> insert_data_of emb (batch_at terms i) = [] ->
  batch_body emb terms n tb i s =
    (PRaise IndexError, mkState (st_db s) (st_tokens s + batch_tokens (batch_at terms i))
       (st_log s ++ [LProgress (i + length (batch_at terms i)) n; LCurrentBatch (i / batch_size + 1) tb;
                     LBatchRows 0; LBatchTokens (batch_tokens (batch_at terms i));
                     LTotalTokens (st_tokens s + batch_tokens (batch_at terms i))])).
Proof.
  unfold batch_at. intros Hn Hd. unfold batch_body. rewrite Hd, bool_decide_eq_false_2 by done.
  cbv beta iota delta [mbind stm_bind mret stm_ret stm_get set_tokens log stm_modify stm_lift py_index].
  cbn [st_db st_tokens st_log length]. by repeat rewrite <- app_assoc.
Qed.

Lemma batch_loop_cons terms n tb i rest s :
  batch_loop emb terms n tb (i :: rest) s =
    match batch_body emb terms n tb i s with
    | (POk _, s') => batch_loop emb terms n tb rest s'
    | (PRaise e, s') => (PRaise e, s')
    end.
Proof. reflexivity. Qed.

(** What the log shows: the [当前批次] lines, the [进度] lines and the
    insert errors. *)
Definition current_batches (l : list (log_event vec)) : list (nat * nat) :=
  omap (fun e => match e with LCurrentBatch c t => Some (c, t) | _ => None end) l.
Definition progress_of (l : list (log_event vec)) : list (nat * nat) :=
  omap (fun e => match e with LProgress d t => Some (d, t) | _ => None end) l.
Definition insert_errors (l : list (log_event vec)) : list nat :=
  omap (fun e => match e with LInsertError k => Some k | _ => None end) l.

(** The loop over iterations whose [insert_data] are not empty: it
    returns, the client is the fold of the inserts, the tokens are summed,
    and every iteration logs its batch number and progress. *)
Lemma batch_loop_run terms n tb starts s :
  (starts <> [] -> n <> 0) ->
  (forall i, i ∈ starts -> insert_data_of emb (batch_at terms i) <> []) ->
  exists s', batch_loop emb terms n tb starts s = (POk tt, s') /\
    st_db s' = foldl (fun d i => after_insert d (insert_data_of emb (batch_at terms i))) (st_db s) starts /\
    st_tokens s' = st_tokens s + sum_list_with (fun i => batch_tokens (batch_at terms i)) starts /\
    current_batches (st_log s') = current_batches (st_log s) ++ map (fun i => (i / batch_size + 1, tb)) starts /\
    progress_of (st_log s') = progress_of (st_log s) ++ map (fun i => (i + length (batch_at terms i), n)) starts /\
    ((forall d rs, insert d collection_name rs = None) ->
       insert_errors (st_log s') = insert_errors (st_log s) ++ map (fun i => i / batch_size + 1) starts).
Proof.
  intros Hn. revert s. induction starts as [|i rest IH]; intros s Hne.
  { exists s. simpl. rewrite !app_nil_r. naive_solver lia. }
  specialize (Hn ltac:(done)).
  destruct (insert_data_of emb (batch_at terms i)) as [|r rs] eqn:Hd; [set_solver|].
  rewrite batch_loop_cons, (batch_body_run _ _ _ _ _ _ _ Hn Hd).
  edestruct IH as (s' & Hrun & Hdb & Htok & Hcur & Hprog & Herr); [done|intros j Hj; apply Hne; set_solver|].
  cbn iota. rewrite Hrun. exists s'. rewrite Hdb. cbn [st_db st_tokens st_log] in *. simpl. rewrite Hd.
  unfold current_batches, progress_of, insert_errors in *.
  rewrite Hcur, Hprog, Htok, !omap_app. unfold insert_log.
  repeat split; [lia| | |].
  - destruct (insert _ _); simpl; by rewrite <- app_assoc.
  - destruct (insert _ _); simpl; by rewrite <- app_assoc.
  - intros Hfail. rewrite (Herr Hfail), omap_app. unfold insert_log. rewrite Hfail. simpl. by rewrite <- app_assoc.
Qed.

Lemma batch_loop_app terms n tb l1 l2 s :
  batch_loop emb terms n tb (l1 ++ l2) s =
    match batch_loop emb terms n tb l1 s with
    | (POk _, s') => batch_loop emb terms n tb l2 s'
    | (PRaise e, s') => (PRaise e, s')
    end.
Proof.
  revert s. induction l1 as [|i l1 IH]; intros s; [done|]. cbn [app]. rewrite !batch_loop_cons.
  destruct (batch_body _ _ _ _ i s) as [[]?]; [apply IH|done].
Qed.

(** The first iteration [j] whose [insert_data] is empty raises
    [IndexError] at line 100, after the inserts of the iterations before
    it and the log lines of its own. *)
Lemma batch_loop_index_error terms n tb starts s j i :
  n <> 0 -> starts !! j = Some i -> insert_data_of emb (batch_at terms i) = [] ->
  (forall k i', k < j -> starts !! k = Some i' -> insert_data_of emb (batch_at terms i') <> []) ->
  exists s', batch_loop emb terms n tb starts s = (PRaise IndexError, s') /\
    st_db s' = foldl (fun d i => after_insert d (insert_data_of emb (batch_at terms i))) (st_db s) (take j starts) /\
    exists pre t, st_log s' = pre ++ [LCurrentBatch (i / batch_size + 1) tb; LBatchRows 0;
                                      LBatchTokens (batch_tokens (batch_at terms i)); LTotalTokens t].
Proof.
  intros Hn Hj Hi Hbefore.
  replace (batch_loop emb terms n tb starts s)
    with (batch_loop emb terms n tb (take j starts ++ i :: drop (S j) starts) s)
    by (by rewrite take_drop_middle).
  rewrite batch_loop_app.
  destruct (batch_loop_run terms n tb (take j starts) s) as (s1 & Hrun & Hdb & _); [done| |].
  { intros i' [k Hk]%list_elem_of_lookup. pose proof (lookup_lt_Some _ _ _ Hk) as Hlt.
    rewrite length_take in Hlt. rewrite lookup_take_lt in Hk by lia. apply (Hbefore k); [lia|done]. }
  rewrite Hrun, batch_loop_cons, (batch_body_raise_state _ _ _ _ _ Hn Hi).
  eexists. split; [reflexivity|]. cbn [st_db st_log]. split; [done|].
  exists (st_log s1 ++ [LProgress (i + length (batch_at terms i)) n]).
  eexists. by rewrite <- app_assoc.
Qed.

(** The iterations of [range(0, total_terms, batch_size)] are the batches. *)
Lemma batch_at_range terms :
  batch_at terms <$> py_range 0 (length terms) (pred batch_size) = batches (pred batch_size) terms.
Proof. reflexivity. Qed.

Lemma range_batch_nonempty terms i :
  i ∈ py_range 0 (length terms) (pred batch_size) -> batch_at terms i <> [].
Proof.
  intros Hi. assert (batch_at terms i ∈ batches (pred batch_size) terms) as Hb.
  { rewrite <- batch_at_range. by apply list_elem_of_fmap_2. }
  apply batches_bounded in Hb. intros E. rewrite E in Hb. simpl in Hb. lia.
Qed.

(** The [j]-th iteration starts at [j * batch_size]. *)
Lemma py_range_lookup n j i :
  py_range 0 n (pred batch_size) !! j = Some i -> i = j * batch_size.
Proof.
  rewrite py_range_seq, list_lookup_fmap. intros (x & Hx & ->)%fmap_Some.
  apply lookup_seq in Hx as [-> _]. reflexivity.
Qed.

Lemma range_insert_data terms i :
  (forall ts, ts <> [] -> emb ts <> []) ->
  i ∈ py_range 0 (length terms) (pred batch_size) -> insert_data_of emb (batch_at terms i) <> [].
Proof.
  intros Hemb Hi. apply insert_data_nonempty; [by apply range_batch_nonempty|].
  apply Hemb. by apply range_batch_nonempty.
Qed.

(** The loop runs only when there are terms: the division of line 93
    never has a zero denominator. *)
Lemma range_terms_nonzero (terms : list pystr) :
  py_range 0 (length terms) (pred batch_size) <> [] -> length terms <> 0.
Proof. intros Hr Hz. apply Hr. rewrite Hz. reflexivity. Qed.

(** Lines 62-113 when the embedding returns vectors for every non-empty
    batch: the function returns; the client is the fold of the inserts of
    the batches; [total_tokens] is the estimate for the whole column; the
    batch lines count [1 .. total_batches]; the progress of batch [j] is
    [min(j * batch_size, total_terms)]; and when every insert raises, every
    batch has its error line. *)
Lemma insert_terms_run terms s :
  (forall ts, ts <> [] -> emb ts <> []) ->
  exists s', insert_terms emb terms s = (POk tt, s') /\
    st_db s' = foldl (fun d b => after_insert d (insert_data_of emb b)) (st_db s) (batches (pred batch_size) terms) /\
    st_tokens s' = batch_tokens terms /\
    current_batches (st_log s') = current_batches (st_log s) ++
      map (fun j => (j, total_batches_of (length terms) batch_size)) (seq 1 (total_batches_of (length terms) batch_size)) /\
    progress_of (st_log s') = progress_of (st_log s) ++
      map (fun j => (Nat.min (j * batch_size) (length terms), length terms)) (seq 1 (total_batches_of (length terms) batch_size)) /\
    ((forall d rs, insert d collection_name rs = None) ->
       insert_errors (st_log s') = insert_errors (st_log s) ++ seq 1 (total_batches_of (length terms) batch_size)).
Proof.
  intros Hemb. unfold insert_terms. stm_simp.
  lazymatch goal with
  | |- context [batch_loop emb terms ?n ?tb ?st ?s1] =>
      destruct (batch_loop_run terms n tb st s1 (range_terms_nonzero terms) (fun i => range_insert_data terms i Hemb))
        as (s' & Hrun & Hdb & Htok & Hcur & Hprog & Herr)
  end.
  cbn [st_db st_tokens st_log] in Hdb, Htok, Hcur, Hprog, Herr.
  rewrite Hrun. stm_simp. eexists. split; [reflexivity|].
  cbn [st_db st_tokens st_log]. unfold current_batches, progress_of, insert_errors in *.
  pose proof (py_range_batch_numbers (pred batch_size) (length terms)) as Hnum.
  pose proof (py_range_progress (pred batch_size) terms) as Hpro.
  rewrite length_py_range_batches in Hnum, Hpro.
  change (S (pred batch_size)) with batch_size in Hnum, Hpro.
  repeat split.
  - rewrite Hdb, <- (batch_at_range terms), foldl_fmap. done.
  - rewrite Htok. symmetry. rewrite <- (concat_batches (pred batch_size) terms) at 1.
    unfold batch_tokens at 1. rewrite sum_list_with_concat, <- batch_at_range, sum_list_with_fmap. done.
  - rewrite !omap_app, Hcur, !omap_app. cbn [omap list_omap app]. rewrite !app_nil_r.
    rewrite <- Hnum, map_map. done.
  - rewrite !omap_app, Hprog, !omap_app. cbn [omap list_omap app]. rewrite !app_nil_r.
    unfold batch_at. rewrite <- map_map with (g := fun i => (i, length terms)).
    rewrite Hpro, map_map. done.
  - intros Hfail. rewrite !omap_app, (Herr Hfail), !omap_app. cbn [omap list_omap app].
    rewrite !app_nil_r, <- Hnum. done.
Qed.

(** Lines 62-113 when the embedding returns no vector for the batch [j]
    and vectors for every batch before it: [insert_data[0]] raises
    [IndexError] in the iteration [j + 1], after the inserts of the
    batches before it. *)
Lemma insert_terms_index_error terms s j b :
  batches (pred batch_size) terms !! j = Some b -> emb b = [] ->
  (forall k b', k < j -> batches (pred batch_size) terms !! k = Some b' -> emb b' <> []) ->
  exists s', insert_terms emb terms s = (PRaise IndexError, s') /\
    st_db s' = foldl (fun d b => after_insert d (insert_data_of emb b)) (st_db s) (take j (batches (pred batch_size) terms)) /\
    exists pre t, st_log s' = pre ++ [LCurrentBatch (S j) (total_batches_of (length terms) batch_size);
                                      LBatchRows 0; LBatchTokens (batch_tokens b); LTotalTokens t].
Proof.
  intros Hj Hb Hbefore. rewrite <- batch_at_range in Hj, Hbefore. rewrite list_lookup_fmap in Hj.
  destruct (py_range 0 (length terms) (pred batch_size) !! j) as [i|] eqn:Ei; [|discriminate].
  injection Hj as <-. pose proof (py_range_lookup _ _ _ Ei) as Hij.
  unfold insert_terms. stm_simp.
  lazymatch goal with
  | |- context [batch_loop emb terms ?n ?tb ?st ?s1] =>
      destruct (batch_loop_index_error terms n tb st s1 j i) as (s' & Hrun & Hdb & pre & t & Hlog)
  end.
  - apply range_terms_nonzero. intros E. by rewrite E in Ei.
  - done.
  - unfold insert_data_of. by rewrite Hb.
  - intros k i' Hk Hi'. apply insert_data_nonempty; [apply range_batch_nonempty; by eapply list_elem_of_lookup_2|].
    apply (Hbefore k); [done|]. by rewrite list_lookup_fmap, Hi'.
  - rewrite Hrun. stm_simp. exists s'. split; [done|]. split.
    + rewrite Hdb, <- batch_at_range, <- fmap_take, foldl_fmap. done.
    + exists pre, t. rewrite Hlog, Hij, Nat.div_mul by done. by rewrite Nat.add_1_r.
Qed.
End run.

Section facts.
Context {db vec : Type} `{!MilvusClient db vec, !MilvusLaws db vec}.
Variable emb : list pystr -> list vec.

Lemma foldl_inserts_ok (bs : list (list pystr)) d :
  (forall d rs, is_Some (insert d collection_name rs)) ->
  contents (foldl (fun d b => after_insert d (insert_data_of emb b)) d bs) collection_name =
    contents d collection_name ++ concat (map (insert_data_of emb) bs).
Proof.
  intros Hok. revert d. induction bs as [|b bs IH]; intros d; simpl; [by rewrite app_nil_r|].
  rewrite IH. unfold after_insert. destruct (Hok d (insert_data_of emb b)) as [d' Hd'].
  rewrite Hd', (insert_contents _ _ _ _ Hd'). by rewrite app_assoc.
Qed.

Lemma foldl_inserts_down (bs : list (list pystr)) d :
  (forall d rs, insert d collection_name rs = None) ->
  foldl (fun d b => after_insert d (insert_data_of emb b)) d bs = d.
Proof.
  intros Hdown. revert d. induction bs as [|b bs IH]; intros d; simpl; [done|].
  unfold after_insert at 2. rewrite Hdown. apply IH.
Qed.

(** [zip] keeps the terms that have a vector: the first [len(vectors)]. *)
Lemma term_names_truncate b : map term_name (insert_data_of emb b) = take (length (emb b)) b.
Proof.
  unfold insert_data_of. generalize (emb b). intros vs. revert vs.
  induction b as [|t b IH]; intros [|v vs]; simpl; try done. f_equal. apply IH.
Qed.

Lemma term_names_concat bs :
  map term_name (concat (map (insert_data_of emb) bs)) = concat (map (fun b => take (length (emb b)) b) bs).
Proof. rewrite concat_map, map_map. f_equal. apply map_ext. apply term_names_truncate. Qed.

Lemma emb_nonempty :
  (forall ts, length (emb ts) = length ts) -> forall ts, ts <> [] -> emb ts <> [].
Proof. intros Hl ts Hts E. apply Hts, nil_length_inv. by rewrite <- Hl, E. Qed.

(** The literal of line 112 names the collection of line 45: the
    collection loaded is the one built. *)
Lemma loaded_collection_is_collection_name : loaded_collection = collection_name.
Proof. reflexivity. Qed.

(** The branch of lines 47-119 up to the loop. *)
Lemma create_db_create sch column s d1 d2 :
  has_collection (st_db s) collection_name = false -> create_collection (st_db s) collection_name sch = Some d1 ->
  create_index d1 collection_name vector_index = Some d2 ->
  create_db emb sch column s =
    (insert_terms emb (terms_of column) ≫= fun _ =>
       s2 ← stm_get; call (load_collection (st_db s2) loaded_collection);; log LLoaded;; log LBuilt)
      (mkState d2 (st_tokens s) (st_log s ++ [LCreated])).
Proof. intros Hh Hc Hi. unfold create_db. stm_simp. rewrite Hh, Hc. stm_simp. rewrite Hi. reflexivity. Qed.
End facts.

(** * Properties *)

Section properties.
Context {db vec : Type} `{!MilvusClient db vec, !MilvusLaws db vec}.
Variable emb : list pystr -> list vec.

(** The run of lines 47-121 when every service call succeeds and the
    embedding returns vectors for every batch. *)
Lemma create_db_contents sch column s d1 :
  (forall ts, ts <> [] -> emb ts <> []) -> (forall d rs, is_Some (insert d collection_name rs)) ->
  (forall d, is_Some (create_index d collection_name vector_index)) ->
  (forall d, is_Some (load_collection d loaded_collection)) ->
  has_collection (st_db s) collection_name = false -> create_collection (st_db s) collection_name sch = Some d1 ->
  exists s', create_db emb sch column s = (POk tt, s') /\
    contents (st_db s') collection_name = concat (map (insert_data_of emb) (batches (pred batch_size) (terms_of column))).
Proof.
  intros Hemb Hok Hidx Hload Hh Hc. destruct (Hidx d1) as [d2 Hd2].
  rewrite (create_db_create emb sch column s d1 d2 Hh Hc Hd2).
  destruct (insert_terms_run emb (terms_of column)
              (mkState d2 (st_tokens s) (st_log s ++ [LCreated])) Hemb) as (s1 & Hrun & Hdb & _).
  stm_simp. rewrite Hrun. stm_simp. destruct (Hload (st_db s1)) as [d3 Hd3]. rewrite Hd3.
  stm_simp. eexists. split; [reflexivity|]. cbn [st_db].
  rewrite loaded_collection_is_collection_name in Hd3.
  rewrite (load_collection_contents _ _ _ Hd3), Hdb, foldl_inserts_ok by done. cbn [st_db].
  by rewrite (create_index_contents _ _ _ _ Hd2), (create_collection_contents _ _ _ _ Hc).
Qed.

(** With one vector per term, the term names are the column. *)
Lemma create_db_run sch column s d1 :
  (forall ts, length (emb ts) = length ts) -> (forall d rs, is_Some (insert d collection_name rs)) ->
  (forall d, is_Some (create_index d collection_name vector_index)) ->
  (forall d, is_Some (load_collection d loaded_collection)) ->
  has_collection (st_db s) collection_name = false -> create_collection (st_db s) collection_name sch = Some d1 ->
  exists s', create_db emb sch column s = (POk tt, s') /\
    contents (st_db s') collection_name = concat (map (insert_data_of emb) (batches (pred batch_size) (terms_of column))) /\
    map term_name (contents (st_db s') collection_name) = terms_of column.
Proof.
  intros Hlen Hok Hidx Hload Hh Hc.
  destruct (create_db_contents sch column s d1 (emb_nonempty emb Hlen) Hok Hidx Hload Hh Hc) as (s' & Hrun & Hcont).
  exists s'. split_and!; [done|done|]. rewrite Hcont, term_names_concat.
  rewrite (map_ext _ id); [by rewrite map_id, concat_batches|].
  intros b. rewrite Hlen. apply firstn_all.
Qed.

(** (C15) Refinement: when the collection is missing and is created,
    indexing and loading succeed, the embedding returns one vector per
    term and every insert succeeds, the
    script returns and the collection holds exactly the rows
    [{"vector": v, "term_name": t}] of every batch, in order; its term
    names are the CSV column with [NaN] read as ["NA"]. *)
Theorem create_db_inserts_all_terms sch column s d1 :
  (forall ts, length (emb ts) = length ts) -> (forall d rs, is_Some (insert d collection_name rs)) ->
  (forall d, is_Some (create_index d collection_name vector_index)) ->
  (forall d, is_Some (load_collection d loaded_collection)) ->
  has_collection (st_db s) collection_name = false -> create_collection (st_db s) collection_name sch = Some d1 ->
  exists s', create_db emb sch column s = (POk tt, s') /\
    contents (st_db s') collection_name = concat (map (insert_data_of emb) (batches (pred batch_size) (terms_of column))) /\
    map term_name (contents (st_db s') collection_name) = terms_of column.
Proof. apply create_db_run. Qed.

(** (C28) The batch count logged before the loop ([预计总批次数],
    [ceil(total_terms / 1000)]) is the number of iterations: the
    [当前批次] lines are [1/total_batches, ..., total_batches/total_batches]. *)
Theorem insert_terms_batch_numbers terms s :
  (forall ts, ts <> [] -> emb ts <> []) ->
  exists s', insert_terms emb terms s = (POk tt, s') /\
    total_batches_of (length terms) batch_size = length (batches (pred batch_size) terms) /\
    current_batches (st_log s') = current_batches (st_log s) ++
      map (fun j => (j, total_batches_of (length terms) batch_size)) (seq 1 (total_batches_of (length terms) batch_size)).
Proof.
  intros Hemb. destruct (insert_terms_run emb terms s Hemb) as (s' & Hrun & _ & _ & Hcur & _).
  exists s'. split; [done|]. split; [|done]. by rewrite length_batches.
Qed.

(** (C40) When the embedding returns vectors for every batch and the
    column is not empty, the loop runs to its end and the progress line of
    its last batch reports the whole column:
    [(i + len(batch_terms)) / total_terms] is 100%. *)
Theorem insert_terms_progress_complete terms s :
  (forall ts, ts <> [] -> emb ts <> []) -> terms <> [] ->
  exists s', insert_terms emb terms s = (POk tt, s') /\
    last (progress_of (st_log s')) = Some (length terms, length terms).
Proof.
  intros Hemb Hne. destruct (insert_terms_run emb terms s Hemb) as (s' & Hrun & _ & _ & _ & Hprog & _).
  exists s'. split; [done|]. rewrite Hprog, last_app.
  assert (0 < length terms) by (destruct terms; [done|simpl; lia]).
  rewrite last_map_seq by (apply total_batches_pos; unfold batch_size; lia).
  pose proof (total_batches_cover (length terms) batch_size ltac:(unfold batch_size; lia)).
  cbv beta. by rewrite Nat.min_r by lia.
Qed.

(** (C29) [total_tokens] is the estimate of line 90 for the whole column:
    two tokens per whitespace-separated word of every term. *)
Theorem insert_terms_token_estimate terms s :
  (forall ts, ts <> [] -> emb ts <> []) ->
  exists s', insert_terms emb terms s = (POk tt, s') /\
    st_tokens s' = sum_list_with (fun t => length (split_ws t) * 2) terms.
Proof.
  intros Hemb. destruct (insert_terms_run emb terms s Hemb) as (s' & Hrun & _ & Htok & _).
  by exists s'.
Qed.

(** (C30) Insert errors are swallowed (lines 109-110): when every insert
    raises, the loop still runs to the end, the collection is unchanged,
    and every batch has its error line. *)
Theorem insert_errors_swallowed terms s :
  (forall ts, ts <> [] -> emb ts <> []) -> (forall d rs, insert d collection_name rs = None) ->
  exists s', insert_terms emb terms s = (POk tt, s') /\ st_db s' = st_db s /\
    insert_errors (st_log s') = insert_errors (st_log s) ++ seq 1 (total_batches_of (length terms) batch_size).
Proof.
  intros Hemb Hdown. destruct (insert_terms_run emb terms s Hemb) as (s' & Hrun & Hdb & _ & _ & _ & Herr).
  exists s'. split; [done|]. split; [|by apply Herr]. rewrite Hdb. by apply foldl_inserts_down.
Qed.

(** An existing collection is left alone: only the line of 121 is logged. *)
Theorem create_db_skips_existing sch column s :
  has_collection (st_db s) collection_name = true ->
  create_db emb sch column s = (POk tt, mkState (st_db s) (st_tokens s) (st_log s ++ [LExists])).
Proof. intros Hh. unfold create_db. stm_simp. by rewrite Hh. Qed.

(** A failing [create_collection] is logged and re-raised (lines 51-53). *)
Theorem create_db_create_error sch column s :
  has_collection (st_db s) collection_name = false -> create_collection (st_db s) collection_name sch = None ->
  create_db emb sch column s = (PRaise ServiceError, mkState (st_db s) (st_tokens s) (st_log s ++ [LCreateError])).
Proof. intros Hh Hc. unfold create_db. stm_simp. rewrite Hh, Hc. reflexivity. Qed.
(** (C31) An embedding call that returns no vector for a batch makes
    [insert_data] empty, and [insert_data[0]] at line 100, outside the
    [try], raises [IndexError]: for any column and the first batch [j]
    without vectors, the script stops in iteration [j + 1] after logging
    its batch number, an empty row count and its tokens; the collection,
    already created, holds the rows of the batches before [j] and is never
    loaded. *)
Theorem create_db_index_error sch column s d1 d2 j b :
  (forall d rs, is_Some (insert d collection_name rs)) ->
  has_collection (st_db s) collection_name = false -> create_collection (st_db s) collection_name sch = Some d1 ->
  create_index d1 collection_name vector_index = Some d2 ->
  batches (pred batch_size) (terms_of column) !! j = Some b -> emb b = [] ->
  (forall k b', k < j -> batches (pred batch_size) (terms_of column) !! k = Some b' -> emb b' <> []) ->
  exists s', create_db emb sch column s = (PRaise IndexError, s') /\
    contents (st_db s') collection_name =
      concat (map (insert_data_of emb) (take j (batches (pred batch_size) (terms_of column)))) /\
    exists pre t, st_log s' = pre ++ [LCurrentBatch (S j) (total_batches_of (length column) batch_size);
                                      LBatchRows 0; LBatchTokens (batch_tokens b); LTotalTokens t].
Proof.
  intros Hok Hh Hc Hi Hj Hb Hbefore. rewrite (create_db_create emb sch column s d1 d2 Hh Hc Hi).
  destruct (insert_terms_index_error emb (terms_of column) (mkState d2 (st_tokens s) (st_log s ++ [LCreated]))
              j b Hj Hb Hbefore) as (s' & Hrun & Hdb & Hlog).
  stm_simp. rewrite Hrun. exists s'. split; [done|]. split.
  - rewrite Hdb, foldl_inserts_ok by done. cbn [st_db].
    by rewrite (create_index_contents _ _ _ _ Hi), (create_collection_contents _ _ _ _ Hc).
  - unfold terms_of in Hlog. by rewrite length_map in Hlog.
Qed.

(** (C32) [zip] truncates silently (line 86): whenever the embedding
    returns vectors for every batch, possibly fewer than its terms, the
    script still returns normally, and the collection holds, batch by
    batch, only the terms that got a vector: the first [len(vectors)]
    terms of each batch. *)
Theorem create_db_zip_truncates sch column s d1 :
  (forall ts, ts <> [] -> emb ts <> []) -> (forall d rs, is_Some (insert d collection_name rs)) ->
  (forall d, is_Some (create_index d collection_name vector_index)) ->
  (forall d, is_Some (load_collection d loaded_collection)) ->
  has_collection (st_db s) collection_name = false -> create_collection (st_db s) collection_name sch = Some d1 ->
  exists s', create_db emb sch column s = (POk tt, s') /\
    map term_name (contents (st_db s') collection_name) =
      concat (map (fun b => take (length (emb b)) b) (batches (pred batch_size) (terms_of column))).
Proof.
  intros Hemb Hok Hidx Hload Hh Hc.
  destruct (create_db_contents sch column s d1 Hemb Hok Hidx Hload Hh Hc) as (s' & Hrun & Hcont).
  exists s'. split; [done|]. by rewrite Hcont, term_names_concat.
Qed.
End properties.

(** ** Concrete runs *)

(** An embedding with one vector (here a number) per term. *)
Definition toy_embedding (ts : list pystr) : list nat := map length ts.

Definition sample_column : list (option pystr) := [Some (s_ "AAA bond"); None; Some (s_ "x")].

Definition empty_state : state (list (pystr * list (record nat))) nat := mkState [] 0 [].

(** The schema of lines 39-44 for one-dimensional vectors. *)
Definition toy_schema : schema := mkSchema 1 100.

Lemma toy_embedding_nonempty ts : ts <> [] -> toy_embedding ts <> [].
Proof. destruct ts; [done|discriminate]. Qed.

Lemma create_db_inserts_all_terms_witness :
  exists s', create_db toy_embedding toy_schema sample_column empty_state = (POk tt, s') /\
    contents (st_db s') collection_name = concat (map (insert_data_of toy_embedding) (batches (pred batch_size) (terms_of sample_column))) /\
    map term_name (contents (st_db s') collection_name) = terms_of sample_column.
Proof.
  apply (create_db_inserts_all_terms toy_embedding toy_schema sample_column empty_state [(collection_name, [])]).
  - intros ts. apply length_map.
  - intros d rs. eexists. reflexivity.
  - intros d. eexists. reflexivity.
  - intros d. eexists. reflexivity.
  - reflexivity.
  - reflexivity.
Defined.

Lemma insert_terms_batch_numbers_witness :
  exists s', insert_terms toy_embedding (terms_of sample_column) empty_state = (POk tt, s') /\
    total_batches_of 3 batch_size = length (batches (pred batch_size) (terms_of sample_column)) /\
    current_batches (st_log s') = current_batches (st_log empty_state) ++
      map (fun j => (j, total_batches_of 3 batch_size)) (seq 1 (total_batches_of 3 batch_size)).
Proof. apply (insert_terms_batch_numbers toy_embedding (terms_of sample_column)), toy_embedding_nonempty. Defined.

Lemma insert_terms_progress_complete_witness :
  exists s', insert_terms toy_embedding (terms_of sample_column) empty_state = (POk tt, s') /\
    last (progress_of (st_log s')) = Some (3, 3).
Proof.
  apply (insert_terms_progress_complete toy_embedding (terms_of sample_column)).
  - apply toy_embedding_nonempty.
  - vm_compute. discriminate.
Defined.

Lemma insert_terms_token_estimate_witness :
  exists s', insert_terms toy_embedding (terms_of sample_column) empty_state = (POk tt, s') /\
    st_tokens s' = 8.
Proof. apply (insert_terms_token_estimate toy_embedding (terms_of sample_column)), toy_embedding_nonempty. Defined.

Lemma insert_errors_swallowed_witness :
  exists s', @insert_terms _ _ down_client toy_embedding (terms_of sample_column) empty_state = (POk tt, s') /\
    st_db s' = [] /\ insert_errors (st_log s') = [1].
Proof.
  apply (@insert_errors_swallowed _ _ down_client toy_embedding (terms_of sample_column) empty_state).
  - apply toy_embedding_nonempty.
  - intros d rs. reflexivity.
Defined.

Lemma create_db_index_error_witness :
  exists s', create_db (fun _ => []) toy_schema [Some (s_ "AAA bond")] empty_state = (PRaise IndexError, s') /\
    contents (st_db s') collection_name =
      concat (map (insert_data_of (fun _ => [])) (take 0 (batches (pred batch_size) (terms_of [Some (s_ "AAA bond")])))) /\
    exists pre t, st_log s' = pre ++ [LCurrentBatch 1 (total_batches_of 1 batch_size); LBatchRows 0;
                                      LBatchTokens (batch_tokens [s_ "AAA bond"]); LTotalTokens t].
Proof.
  apply (create_db_index_error (fun _ => []) toy_schema [Some (s_ "AAA bond")] empty_state
           [(collection_name, [])] [(collection_name, [])] 0 [s_ "AAA bond"]).
  - intros d rs. eexists. reflexivity.
  - reflexivity.
  - reflexivity.
  - reflexivity.
  - vm_compute. reflexivity.
  - reflexivity.
  - intros k b' Hk. lia.
Defined.

Lemma create_db_zip_truncates_witness :
  exists s', create_db (fun _ => [7]) toy_schema [Some (s_ "a"); Some (s_ "b")] empty_state = (POk tt, s') /\
    map term_name (contents (st_db s') collection_name) =
      concat (map (fun b => take (length ((fun _ => [7]) b)) b) (batches (pred batch_size) (terms_of [Some (s_ "a"); Some (s_ "b")]))).
Proof.
  apply (create_db_zip_truncates (fun _ => [7]) toy_schema _ empty_state [(collection_name, [])]).
  - intros ts _. discriminate.
  - intros d rs. eexists. reflexivity.
  - intros d. eexists. reflexivity.
  - intros d. eexists. reflexivity.
  - reflexivity.
  - reflexivity.
Defined.
