(* ===== verification/BatchStep.v ===== *)
(** * The batching loop of [create_db.py] as a transition system

    [CreateDb.batch_loop] runs the iterations of lines 74-110 in one
    function.  Here the same iterations are the steps of a small-step
    machine: a configuration is either running, with the start indices
    [i] still to visit and the state of [CreateDb] (client, [total_tokens],
    log), or crashed with the exception an iteration raised and the state
    it left.  A step runs one [batch_body].

    [batch_loop_rtc] shows that the run of the function is a path of the
    machine.  [batch_machine_invariant]: every reachable configuration has visited
      a prefix of the iterations, and its client holds the rows and its
      [total_tokens] the estimate of that prefix (by rule induction on the
      reachability relation). *)

From stdpp Require Import strings.
From S2P Require Import Prelude PyStr Batching CreateDb.

Section machine.
Context {db vec : Type} `{!MilvusClient db vec}.
Variable emb : list pystr -> list vec.
Variables (terms : list pystr) (total_terms total_batches : nat).

Inductive cfg :=
| Running (todo : list nat) (s : state db vec)
| Crashed (e : exn) (s : state db vec).

(** One iteration of the loop. *)
Inductive step : cfg -> cfg -> Prop :=
| step_ok i rest s s' :
    batch_body emb terms total_terms total_batches i s = (POk tt, s') ->
    step (Running (i :: rest) s) (Running rest s')
| step_raise i rest s e s' :
    batch_body emb terms total_terms total_batches i s = (PRaise e, s') ->
    step (Running (i :: rest) s) (Crashed e s').

#[local] Hint Constructors step rtc : core.

(** The configuration the function returns in. *)
Definition outcome (r : pyres unit * state db vec) : cfg :=
  match r with
  | (POk _, s') => Running [] s'
  | (PRaise e, s') => Crashed e s'
  end.

(** The function's run is a run of the machine. *)
Lemma batch_loop_rtc starts s :
  rtc step (Running starts s) (outcome (batch_loop emb terms total_terms total_batches starts s)).
Proof.
  revert s. induction starts as [|i rest IH]; intros s; [constructor|].
  rewrite batch_loop_cons. destruct (batch_body _ _ _ _ i s) as [[[]|e] s'] eqn:E; simpl; eauto.
Qed.
End machine.

Section runs.
Context {db vec : Type} `{!MilvusClient db vec}.
Variable emb : list pystr -> list vec.

(** The reachable configurations of a loop whose iterations all have rows. *)
Lemma running_reachable `{!MilvusLaws db vec} terms n tb starts s c :
  (forall d rs, is_Some (insert d collection_name rs)) -> (starts <> [] -> n <> 0) ->
  (forall i, i ∈ starts -> insert_data_of emb (batch_at terms i) <> []) ->
  rtc (step emb terms n tb) (Running starts s) c ->
  exists done todo s', c = Running todo s' /\ starts = done ++ todo /\
    contents (st_db s') collection_name = contents (st_db s) collection_name ++ concat (map (fun i => insert_data_of emb (batch_at terms i)) done) /\
    st_tokens s' = st_tokens s + sum_list_with (fun i => batch_tokens (batch_at terms i)) done.
Proof.
  intros Hok Hn Hne Hreach. pattern c. revert c Hreach. apply rtc_ind_r.
  { exists [], starts, s. rewrite app_nil_r, Nat.add_0_r. done. }
  intros c1 c2 Hreach Hstep IH.
  destruct IH as (done & todo & s1 & -> & Hsplit & Hc & Ht).
  inversion Hstep as [i rest s1' s2 Hb|i rest s1' e s2 Hb]; subst.
  - assert (i ∈ done ++ i :: rest) as Hi by set_solver.
    specialize (Hn ltac:(by destruct done)).
    destruct (insert_data_of emb (batch_at terms i)) as [|r rs] eqn:Hd; [by destruct (Hne i Hi)|].
    rewrite (batch_body_run emb _ _ _ _ _ _ _ Hn Hd) in Hb. injection Hb as <-.
    exists (done ++ [i]), rest. eexists. split; [reflexivity|]. split; [by rewrite <- app_assoc|]. cbn [st_db st_tokens].
    unfold after_insert. destruct (Hok (st_db s1) (r :: rs)) as [d' Hd'].
    rewrite Hd', (insert_contents _ _ _ _ Hd'), map_app, concat_app, sum_list_with_app, Hc, Ht. simpl.
    rewrite Hd, !app_nil_r, <- app_assoc. split; [done|lia].
  - assert (i ∈ done ++ i :: rest) as Hi by set_solver.
    specialize (Hn ltac:(by destruct done)).
    destruct (insert_data_of emb (batch_at terms i)) as [|r rs] eqn:Hd; [by destruct (Hne i Hi)|].
    by rewrite (batch_body_run emb _ _ _ _ _ _ _ Hn Hd) in Hb.
Qed.

(** * Properties *)

(** (C16) Invariant of the machine, by rule induction on reachability:
    started as [insert_terms] starts it ([total_terms = len(terms)]),
    with inserts that succeed and iterations that all have rows, every
    reachable configuration is running, has visited a prefix [done] of the
    iterations, and its collection holds the rows of exactly the batches of
    [done], in order, and [total_tokens] their estimate. *)
Theorem batch_machine_invariant `{!MilvusLaws db vec} terms n tb s c :
  n = length terms -> (forall d rs, is_Some (insert d collection_name rs)) -> (forall ts, ts <> [] -> emb ts <> []) ->
  rtc (step emb terms n tb) (Running (py_range 0 (length terms) (pred batch_size)) s) c ->
  exists done todo s', c = Running todo s' /\ py_range 0 (length terms) (pred batch_size) = done ++ todo /\
    contents (st_db s') collection_name = contents (st_db s) collection_name ++ concat (map (fun i => insert_data_of emb (batch_at terms i)) done) /\
    st_tokens s' = st_tokens s + sum_list_with (fun i => batch_tokens (batch_at terms i)) done.
Proof.
  intros -> Hok Hemb. apply running_reachable; [done|apply range_terms_nonzero|]. intros i Hi. by apply range_insert_data.
Qed.
End runs.

Lemma batch_machine_invariant_witness :
  exists done todo s', Running [] (snd (batch_body toy_embedding (terms_of sample_column) 3 1 0 empty_state)) = Running todo s' /\
    py_range 0 3 (pred batch_size) = done ++ todo /\
    contents (st_db s') collection_name = contents (st_db empty_state) collection_name ++
      concat (map (fun i => insert_data_of toy_embedding (batch_at (terms_of sample_column) i)) done) /\
    st_tokens s' = st_tokens empty_state + sum_list_with (fun i => batch_tokens (batch_at (terms_of sample_column) i)) done.
Proof.
  apply (batch_machine_invariant toy_embedding (terms_of sample_column) 3 1 empty_state).
  - reflexivity.
  - intros d rs. eexists. reflexivity.
  - apply toy_embedding_nonempty.
  - change (py_range 0 (length (terms_of sample_column)) (pred batch_size)) with [0].
    eapply rtc_l; [apply step_ok; vm_compute; reflexivity|]. apply rtc_refl.
Defined.
