(* ===== verification/DbScript.v ===== *)
(** * The script part of [create_db.py] (lines 16-45)

    Before the collection is built, the script checks that the CSV file
    exists ([FileNotFoundError] otherwise, line 21), reads it with two
    columns and replaces missing cells by ["NA"] (lines 24-29), logs the
    first rows, embeds the word ["dummy"] to learn the dimension of the
    vectors (line 38: [len(embedding_function(["dummy"])[0])], an
    [IndexError] when the model returns nothing) and declares the schema
    of lines 39-44 with that dimension; then [CreateDb.create_db] runs.

    [pandas.read_csv] is a library: the rows it returns are an argument,
    and so is the answer of [os.path.exists].  The length of a vector is a
    section variable [vlen].

    - [script_errors]: the two exceptions happen before any call to the
      client;
    - [script_rows_conform]: when the embedding model has a fixed
      dimension, every row of the collection has a vector of exactly the
      dimension the schema declares. *)

From stdpp Require Import strings.
From S2P Require Import Prelude PyStr Batching CreateDb.

(** Line 29: [df.fillna("NA")] on both columns. *)
Definition fillna (rows : list (option pystr * option pystr)) : list (pystr * pystr) :=
  map (fun r => (default (s_ "NA") r.1, default (s_ "NA") r.2)) rows.

Section script.
Context {db vec : Type} `{!MilvusClient db vec}.
Variable embedding_function : list pystr -> list vec.
Variable vlen : vec -> nat.

(** Lines 16-45 and then lines 47-121. *)
Definition create_db_script (file_exists : bool) (rows : list (option pystr * option pystr))
    : stm (state db vec) unit :=
  if negb file_exists then stm_raise FileNotFoundError
  else
    log LLoading;;
    log (LHead (take 5 (fillna rows)));;
    dummy ← stm_lift (py_index (embedding_function [s_ "dummy"]) 0);
    create_db embedding_function (mkSchema (vlen dummy) 100) (map fst rows).
End script.

Section facts.
Context {db vec : Type} `{!MilvusClient db vec}.
Variable emb : list pystr -> list vec.
Variable vlen : vec -> nat.

Lemma insert_data_vectors b r : r ∈ insert_data_of emb b -> vector r ∈ emb b.
Proof.
  unfold insert_data_of. generalize (emb b) as vs. induction b as [|t b IH]; intros [|v vs] Hr;
    simpl in *; try by apply not_elem_of_nil in Hr.
  apply elem_of_cons in Hr as [->|Hr]; [by left|right; by apply IH].
Qed.

Lemma script_prefix rows s :
  create_db_script emb vlen true rows s =
    (dummy ← stm_lift (py_index (emb [s_ "dummy"]) 0);
     create_db emb (mkSchema (vlen dummy) 100) (map fst rows))
      (mkState (st_db s) (st_tokens s) ((st_log s ++ [LLoading]) ++ [LHead (take 5 (fillna rows))])).
Proof. reflexivity. Qed.
End facts.

(** * Properties *)

Section properties.
Context {db vec : Type} `{!MilvusClient db vec}.
Variable emb : list pystr -> list vec.
Variable vlen : vec -> nat.

(** (C33) The errors of the script's preamble happen before any client
    call: a missing CSV file raises [FileNotFoundError] (line 21) with
    nothing logged, and an embedding model that returns no vector for
    ["dummy"] raises [IndexError] at line 38, after the two log lines and
    before the collection is created. *)
Theorem script_errors rows s :
  create_db_script emb vlen false rows s = (PRaise FileNotFoundError, s) /\
  (emb [s_ "dummy"] = [] ->
   create_db_script emb vlen true rows s =
     (PRaise IndexError, mkState (st_db s) (st_tokens s) (st_log s ++ [LLoading; LHead (take 5 (fillna rows))]))).
Proof.
  split; [reflexivity|]. intros Hd. rewrite script_prefix. unfold py_index. rewrite Hd.
  by rewrite <- app_assoc.
Qed.

(** (C34) Rows conform to the schema: when the embedding model returns
    one vector per text, all of the same dimension [D], and the service
    calls succeed, the script creates the collection through [create_db]
    with the schema of lines 39-44, whose [vector] field has dimension [D]
    (the length of the vector of ["dummy"], line 38) and whose [term_name]
    holds 100 characters; every row of the collection then has a vector
    of exactly the declared dimension, one row per CSV line. *)
Theorem script_rows_conform `{!MilvusLaws db vec} D rows s :
  (forall ts, length (emb ts) = length ts) -> (forall ts, Forall (fun v => vlen v = D) (emb ts)) ->
  (forall d rs, is_Some (insert d collection_name rs)) ->
  (forall d, is_Some (create_index d collection_name vector_index)) ->
  (forall d, is_Some (load_collection d loaded_collection)) ->
  has_collection (st_db s) collection_name = false ->
  (forall sch, is_Some (create_collection (st_db s) collection_name sch)) ->
  exists sch s', sch_dim sch = D /\ sch_term_max sch = 100 /\
    create_db_script emb vlen true rows s =
      create_db emb sch (map fst rows)
        (mkState (st_db s) (st_tokens s) (st_log s ++ [LLoading; LHead (take 5 (fillna rows))])) /\
    create_db_script emb vlen true rows s = (POk tt, s') /\
    Forall (fun r => vlen (vector r) = sch_dim sch) (contents (st_db s') collection_name) /\
    length (contents (st_db s') collection_name) = length rows.
Proof.
  intros Hlen Hdim Hok Hidx Hload Hh Hc. rewrite script_prefix, <- app_assoc.
  destruct (emb [s_ "dummy"]) as [|v vs] eqn:Ev; [by pose proof (Hlen [s_ "dummy"]) as H; rewrite Ev in H|].
  assert (vlen v = D) as Hv by (pose proof (Hdim [s_ "dummy"]) as H; rewrite Ev in H; by inversion H).
  rewrite py_index_head. cbv beta iota delta [mbind stm_bind stm_lift].
  destruct (Hc (mkSchema (vlen v) 100)) as [d1 Hd1].
  destruct (create_db_run emb (mkSchema (vlen v) 100) (map fst rows)
              (mkState (st_db s) (st_tokens s) (st_log s ++ [LLoading; LHead (take 5 (fillna rows))])) d1
              Hlen Hok Hidx Hload Hh Hd1) as (s' & Hrun & Hcont & Hnames).
  exists (mkSchema (vlen v) 100), s'. split_and!; [done|done|done|exact Hrun| |].
  - cbn [sch_dim]. rewrite Hv, Hcont. apply Forall_forall. intros r Hr.
    apply list_elem_of_In, in_concat in Hr as (rs & Hrs & Hr). apply in_map_iff in Hrs as (b & <- & _).
    apply list_elem_of_In, insert_data_vectors in Hr. pose proof (Hdim b) as Hb. rewrite Forall_forall in Hb.
    by apply Hb.
  - rewrite <- (length_map term_name), Hnames. unfold terms_of. by rewrite !length_map.
Qed.
End properties.

(** Two CSV lines, the second with missing cells. *)
Definition sample_rows : list (option pystr * option pystr) :=
  [(Some (s_ "AAA bond"), Some (s_ "rating")); (None, None)].

Lemma script_rows_conform_witness :
  exists sch s', sch_dim sch = 1 /\ sch_term_max sch = 100 /\
    create_db_script toy_embedding (fun _ => 1) true sample_rows empty_state =
      create_db toy_embedding sch (map fst sample_rows)
        (mkState (st_db empty_state) (st_tokens empty_state)
           (st_log empty_state ++ [LLoading; LHead (take 5 (fillna sample_rows))])) /\
    create_db_script toy_embedding (fun _ => 1) true sample_rows empty_state = (POk tt, s') /\
    Forall (fun r => (fun _ : nat => 1) (vector r) = sch_dim sch) (contents (st_db s') collection_name) /\
    length (contents (st_db s') collection_name) = length sample_rows.
Proof.
  apply (script_rows_conform toy_embedding (fun _ => 1) 1 sample_rows empty_state).
  - intros ts. apply length_map.
  - intros ts. apply Forall_forall. done.
  - intros d rs. eexists. reflexivity.
  - intros d. eexists. reflexivity.
  - intros d. eexists. reflexivity.
  - reflexivity.
  - intros sch. eexists. reflexivity.
Defined.
