(* ===== verification/Search.v ===== *)
(** * [test.py]: querying the collection

    Lines 10-32 of [src/HW-03/test.py] embed the query ["Triple A"], take
    [query_embeddings[0]] ([IndexError] if the model returns nothing), call
    [client.search] with [limit=5] and [output_fields=["term_name"]], log a
    header line and then, for [idx, hit in enumerate(search_result[0],
    start=1)], one line with [idx], [hit['id']],
    [hit['entity']['term_name']] ([KeyError] when the entity lacks it) and
    [hit['distance']].

    Search is a service of the Milvus client: [MilvusSearch] is its
    interface and [MilvusSearchLaws] what a search promises: one result list
    per query vector, at most [limit] hits in each, and hits whose
    requested [term_name] is the term of a row of the collection.  The
    distance type [D] is left abstract (the script only logs it).

    [query_script] only reads the client.  It searches the collection named
    on line 17 of [test.py], [query_collection], which is the
    [collection_name] of [create_db.py].  The composition theorem
    [logged_terms_from_column] runs [CreateDb.create_db] and then the query:
    every term name the query logs is a term of the CSV column. *)

From stdpp Require Import strings.
From S2P Require Import Prelude PyStr PyDict Batching CreateDb.

(** A search hit: [hit['id']], [hit['distance']], [hit['entity']]. *)
Record hit (D : Type) := mkHit { hit_id : nat; hit_distance : D; hit_entity : list (pystr * pystr) }.
Arguments mkHit {D} _ _ _.
Arguments hit_id {D} _.
Arguments hit_distance {D} _.
Arguments hit_entity {D} _.

(** [client.search(collection_name, data, limit, output_fields)]. *)
Class MilvusSearch (db vec D : Type) := {
  search : db -> pystr -> list vec -> nat -> list pystr -> option (list (list (hit D)));
}.

Class MilvusSearchLaws (db vec D : Type) `{!MilvusClient db vec, !MilvusSearch db vec D} := {
  search_shape d n qs k fs res : search d n qs k fs = Some res -> length res = length qs;
  search_limit d n qs k fs res hs : search d n qs k fs = Some res -> hs ∈ res -> length hs <= k;
  search_sound d n qs k fs res hs h :
    search d n qs k fs = Some res -> hs ∈ res -> h ∈ hs -> s_ "term_name" ∈ fs ->
    exists r, r ∈ contents d n /\ dict_get (s_ "term_name") (hit_entity h) = Some (term_name r);
}.

(** Line 17 of [test.py]: [collection_name = "financial_concepts"]. *)
Definition query_collection : pystr := s_ "financial_concepts".

(** The lines [test.py] logs. *)
Inductive qlog (D : Type) :=
| QHeader (query : pystr)
| QHit (idx id : nat) (name : pystr) (distance : D).
Arguments QHeader {D} _.
Arguments QHit {D} _ _ _ _.

Section query.
Context {db vec D : Type} `{!MilvusClient db vec, !MilvusSearch db vec D}.
Variable embedding_function : list pystr -> list vec.

Abbreviation Q := (stm (db * list (qlog D))).

Definition qlog_line (e : qlog D) : Q unit := stm_modify (fun s => (s.1, s.2 ++ [e])).

(** [hit['entity']['term_name']] *)
Definition entity_term (h : hit D) : pyres pystr :=
  match dict_get (s_ "term_name") (hit_entity h) with
  | Some n => POk n
  | None => PRaise KeyError
  end.

(** Lines 31-32: [for idx, hit in enumerate(hits, start=1)]. *)
Fixpoint log_hits (idx : nat) (hits : list (hit D)) : Q unit :=
  match hits with
  | [] => mret tt
  | h :: rest =>
      name ← stm_lift (entity_term h);
      qlog_line (QHit idx (hit_id h) name (hit_distance h));;
      log_hits (S idx) rest
  end.

(** Lines 19-32. *)
Definition query_script (query : pystr) : Q unit :=
  v ← stm_lift (py_index (embedding_function [query]) 0);
  s ← stm_get;
  match search s.1 query_collection [v] 5 [s_ "term_name"] with
  | None => stm_raise ServiceError
  | Some res =>
      qlog_line (QHeader query);;
      hits ← stm_lift (py_index res 0);
      log_hits 1 hits
  end.
End query.

(** [query] of line 19. *)
Definition triple_a : pystr := s_ "Triple A".

(** The numbers of the hit lines of a log. *)
Definition hit_indices {D} (l : list (qlog D)) : list nat :=
  omap (fun e => match e with QHit i _ _ _ => Some i | _ => None end) l.

Section facts.
Context {db vec D : Type} `{!MilvusClient db vec, !MilvusSearch db vec D}.
Variable emb : list pystr -> list vec.

(** The loop logs only names of entities, and numbers every hit when it
    completes. *)
Lemma log_hits_spec idx (hits : list (hit D)) d l :
  exists r ls, log_hits (db := db) idx hits (d, l) = (r, (d, l ++ ls)) /\
    (forall i id n x, QHit i id n x ∈ ls -> exists h, h ∈ hits /\ entity_term h = POk n) /\
    (r = POk tt -> hit_indices ls = seq idx (length hits)).
Proof.
  revert idx l. induction hits as [|h rest IH]; intros idx l.
  { exists (POk tt), []. rewrite app_nil_r. split; [done|]. split; [|done].
    intros ???? Hin. by apply not_elem_of_nil in Hin. }
  simpl. unfold mbind at 1, stm_bind at 1, stm_lift. destruct (entity_term h) as [n|e] eqn:He.
  - destruct (IH (S idx) (l ++ [QHit idx (hit_id h) n (hit_distance h)])) as (r & ls & Hrun & Hnames & Hidx).
    exists r, (QHit idx (hit_id h) n (hit_distance h) :: ls).
    unfold mbind, stm_bind, qlog_line, stm_modify. cbn [fst snd]. rewrite Hrun, <- app_assoc. split; [done|].
    split.
    + intros i id n' x [Heq|Hin]%elem_of_cons; [injection Heq as -> -> -> ->; exists h; split; [left|done]|].
      destruct (Hnames _ _ _ _ Hin) as (h' & Hh' & Hn'). exists h'. split; [by right|done].
    + intros Hr. simpl. by rewrite (Hidx Hr).
  - exists (PRaise e), []. rewrite app_nil_r. split; [done|]. split; [|discriminate].
    intros ???? Hin. by apply not_elem_of_nil in Hin.
Qed.

Context `{!MilvusSearchLaws db vec D}.

(** [query_script] leaves the client alone; every hit line it logs names
    the term of a row of the collection; when it completes, it logged the
    header and then hit lines numbered [1 .. m] with [m <= 5]. *)
Lemma query_script_spec q d l r d' l' :
  query_script emb q (d, l) = (r, (d', l')) ->
  d' = d /\ exists ls, l' = l ++ ls /\
    (forall i id n x, QHit i id n x ∈ ls -> exists row, row ∈ contents d query_collection /\ n = term_name row) /\
    (r = POk tt -> exists m rest, ls = QHeader q :: rest /\ m <= 5 /\ hit_indices rest = seq 1 m).
Proof.
  unfold query_script, mbind, stm_bind, stm_lift, stm_get. unfold py_index at 1.
  destruct (emb [q] !! 0) as [v|]; [|intros H; injection H as <- <- <-; split; [done|];
    exists []; rewrite app_nil_r; split; [done|]; split; [intros ???? Hin; by apply not_elem_of_nil in Hin|discriminate]].
  cbn [fst]. destruct (search d query_collection [v] 5 [s_ "term_name"]) as [res|] eqn:Hs.
  2:{ intros H. injection H as <- <- <-. split; [done|]. exists []. rewrite app_nil_r. split; [done|].
      split; [intros ???? Hin; by apply not_elem_of_nil in Hin|discriminate]. }
  unfold qlog_line, stm_modify. cbn [fst snd]. unfold py_index.
  destruct (res !! 0) as [hits|] eqn:Hr0.
  2:{ intros H. injection H as <- <- <-. split; [done|]. exists [QHeader q]. split; [done|].
      split; [|discriminate]. intros ???? Hin. apply list_elem_of_singleton in Hin. discriminate. }
  destruct (log_hits_spec 1 hits d (l ++ [QHeader q])) as (r1 & ls & Hrun & Hnames & Hidx).
  rewrite Hrun. intros H. injection H as <- <- <-. split; [done|].
  exists (QHeader q :: ls). split; [by rewrite <- app_assoc|]. split.
  - intros i id n x [Heq|Hin]%elem_of_cons; [discriminate|].
    destruct (Hnames _ _ _ _ Hin) as (h & Hh & Hn). unfold entity_term in Hn.
    apply list_elem_of_lookup_2 in Hr0.
    destruct (search_sound _ _ _ _ _ _ _ _ Hs Hr0 Hh ltac:(set_solver)) as (row & Hrow & Ht).
    rewrite Ht in Hn. injection Hn as <-. by exists row.
  - intros Hok. exists (length hits), ls. split; [done|]. split; [|by apply Hidx].
    apply list_elem_of_lookup_2 in Hr0. by apply (search_limit _ _ _ _ _ _ _ Hs Hr0).
Qed.
End facts.

(** ** An in-memory search *)

(** The first [k] rows of the collection, in insertion order, as hits;
    the distance is the row's vector itself. *)
#[export] Instance mem_search : MilvusSearch (list (pystr * list (record nat))) nat nat := {
  search d n qs k fs :=
    Some (map (fun _ => take k (imap (fun i r => mkHit i (vector r)
             (if bool_decide (s_ "term_name" ∈ fs) then [(s_ "term_name", term_name r)] else []))
             (default [] (dict_get n d)))) qs);
}.

#[export] Instance mem_search_laws : MilvusSearchLaws (list (pystr * list (record nat))) nat nat.
Proof.
  split.
  - intros d n qs k fs res H. injection H as <-. apply length_map.
  - intros d n qs k fs res hs H Hhs. injection H as <-. apply list_elem_of_fmap in Hhs as (_ & -> & _).
    rewrite length_take. lia.
  - intros d n qs k fs res hs h H Hhs Hh Hfs. injection H as <-. apply list_elem_of_fmap in Hhs as (_ & -> & _).
    apply subseteq_take in Hh. apply list_elem_of_lookup in Hh as [i Hi].
    rewrite list_lookup_imap in Hi. destruct (default [] (dict_get n d) !! i) as [r|] eqn:Er; [|discriminate].
    injection Hi as <-. exists r. split; [by eapply list_elem_of_lookup_2|]. simpl.
    rewrite bool_decide_eq_true_2 by done. reflexivity.
Qed.

(** The two scripts name the same collection: line 17 of [test.py] and
    line 45 of [create_db.py]. *)
Lemma query_collection_is_collection_name : query_collection = collection_name.
Proof. reflexivity. Qed.

(** * Properties *)

Section properties.
Context {db vec D : Type} `{!MilvusClient db vec, !MilvusSearch db vec D}.
Context `{!MilvusLaws db vec, !MilvusSearchLaws db vec D}.
Variable emb : list pystr -> list vec.

(** (C17) Composition of [create_db.py] and [test.py]: after the
    collection is built from a CSV column (all service calls succeeding,
    one vector per term), any run of the query, even one that stops on an
    exception, logs only term names that are terms of the column. *)
Theorem logged_terms_from_column sch column s d1 q :
  (forall ts, length (emb ts) = length ts) -> (forall d rs, is_Some (insert d collection_name rs)) ->
  (forall d, is_Some (create_index d collection_name vector_index)) ->
  (forall d, is_Some (load_collection d loaded_collection)) ->
  has_collection (st_db s) collection_name = false -> create_collection (st_db s) collection_name sch = Some d1 ->
  exists s', create_db emb sch column s = (POk tt, s') /\
    forall r d' l, query_script emb q (st_db s', []) = (r, (d', l)) ->
      forall i id n x, QHit i id n x ∈ l -> n ∈ terms_of column.
Proof.
  intros Hlen Hok Hidx Hload Hh Hc.
  destruct (create_db_run emb sch column s d1 Hlen Hok Hidx Hload Hh Hc) as (s' & Hrun & _ & Hnames).
  exists s'. split; [done|]. intros r d' l Hq i id n x Hin.
  destruct (query_script_spec emb q (st_db s') [] r d' l Hq) as (_ & ls & -> & Hls & _).
  destruct (Hls _ _ _ _ Hin) as (row & Hrow & ->). rewrite query_collection_is_collection_name in Hrow.
  rewrite <- Hnames. by apply list_elem_of_fmap_2.
Qed.

(** (C35) Output of [test.py]: a completed query leaves the collection
    unchanged and logs the header line, then hit lines numbered
    [1, 2, ..., m] (from [enumerate(..., start=1)]) with [m <= 5], the
    [limit] of the search. *)
Theorem query_log_bounds q d d' l :
  query_script emb q (d, []) = (POk tt, (d', l)) ->
  d' = d /\ exists m rest, l = QHeader q :: rest /\ m <= 5 /\ hit_indices rest = seq 1 m.
Proof.
  intros Hq. destruct (query_script_spec emb q d [] _ d' l Hq) as (-> & ls & -> & _ & Hok).
  split; [done|]. exact (Hok eq_refl).
Qed.
End properties.

(** The collection of two rows the witnesses query. *)
Definition sample_db : list (pystr * list (record nat)) :=
  [(s_ "financial_concepts", [mkRecord 8 (s_ "AAA bond"); mkRecord 2 (s_ "NA")])].

Definition triple_a_log : list (qlog nat) :=
  snd (snd (query_script toy_embedding triple_a (sample_db, []))).

Lemma query_log_bounds_witness :
  sample_db = sample_db /\ exists m rest, triple_a_log = QHeader triple_a :: rest /\ m <= 5 /\
    hit_indices rest = seq 1 m.
Proof. apply (query_log_bounds toy_embedding triple_a sample_db sample_db triple_a_log). vm_compute. reflexivity. Defined.

Lemma logged_terms_from_column_witness :
  exists s', create_db toy_embedding toy_schema sample_column empty_state = (POk tt, s') /\
    forall r d' l, query_script toy_embedding triple_a (st_db s', []) = (r, (d', l)) ->
      forall i id n x, QHit i id n x ∈ l -> n ∈ terms_of sample_column.
Proof.
  apply (logged_terms_from_column toy_embedding toy_schema sample_column empty_state [(collection_name, [])] triple_a).
  - intros ts. apply length_map.
  - intros d rs. eexists. reflexivity.
  - intros d. eexists. reflexivity.
  - intros d. eexists. reflexivity.
  - reflexivity.
  - reflexivity.
Defined.
