(* ===== verification/LoadFile.v ===== *)
(** * [load_file.py]: loading one file and packaging the documents

    [load_file(input_file)] (lines 22-67 of [src/HW-05/load_file.py]) takes
    the extension with [os.path.splitext(input_file)[1].lower()], loads the
    file with llama_index's [SimpleDirectoryReader], and for a [.pdf] whose
    documents are missing or all blank prints a message (line 43) and loads
    it again with LlamaParse; [load_documents] returns the documents with
    the text written to stdout.  It
    returns the dictionary
    [{"file_count": n, "documents": [doc_info, ...]}] built by appending one
    [doc_info] per document, numbered from 1.  [chunk_file] (lines 69-79)
    returns the module-level name [result].

    The two readers are libraries: they are section variables from a path
    to its documents.  A document is its text and its metadata dict; Python
    values that the result holds are [pyval].  [splitext] follows CPython's
    [genericpath._splitext] with [sep = '/'] and [extsep = '.'].  The
    module's globals are an association list, so that [chunk_file] reads
    [result] from them: it exists only after the [__main__] block ran. *)

From S2P Require Import Prelude PyStr PyDict.
From stdpp Require Import strings.

(** The Python values of the result. *)
Inductive pyval :=
| VInt (n : nat)
| VStr (s : pystr)
| VList (l : list pyval)
| VDict (d : list (pystr * pyval)).

Record doc := mkDoc { doc_text : pystr; doc_metadata : list (pystr * pyval) }.

(** ["SimpleDirectoryReader解析结果为空，尝试使用LlamaParse..."], line 43. *)
Definition fallback_message : pystr :=
  s_ "SimpleDirectoryReader" ++ [0x89e3%N; 0x6790%N; 0x7ed3%N; 0x679c%N; 0x4e3a%N; 0x7a7a%N; 0xff0c%N;
  0x5c1d%N; 0x8bd5%N; 0x4f7f%N; 0x7528%N] ++ s_ "LlamaParse...".

Definition slash : N := 47%N.
Definition dot : N := 46%N.

(** [s.rfind(c)], [None] for [-1]. *)
Fixpoint rfind_from (c : N) (i : nat) (s : pystr) (acc : option nat) : option nat :=
  match s with
  | [] => acc
  | x :: s' => rfind_from c (S i) s' (if (x =? c)%N then Some i else acc)
  end.

Definition rfind (c : N) (s : pystr) : option nat := rfind_from c 0 s None.

(** [genericpath._splitext(p, '/', None, '.')]: the extension starts at the
    last dot if it lies in the last path component and something other
    than dots precedes it there. *)
Definition splitext (p : pystr) : pystr * pystr :=
  let start := match rfind slash p with Some i => S i | None => 0 end in
  match rfind dot p with
  | Some d =>
      if decide (start <= d) then
        if existsb (fun c => negb (c =? dot)%N) (take (d - start) (drop start p))
        then (take d p, drop d p)
        else (p, [])
      else (p, [])
  | None => (p, [])
  end.

(** ASCII lower-casing.  [str.lower()] maps no other code point to ['.'],
    ['p'], ['d'] or ['f'], so [ext.lower() == '.pdf'] is [is_pdf ext]. *)
Definition lower_ascii (c : N) : N := if ((65 <=? c) && (c <=? 90))%N then (c + 32)%N else c.

(** Line 33 and the test of line 41. *)
Definition is_pdf (p : pystr) : bool := bool_decide (map lower_ascii (splitext p).2 = s_ ".pdf").

(** Line 42: [not documents or not any(doc.text.strip() for doc in documents)]. *)
Definition needs_llamaparse (documents : list doc) : bool :=
  bool_decide (documents = []) || negb (existsb (fun d => bool_decide (strip (doc_text d) <> [])) documents).

(** ['未知'] *)
Definition unknown : pyval := VStr [26410%N; 30693%N].

(** [doc.metadata.get(key, '未知')] *)
Definition meta_get (d : doc) (key : string) : pyval := default unknown (dict_get (s_ key) (doc_metadata d)).

(** Lines 54-64: [doc_info] of the [i]-th document. *)
Definition doc_info (i : nat) (d : doc) : pyval :=
  VDict [(s_ "index", VInt i); (s_ "file_name", meta_get d "file_name");
         (s_ "file_type", meta_get d "file_type"); (s_ "file_size", meta_get d "file_size");
         (s_ "creation_date", meta_get d "creation_date");
         (s_ "last_modified_date", meta_get d "last_modified_date");
         (s_ "content_length", VInt (length (doc_text d))); (s_ "content", VStr (doc_text d));
         (s_ "metadata", VDict (doc_metadata d))].

(** [result["documents"].append(doc_info)] on the dict [result]. *)
Definition append_document (result : list (pystr * pyval)) (info : pyval) : list (pystr * pyval) :=
  match dict_get (s_ "documents") result with
  | Some (VList l) => dict_set (s_ "documents") (VList (l ++ [info])) result
  | _ => result
  end.

(** Line 53: [for i, doc in enumerate(documents, 1)]. *)
Fixpoint package (i : nat) (documents : list doc) (result : list (pystr * pyval)) : list (pystr * pyval) :=
  match documents with
  | [] => result
  | d :: rest => package (S i) rest (append_document result (doc_info i d))
  end.

Section load.
Variable dir_load : pystr -> list doc.
Variable llama_load : pystr -> list doc.

(** Lines 33-45: the documents [load_file] packages, and what line 43
    prints before falling back to LlamaParse. *)
Definition load_documents (input_file : pystr) : list doc * pystr :=
  let documents := dir_load input_file in
  if is_pdf input_file && needs_llamaparse documents
  then (llama_load input_file, print_line fallback_message)
  else (documents, []).

Definition documents_of (input_file : pystr) : list doc := (load_documents input_file).1.

(** [load_file(input_file)]: the dictionary it returns and what it prints. *)
Definition load_file (input_file : pystr) : pyval * pystr :=
  let '(documents, out) := load_documents input_file in
  (VDict (package 1 documents [(s_ "file_count", VInt (length documents)); (s_ "documents", VList [])]), out).

(** The [__main__] block: [result = load_file(...)] as a module global,
    and what the call printed. *)
Definition run_main (globals : list (pystr * pyval)) (input_file : pystr) : list (pystr * pyval) * pystr :=
  let '(result, out) := load_file input_file in (dict_set (s_ "result") result globals, out).
End load.

(** [chunk_file(loaded_response)]: [return result], a global name. *)
Definition chunk_file (globals : list (pystr * pyval)) (loaded_response : pyval) : pyres pyval :=
  match dict_get (s_ "result") globals with
  | Some v => POk v
  | None => PRaise NameError
  end.

(** * [rfind] and [splitext] *)

Lemma rfind_from_shift c s k acc :
  rfind_from c k s acc = match rfind_from c 0 s None with Some i => Some (k + i) | None => acc end.
Proof.
  revert k acc. induction s as [|x s IH]; intros k acc; simpl; [done|].
  rewrite IH, (IH 1). destruct (rfind_from c 0 s None) as [i|]; [f_equal; lia|].
  destruct (x =? c)%N; [f_equal; lia|done].
Qed.

Lemma rfind_cons c x s :
  rfind c (x :: s) = match rfind c s with Some i => Some (S i) | None => if (x =? c)%N then Some 0 else None end.
Proof. unfold rfind. simpl. rewrite rfind_from_shift. by destruct (rfind_from c 0 s None). Qed.

(** [rfind] finds the last occurrence. *)
Lemma rfind_Some c s i :
  rfind c s = Some i -> s !! i = Some c /\ c ∉ drop (S i) s.
Proof.
  revert i. induction s as [|x s IH]; intros i H; [discriminate|]. rewrite rfind_cons in H.
  destruct (rfind c s) as [j|] eqn:E in H.
  - injection H as <-. apply IH in E as [Hj Hd]. done.
  - destruct (N.eqb_spec x c) as [->|]; [|discriminate]. injection H as <-. simpl. split; [done|].
    intros Hin. revert E. clear -Hin. induction s as [|y s IH]; [by apply not_elem_of_nil in Hin|].
    rewrite rfind_cons. destruct (rfind c s); [discriminate|].
    apply elem_of_cons in Hin as [->|Hin]; [by rewrite N.eqb_refl|]. intros _. by apply IH.
Qed.

Lemma rfind_None c s : rfind c s = None -> c ∉ s.
Proof.
  induction s as [|x s IH]; intros H; [apply not_elem_of_nil|]. rewrite rfind_cons in H.
  destruct (rfind c s); [discriminate|]. destruct (N.eqb_spec x c); [discriminate|].
  rewrite elem_of_cons. intros [->|Hin]; [done|]. by apply IH.
Qed.

Lemma rfind_lt c s i : rfind c s = Some i -> i < length s.
Proof. intros H. apply rfind_Some in H as [H _]. by apply lookup_lt_Some in H. Qed.

Lemma splitext_app p : (splitext p).1 ++ (splitext p).2 = p.
Proof.
  unfold splitext. destruct (rfind dot p); [|apply app_nil_r].
  case_decide; [|apply app_nil_r]. destruct (existsb _ _); [apply take_drop|apply app_nil_r].
Qed.

(** The extension is empty, or a dot followed by no dot and no slash. *)
Lemma splitext_ext p :
  (splitext p).2 = [] \/ (exists rest, (splitext p).2 = dot :: rest /\ (dot ∉ rest) /\ (slash ∉ rest)).
Proof.
  unfold splitext. destruct (rfind dot p) as [d|] eqn:Ed; [|by left].
  case_decide as Hle; [|by left]. destruct (existsb _ _); [|by left]. right. simpl.
  destruct (rfind_Some _ _ _ Ed) as [Hd Hnd].
  exists (drop (S d) p). rewrite (drop_S _ _ _ Hd). split; [done|]. split; [done|].
  destruct (rfind slash p) as [sl|] eqn:Es.
  - destruct (rfind_Some _ _ _ Es) as [_ Hns]. intros Hin. apply Hns.
    rewrite <- (take_drop (d - sl) (drop (S sl) p)), drop_drop. apply elem_of_app. right.
    by replace (S sl + (d - sl)) with (S d) by lia.
  - apply rfind_None in Es. intros Hin. apply Es. exact (subseteq_drop _ _ _ Hin).
Qed.

(** * The result dictionary *)

Lemma append_document_two x l info :
  append_document [(s_ "file_count", x); (s_ "documents", VList l)] info =
    [(s_ "file_count", x); (s_ "documents", VList (l ++ [info]))].
Proof. reflexivity. Qed.

(** The loop appends the [doc_info] of every document, numbered from [i]. *)
Lemma package_two i documents x l :
  package i documents [(s_ "file_count", x); (s_ "documents", VList l)] =
    [(s_ "file_count", x); (s_ "documents", VList (l ++ imap (fun j d => doc_info (i + j) d) documents))].
Proof.
  revert i l. induction documents as [|d rest IH]; intros i l; simpl; [by rewrite app_nil_r|].
  rewrite append_document_two, IH, <- app_assoc. simpl. rewrite Nat.add_0_r.
  do 6 f_equal. apply imap_ext. intros j y _. simpl. f_equal. lia.
Qed.

Lemma needs_llamaparse_spec documents :
  needs_llamaparse documents = true <-> Forall (fun d => strip (doc_text d) = []) documents.
Proof.
  unfold needs_llamaparse. rewrite orb_true_iff, negb_true_iff, bool_decide_eq_true.
  induction documents as [|d rest IH]; simpl; [split; [done|by left]|].
  rewrite Forall_cons_iff, orb_false_iff, bool_decide_eq_false, <- IH. split.
  - intros [Hnil|[Hd Hr]]; [discriminate|]. split; [apply dec_stable; done|].
    destruct rest; [by left|right; done].
  - intros [Hd [Hnil|Hr]]; right; [subst; split; [by intros ?|done]|split; [by intros ?|done]].
Qed.

(** * Properties *)

(** (C36) [load_file] returns [{"file_count": n, "documents": [...]}] with
    one [doc_info] per document in order, the [j]-th numbered [j] from 1,
    where the documents are LlamaParse's for a PDF whose reader documents
    are missing or blank, and the reader's otherwise. *)
Theorem load_file_result dir_load llama_load input_file :
  (load_file dir_load llama_load input_file).1 =
    VDict [(s_ "file_count", VInt (length (documents_of dir_load llama_load input_file)));
           (s_ "documents", VList (imap (fun j d => doc_info (S j) d) (documents_of dir_load llama_load input_file)))].
Proof. unfold load_file, documents_of. destruct (load_documents _ _ _) as [ds out]. simpl. by rewrite package_two. Qed.

(** (C37) LlamaParse is used exactly for a PDF whose reader documents all
    have blank text (or that has none), and then, and only then, line 43
    prints its message; any other file keeps the reader's documents and
    prints nothing. *)
Theorem documents_of_fallback dir_load llama_load input_file :
  load_documents dir_load llama_load input_file =
    if is_pdf input_file && bool_decide (Forall (fun d => strip (doc_text d) = []) (dir_load input_file))
    then (llama_load input_file, print_line fallback_message) else (dir_load input_file, []).
Proof.
  unfold load_documents. destruct (is_pdf input_file); [simpl|done].
  destruct (needs_llamaparse (dir_load input_file)) eqn:E.
  - apply needs_llamaparse_spec in E. by rewrite bool_decide_eq_true_2.
  - rewrite bool_decide_eq_false_2; [done|]. by rewrite <- needs_llamaparse_spec, E.
Qed.

(** (C38) [chunk_file] does not chunk: it ignores its argument and returns
    the module global [result].  Imported as a module, where [result] is
    not defined, it raises [NameError] whatever it is given; after the
    [__main__] block it returns the loaded result. *)
Theorem chunk_file_returns_global globals dir_load llama_load input_file loaded :
  (dict_get (s_ "result") globals = None -> chunk_file globals loaded = PRaise NameError) /\
  chunk_file (run_main dir_load llama_load globals input_file).1 loaded =
    POk (load_file dir_load llama_load input_file).1.
Proof.
  split; [intros H; unfold chunk_file; by rewrite H|].
  unfold chunk_file, run_main. destruct (load_file _ _ _) as [v out]. simpl. by rewrite dict_get_set_eq.
Qed.

(** The PDF test: a path whose extension is [.PDF] in any case is a
    PDF; [.pdf] as a whole file name, [.pdf] before another extension, and
    [.pdf] in a directory name are not. *)
Example is_pdf_cases :
  is_pdf (s_ "docs/report.PDF") = true /\ is_pdf (s_ "docs/.pdf") = false /\
  is_pdf (s_ "report.pdf.zip") = false /\ is_pdf (s_ "scan.pdf/page1") = false.
Proof. vm_compute. repeat split. Qed.
