(* ===== verification/Json.v ===== *)
(** * The [__main__] block of [load_file.py]: printing the result as JSON

    Lines 81-86 of [src/HW-05/load_file.py] load one PDF into the module
    global [result] and print a header line and then
    [json.dumps(result, ensure_ascii=False, indent=2)].

    [json.dumps] is the standard library's: with an [indent] it runs the
    pure-Python encoder [json.encoder._make_iterencode] (the C encoder is
    used only without indentation), with [item_separator = ','] and
    [key_separator = ': '].  A non-empty dict is written ['{'], then
    ['\n' + '  ' * level] before each item, the items separated by [','],
    then ['\n' + '  ' * (level - 1)] and ['}']; an empty one is ['{}'];
    lists likewise with brackets.  With [ensure_ascii=False] strings go
    through [py_encode_basestring]: the quote, the backslash and the control
    characters below U+0020 are escaped ([\n], [\r], [\t], [\b], [\f] by
    name, the others as [\u00XX] in lower-case hexadecimal), every other
    code point is written as it is.  Integers are written by
    [int.__repr__]: stdpp's [pretty] on [N].

    [json_read] is a reader for the JSON grammar (RFC 8259) restricted to
    the values of [pyval] (strings, non-negative integers, arrays, objects
    as lists of pairs in order): a recursive descent whose fuel is the
    length of the text.  [json_loads] accepts whitespace around the value,
    as [json.loads] does, and nothing else after it.  It is the
    specification of what the printed text denotes: the round trip
    [json_loads (dumps v) = Some v] says that the printed text is the
    result dictionary and nothing else. *)

From stdpp Require Import strings pretty.
From Stdlib Require Import NArith Ascii.
From S2P Require Import Prelude PyStr PyDict LoadFile.

Local Open Scope N_scope.

(** ** The encoder *)

(** [int.__repr__] of a non-negative integer. *)
Definition int_repr (n : nat) : pystr := s_ (pretty (N.of_nat n)).

(** A hexadecimal digit of ['{0:04x}'.format(i)]. *)
Definition hex_digit (d : N) : N := if d <? 10 then 48 + d else 87 + d.

(** [ESCAPE_DCT] of [json.encoder], applied to one code point. *)
Definition escape_char (c : N) : pystr :=
  if c =? 34 then [92; 34]
  else if c =? 92 then [92; 92]
  else if c =? 10 then [92; 110]
  else if c =? 13 then [92; 114]
  else if c =? 9 then [92; 116]
  else if c =? 8 then [92; 98]
  else if c =? 12 then [92; 102]
  else if c <? 32 then [92; 117; 48; 48; hex_digit (c / 16); hex_digit (c mod 16)]
  else [c].

(** [py_encode_basestring(s)]: ['"' + ESCAPE.sub(replace, s) + '"']. *)
Definition encode_basestring (s : pystr) : pystr := [34] ++ concat (map escape_char s) ++ [34].

(** ['\n' + _indent * _current_indent_level] with [_indent = '  ']. *)
Definition newline_indent (lvl : nat) : pystr := nl :: replicate (2 * lvl) 32.

(** [_iterencode(o, _current_indent_level)], its pieces concatenated. *)
Fixpoint iterencode (lvl : nat) (v : pyval) : pystr :=
  match v with
  | VInt n => int_repr n
  | VStr s => encode_basestring s
  | VList [] => s_ "[]"
  | VList l =>
      [91] ++ newline_indent (S lvl)
        ++ str_join (44 :: newline_indent (S lvl)) (map (iterencode (S lvl)) l)
        ++ newline_indent lvl ++ [93]
  | VDict [] => s_ "{}"
  | VDict d =>
      [123] ++ newline_indent (S lvl)
        ++ str_join (44 :: newline_indent (S lvl))
             (map (fun '(k, x) => encode_basestring k ++ s_ ": " ++ iterencode (S lvl) x) d)
        ++ newline_indent lvl ++ [125]
  end.

(** [json.dumps(v, ensure_ascii=False, indent=2)] *)
Definition dumps (v : pyval) : pystr := iterencode 0 v.

(** ** The reader *)

(** JSON's whitespace: space, tab, newline, carriage return. *)
Definition is_ws (c : N) : bool := (c =? 32) || (c =? 9) || (c =? 10) || (c =? 13).

Fixpoint skip_ws (s : pystr) : pystr :=
  match s with
  | c :: s' => if is_ws c then skip_ws s' else s
  | [] => []
  end.

Definition is_digit (c : N) : bool := (48 <=? c) && (c <=? 57).

(** The digits after the first one of an integer, accumulated. *)
Fixpoint read_digits (acc : N) (s : pystr) : N * pystr :=
  match s with
  | c :: s' => if is_digit c then read_digits (acc * 10 + (c - 48)) s' else (acc, s)
  | [] => (acc, [])
  end.

(** The value of a hexadecimal digit. *)
Definition hex_val (c : N) : option N :=
  if is_digit c then Some (c - 48)
  else if (97 <=? c) && (c <=? 102) then Some (c - 87)
  else if (65 <=? c) && (c <=? 70) then Some (c - 55)
  else None.

(** The code point of a two-character escape: backslash followed by the
    quote, the backslash, [/], [b], [f], [n], [r] or [t]. *)
Definition unescape (e : N) : option N :=
  if e =? 34 then Some 34
  else if e =? 92 then Some 92
  else if e =? 47 then Some 47
  else if e =? 98 then Some 8
  else if e =? 102 then Some 12
  else if e =? 110 then Some 10
  else if e =? 114 then Some 13
  else if e =? 116 then Some 9
  else None.

(** The body of a string after its opening quote: its code points and the
    text after the closing quote.  A raw control character is an error. *)
Fixpoint read_str (s : pystr) : option (pystr * pystr) :=
  match s with
  | [] => None
  | c :: s' =>
      if c =? 34 then Some ([], s')
      else if c =? 92 then
        match s' with
        | [] => None
        | e :: r =>
            if e =? 117 then
              match r with
              | a :: b :: d :: f :: r' =>
                  x1 ← hex_val a; x2 ← hex_val b; x3 ← hex_val d; x4 ← hex_val f;
                  '(t, rest) ← read_str r';
                  Some ((((x1 * 16 + x2) * 16 + x3) * 16 + x4) :: t, rest)
              | _ => None
              end
            else
              x ← unescape e;
              '(t, rest) ← read_str r;
              Some (x :: t, rest)
        end
      else if c <? 32 then None
      else '(t, rest) ← read_str s'; Some (c :: t, rest)
  end.

(** A value, the elements of an array after its ['['], the members of an
    object after its ['{'] (both non-empty), each with the text after
    them. *)
Fixpoint read_value (fuel : nat) (s : pystr) : option (pyval * pystr) :=
  match fuel with
  | O => None
  | S f =>
      match skip_ws s with
      | [] => None
      | c :: r =>
          if c =? 34 then '(t, rest) ← read_str r; Some (VStr t, rest)
          else if c =? 91 then
            match skip_ws r with
            | c' :: r' => if c' =? 93 then Some (VList [], r') else '(l, rest) ← read_elems f r; Some (VList l, rest)
            | [] => None
            end
          else if c =? 123 then
            match skip_ws r with
            | c' :: r' => if c' =? 125 then Some (VDict [], r') else '(d, rest) ← read_members f r; Some (VDict d, rest)
            | [] => None
            end
          else if c =? 48 then Some (VInt 0, r)
          else if is_digit c then let '(n, rest) := read_digits (c - 48) r in Some (VInt (N.to_nat n), rest)
          else None
      end
  end
with read_elems (fuel : nat) (s : pystr) : option (list pyval * pystr) :=
  match fuel with
  | O => None
  | S f =>
      '(v, r) ← read_value f s;
      match skip_ws r with
      | c :: r' =>
          if c =? 44 then '(l, rest) ← read_elems f r'; Some (v :: l, rest)
          else if c =? 93 then Some ([v], r')
          else None
      | [] => None
      end
  end
with read_members (fuel : nat) (s : pystr) : option (list (pystr * pyval) * pystr) :=
  match fuel with
  | O => None
  | S f =>
      match skip_ws s with
      | c :: r =>
          if c =? 34 then
            '(k, r1) ← read_str r;
            match skip_ws r1 with
            | c1 :: r2 =>
                if c1 =? 58 then
                  '(v, r3) ← read_value f r2;
                  match skip_ws r3 with
                  | c3 :: r4 =>
                      if c3 =? 44 then '(d, rest) ← read_members f r4; Some ((k, v) :: d, rest)
                      else if c3 =? 125 then Some ([(k, v)], r4)
                      else None
                  | [] => None
                  end
                else None
            | [] => None
            end
          else None
      | [] => None
      end
  end.

(** [json.loads(s)]: one value, whitespace around it. *)
Definition json_loads (s : pystr) : option pyval :=
  '(v, rest) ← read_value (length s) s;
  if decide (skip_ws rest = []) then Some v else None.

(** ** The [__main__] block *)

(** ["90-文档-Data/山西文旅/佛光寺-ch.pdf"], line 83. *)
Definition main_input : pystr :=
  s_ "90-" ++ [0x6587; 0x6863] ++ s_ "-Data/" ++ [0x5c71; 0x897f; 0x6587; 0x65c5] ++ s_ "/"
    ++ [0x4f5b; 0x5149; 0x5bfa] ++ s_ "-ch.pdf".

(** ["\n返回的JSON数据:"], line 85. *)
Definition main_header : pystr :=
  nl :: [0x8fd4; 0x56de; 0x7684] ++ s_ "JSON" ++ [0x6570; 0x636e] ++ s_ ":".

Section main.
Variable dir_load : pystr -> list doc.
Variable llama_load : pystr -> list doc.

(** Lines 81-86: the globals after [result = load_file(...)] and what is
    written to stdout: what [load_file] printed, then the two [print]
    calls; the second reads the global [result]. *)
Definition main_block (globals : list (pystr * pyval)) : pyres (list (pystr * pyval) * pystr) :=
  let '(g, out) := run_main dir_load llama_load globals main_input in
  match dict_get (s_ "result") g with
  | Some result => POk (g, out ++ print_line main_header ++ print_line (dumps result))
  | None => PRaise NameError
  end.
End main.

(** * Lemmas *)

(** Induction on [pyval] with the hypothesis on every element of a list
    and every value of a dict. *)
Definition pyval_ind' (P : pyval -> Prop)
    (fint : forall n, P (VInt n)) (fstr : forall s, P (VStr s))
    (flist : forall l, Forall P l -> P (VList l))
    (fdict : forall d, Forall (fun kv => P kv.2) d -> P (VDict d)) : forall v, P v :=
  fix F v :=
    match v with
    | VInt n => fint n
    | VStr s => fstr s
    | VList l => flist l ((fix G l : Forall P l :=
                            match l with
                            | [] => Forall_nil_2 P
                            | x :: l' => Forall_cons_2 P x l' (F x) (G l')
                            end) l)
    | VDict d => fdict d ((fix G d : Forall (fun kv => P kv.2) d :=
                            match d with
                            | [] => Forall_nil_2 _
                            | kv :: d' => Forall_cons_2 (fun kv => P kv.2) kv d' (F kv.2) (G d')
                            end) d)
    end.

(** ** Whitespace *)

Definition ws_only (w : pystr) : Prop := Forall (fun c => is_ws c = true) w.

Lemma skip_ws_app w s : ws_only w -> skip_ws (w ++ s) = skip_ws s.
Proof. induction 1 as [|c w Hc _ IH]; [done|]. simpl. by rewrite Hc. Qed.

Lemma skip_ws_stop c s : is_ws c = false -> skip_ws (c :: s) = c :: s.
Proof. intros Hc. simpl. by rewrite Hc. Qed.

Lemma ws_only_newline_indent lvl : ws_only (newline_indent lvl).
Proof. constructor; [done|]. apply Forall_replicate. done. Qed.

Lemma ws_only_space : ws_only [32].
Proof. by repeat constructor. Qed.

#[local] Hint Resolve ws_only_newline_indent ws_only_space : core.

Lemma read_value_ws f w s : ws_only w -> read_value f (w ++ s) = read_value f s.
Proof. intros Hw. destruct f; [done|]. simpl. by rewrite skip_ws_app. Qed.

Lemma read_value_space f s : read_value f (32 :: s) = read_value f s.
Proof. exact (read_value_ws f [32] s ws_only_space). Qed.

(** ** Strings *)

(** Case analysis on the comparisons of [N] in the goal, the impossible
    cases closed by [lia]. *)
Ltac N_cmp :=
  repeat match goal with
  | |- context [?a <=? ?b] => destruct (N.leb_spec a b); try (exfalso; lia)
  | |- context [?a <? ?b] => destruct (N.ltb_spec a b); try (exfalso; lia)
  | |- context [?a =? ?b] => destruct (N.eqb_spec a b); try (exfalso; lia)
  end.

Lemma hex_val_digit d : d < 16 -> hex_val (hex_digit d) = Some d.
Proof. intros Hd. unfold hex_digit, hex_val, is_digit. N_cmp; simpl; f_equal; lia. Qed.

(** The reader decodes what [escape_char] wrote. *)
Lemma read_str_escape_char c t :
  read_str (escape_char c ++ t) = '(u, r) ← read_str t; Some (c :: u, r).
Proof.
  unfold escape_char.
  destruct (N.eqb_spec c 34) as [->|H34]; [done|].
  destruct (N.eqb_spec c 92) as [->|H92]; [done|].
  destruct (N.eqb_spec c 10) as [->|H10]; [done|].
  destruct (N.eqb_spec c 13) as [->|H13]; [done|].
  destruct (N.eqb_spec c 9) as [->|H9]; [done|].
  destruct (N.eqb_spec c 8) as [->|H8]; [done|].
  destruct (N.eqb_spec c 12) as [->|H12]; [done|].
  destruct (N.ltb_spec c 32) as [Hc|Hc].
  - simpl app. unfold read_str; fold read_str. simpl N.eqb. cbv iota beta.
    rewrite !hex_val_digit by (try apply N.mod_lt; try apply N.Div0.div_lt_upper_bound; lia).
    cbv [mbind option_bind hex_val is_digit]. simpl. change (48 - 48) with 0.
    replace ((((0 * 16 + 0) * 16 + c / 16) * 16 + c mod 16)) with c; [done|].
    pose proof (N.div_mod c 16). lia.
  - cbn [app read_str]. rewrite (proj2 (N.eqb_neq c 34)), (proj2 (N.eqb_neq c 92)) by done.
    by rewrite (proj2 (N.ltb_ge c 32)) by lia.
Qed.

Lemma read_str_escape s rest :
  read_str (concat (map escape_char s) ++ 34 :: rest) = Some (s, rest).
Proof.
  induction s as [|c s IH]; [done|]. simpl. rewrite <- app_assoc, read_str_escape_char, IH. done.
Qed.

(** The encoding of a string, read back after its opening quote. *)
Lemma read_encoded s rest : read_str (tail (encode_basestring s) ++ rest) = Some (s, rest).
Proof. unfold encode_basestring. simpl. rewrite <- app_assoc. apply read_str_escape. Qed.

(** ** Integers *)

Lemma N_of_pretty_N_char k : k < 10 -> N_of_ascii (pretty_N_char k) = 48 + k.
Proof.
  intros Hk. assert (k = 0 \/ k = 1 \/ k = 2 \/ k = 3 \/ k = 4 \/ k = 5 \/ k = 6 \/ k = 7 \/ k = 8 \/ k = 9)
    as Hk' by lia.
  destruct_or! Hk'; by subst.
Qed.

(** [pretty_N_go x s] writes the digits of [x] in front of [s]. *)
Lemma s_pretty_N_go x s : 0 < x -> s_ (pretty_N_go x s) = s_ (pretty_N_go x "") ++ s_ s.
Proof.
  revert s. induction (N.lt_wf_0 x) as [x _ IH]; intros s Hx.
  rewrite !(pretty_N_go_step x) by done.
  destruct (N.ltb_spec x 10).
  - by rewrite N.div_small, !pretty_N_go_0.
  - assert (x `div` 10 < x) by (apply N.div_lt; lia).
    assert (0 < x `div` 10) by (apply N.div_str_pos; lia).
    rewrite (IH _ H0 (String _ s)), (IH _ H0 (String _ "")) by done.
    by rewrite <- app_assoc.
Qed.

(** The accumulation of [read_digits]. *)
Definition digits_val (acc : N) (ds : pystr) : N := foldl (fun a c => a * 10 + (c - 48)) acc ds.

(** The text after an integer does not continue it. *)
Definition stops (rest : pystr) : Prop :=
  match rest with [] => True | c :: _ => is_digit c = false end.

Lemma read_digits_app acc ds rest :
  Forall (fun c => is_digit c = true) ds -> stops rest -> read_digits acc (ds ++ rest) = (digits_val acc ds, rest).
Proof.
  intros Hds Hr. revert acc. induction Hds as [|c ds Hc _ IH]; intros acc.
  - destruct rest as [|c rest]; simpl in *; [done|]. by rewrite Hr.
  - simpl. rewrite Hc. apply IH.
Qed.

(** The digits of a positive number: the first is not ['0'], and reading
    them gives the number back. *)
Lemma pretty_digits x :
  0 < x -> exists d ds, s_ (pretty_N_go x "") = d :: ds /\ is_digit d = true /\ d <> 48 /\
    Forall (fun c => is_digit c = true) ds /\ digits_val (d - 48) ds = x.
Proof.
  induction (N.lt_wf_0 x) as [x _ IH]; intros Hx.
  rewrite pretty_N_go_step by done.
  destruct (N.ltb_spec x 10).
  - rewrite N.div_small, pretty_N_go_0 by done. unfold s_. simpl.
    rewrite N.mod_small, N_of_pretty_N_char by done.
    exists (48 + x), []. unfold is_digit. repeat split; [N_cmp; done|lia|constructor|]. simpl. lia.
  - assert (x `div` 10 < x) by (apply N.div_lt; lia).
    assert (0 < x `div` 10) by (apply N.div_str_pos; lia).
    rewrite s_pretty_N_go by done.
    destruct (IH _ H0 H1) as (d & ds & -> & Hd & Hd0 & Hds & Hv).
    unfold s_ at 1. simpl. rewrite N_of_pretty_N_char by (apply N.mod_lt; lia).
    exists d, (ds ++ [48 + x `mod` 10]). split; [done|]. split; [done|]. split; [done|]. split.
    + apply Forall_app. split; [done|]. constructor; [|done]. unfold is_digit.
      pose proof (N.mod_lt x 10 ltac:(lia)). remember (x `mod` 10) as m. N_cmp; done.
    + unfold digits_val in *. rewrite foldl_app, Hv. simpl.
      pose proof (N.div_mod x 10 ltac:(lia)). remember (x `div` 10) as q. remember (x `mod` 10) as m. lia.
Qed.

(** ** The first character of an encoding *)

Definition value_start (c : N) : bool := (c =? 34) || (c =? 91) || (c =? 123) || is_digit c.

Lemma int_repr_head n : exists c t, int_repr n = c :: t /\ value_start c = true.
Proof.
  unfold int_repr, pretty, pretty_N. case_decide; [by eexists _, _|].
  destruct (pretty_digits (N.of_nat n)) as (d & ds & -> & Hd & _); [lia|].
  exists d, ds. split; [done|]. unfold value_start. rewrite Hd. by rewrite !orb_true_r.
Qed.

Lemma iterencode_head lvl v : exists c t, iterencode lvl v = c :: t /\ value_start c = true.
Proof. destruct v as [n|s|[|x l]|[|[k x] d]]; try by eexists _, _. apply int_repr_head. Qed.

Lemma value_start_ws c : value_start c = true -> is_ws c = false.
Proof. unfold value_start, is_ws, is_digit. N_cmp; done. Qed.

(** An integer, read back. *)
Lemma read_int_repr f n rest :
  stops rest -> read_value (S f) (int_repr n ++ rest) = Some (VInt n, rest).
Proof.
  intros Hr. unfold int_repr, pretty, pretty_N. case_decide as Hn.
  - assert (n = 0%nat) as -> by lia. done.
  - destruct (pretty_digits (N.of_nat n)) as (d & ds & -> & Hd & Hd0 & Hds & Hv); [lia|].
    assert (is_ws d = false) as Hws by (apply value_start_ws; unfold value_start; by rewrite Hd, !orb_true_r).
    cbn [app read_value]. rewrite skip_ws_stop by done.
    destruct (N.eqb_spec d 34); [subst; discriminate|].
    destruct (N.eqb_spec d 91); [subst; discriminate|].
    destruct (N.eqb_spec d 123); [subst; discriminate|].
    destruct (N.eqb_spec d 48); [done|]. rewrite Hd, read_digits_app, Hv by done. by rewrite Nat2N.id.
Qed.

(** ** Values *)

(** The fuel the reader needs: one per value and one per element or
    member. *)
Fixpoint json_size (v : pyval) : nat :=
  match v with
  | VList l => S (sum_list_with (fun x => S (json_size x)) l)
  | VDict d => S (sum_list_with (fun '(_, x) => S (json_size x)) d)
  | _ => 1%nat
  end.

(** Compute the reader's tests on literal characters. *)
Ltac json_simp := cbn [app skip_ws is_ws N.eqb Pos.eqb orb andb negb].

(** What the induction hypothesis says of a value encoded at [lvl]. *)
Definition reads_back (lvl : nat) (v : pyval) : Prop :=
  forall f rest, (json_size v <= f)%nat -> stops rest -> read_value f (iterencode lvl v ++ rest) = Some (v, rest).

Lemma skip_ws_value lvl v s : skip_ws (iterencode lvl v ++ s) = iterencode lvl v ++ s.
Proof. destruct (iterencode_head lvl v) as (c & t & -> & Hc). apply skip_ws_stop, value_start_ws, Hc. Qed.

Lemma skip_ws_indent_close lvl c rest : is_ws c = false -> skip_ws (newline_indent lvl ++ c :: rest) = c :: rest.
Proof. intros Hc. rewrite skip_ws_app by done. by apply skip_ws_stop. Qed.

Lemma str_join_cons sep a l :
  str_join sep (a :: l) = a ++ match l with [] => [] | _ => sep ++ str_join sep l end.
Proof. destruct l; simpl; [by rewrite app_nil_r|done]. Qed.

(** After the opening bracket of a non-empty array or object comes the
    first element or member, which starts with no whitespace. *)
Lemma skip_ws_join_head {A} k sep (enc : A -> pystr) x l T :
  (exists c t, enc x = c :: t /\ value_start c = true) ->
  exists c r, skip_ws (newline_indent k ++ str_join sep (map enc (x :: l)) ++ T) = c :: r /\ value_start c = true.
Proof.
  intros (c & t & Hct & Hc). rewrite skip_ws_app by done. cbn [map]. rewrite str_join_cons, Hct.
  cbn [app]. rewrite skip_ws_stop by (by apply value_start_ws). eauto.
Qed.

(** The elements of a non-empty array, after its ['[']. *)
Lemma read_elems_enc lvl l f rest :
  l <> [] -> Forall (reads_back (S lvl)) l -> (sum_list_with (fun x => S (json_size x)) l <= f)%nat ->
  read_elems f (newline_indent (S lvl) ++ str_join (44 :: newline_indent (S lvl)) (map (iterencode (S lvl)) l)
                  ++ newline_indent lvl ++ 93 :: rest) = Some (l, rest).
Proof.
  intros Hne Hall. revert f. induction Hall as [|x l Hx Hall IH]; intros f Hf; [done|].
  destruct f as [|f]; simpl in Hf; [lia|].
  destruct l as [|y l].
  - cbn [map str_join read_elems]. rewrite read_value_ws, Hx by (done || lia).
    cbv [mbind option_bind]. rewrite skip_ws_indent_close by done. done.
  - cbn [map]. rewrite str_join_cons_cons. cbn [read_elems].
    rewrite read_value_ws by done. rewrite <- !app_assoc. rewrite Hx by (done || lia).
    cbv [mbind option_bind]. cbn [app]. rewrite skip_ws_stop by done. cbv iota. rewrite N.eqb_refl.
    rewrite IH by (done || lia). done.
Qed.

(** The members of a non-empty object, after its ['{']. *)
Lemma read_members_enc lvl d f rest :
  d <> [] -> Forall (fun kv => reads_back (S lvl) kv.2) d ->
  (sum_list_with (fun '(_, x) => S (json_size x)) d <= f)%nat ->
  read_members f (newline_indent (S lvl)
                    ++ str_join (44 :: newline_indent (S lvl))
                         (map (fun '(k, x) => encode_basestring k ++ s_ ": " ++ iterencode (S lvl) x) d)
                    ++ newline_indent lvl ++ 125 :: rest) = Some (d, rest).
Proof.
  intros Hne Hall. change (s_ ": ") with [58; 32].
  revert f. induction Hall as [|[k x] d Hx Hall IH]; intros f Hf; [done|].
  destruct f as [|f]; simpl in Hf; [lia|]. cbn [snd] in Hx.
  destruct d as [|[k' y] d].
  - cbn [map str_join read_members]. rewrite skip_ws_app by done. unfold encode_basestring.
    rewrite <- !app_assoc. json_simp.
    rewrite read_str_escape. cbv [mbind option_bind]. json_simp.
    rewrite read_value_space, Hx by (done || lia).
    rewrite skip_ws_indent_close by done. done.
  - cbn [map]. rewrite str_join_cons_cons. cbn [read_members]. rewrite skip_ws_app by done.
    unfold encode_basestring at 1. rewrite <- !app_assoc. json_simp.
    rewrite read_str_escape. cbv [mbind option_bind]. json_simp.
    rewrite read_value_space, Hx by (done || lia).
    json_simp.
    rewrite IH by (done || lia). done.
Qed.

(** Every value reads back from its encoding at any level. *)
Lemma read_iterencode v lvl : reads_back lvl v.
Proof.
  revert lvl. induction v as [n|s|l Hl|d Hd] using pyval_ind'; intros lvl f rest Hf Hr;
    (destruct f as [|f]; [simpl in Hf; lia|]).
  - by apply read_int_repr.
  - cbn [iterencode]. unfold encode_basestring. rewrite <- !app_assoc.
    cbn [read_value]. json_simp. rewrite read_str_escape. done.
  - destruct l as [|x l]; [done|]. cbn [iterencode]. rewrite <- !app_assoc. cbn [read_value]. json_simp.
    destruct (skip_ws_join_head (S lvl) (44 :: newline_indent (S lvl)) (iterencode (S lvl)) x l
                (newline_indent lvl ++ 93 :: rest)) as (c & r & -> & Hc); [apply iterencode_head|].
    destruct (N.eqb_spec c 93); [by subst|]. rewrite read_elems_enc; [reflexivity|done|by eapply Forall_impl|simpl in Hf |- *; lia].
  - destruct d as [|[k x] d]; [done|]. cbn [iterencode]. rewrite <- !app_assoc. cbn [read_value]. json_simp.
    destruct (skip_ws_join_head (S lvl) (44 :: newline_indent (S lvl))
                (fun '(k, x) => encode_basestring k ++ s_ ": " ++ iterencode (S lvl) x) (k, x) d
                (newline_indent lvl ++ 125 :: rest)) as (c & r & -> & Hc); [by eexists _, _|].
    destruct (N.eqb_spec c 125); [by subst|]. rewrite read_members_enc; [reflexivity|done|by eapply Forall_impl|simpl in Hf |- *; lia].
Qed.


(** ** The fuel is enough *)

Lemma length_str_join sep l :
  l <> [] -> (length (str_join sep l) + length sep = sum_list_with (fun e => length e + length sep) l)%nat.
Proof.
  intros Hne. induction l as [|x l IH]; [done|]. destruct l as [|y l]; simpl; [lia|].
  rewrite !length_app. simpl in IH. specialize (IH ltac:(done)). lia.
Qed.

Lemma sum_list_with_le {A} (f g : A -> nat) l :
  Forall (fun x => (f x <= g x)%nat) l -> (sum_list_with f l <= sum_list_with g l)%nat.
Proof. induction 1; simpl; lia. Qed.

Lemma length_newline_indent lvl : length (newline_indent lvl) = S (2 * lvl).
Proof. unfold newline_indent. simpl. by rewrite length_replicate. Qed.

Lemma length_iterencode_pos lvl v : (1 <= length (iterencode lvl v))%nat.
Proof. destruct (iterencode_head lvl v) as (c & t & -> & _). simpl. lia. Qed.

(** An encoding is at least as long as the fuel its value needs. *)
Lemma json_size_le lvl v : (json_size v <= length (iterencode lvl v))%nat.
Proof.
  revert lvl. induction v as [n|s|l Hl|d Hd] using pyval_ind'; intros lvl.
  - apply length_iterencode_pos.
  - simpl. lia.
  - destruct l as [|x l]; [simpl; lia|]. cbn [iterencode json_size].
    rewrite !length_app. cbn [length].
    pose proof (length_str_join (44 :: newline_indent (S lvl)) (map (iterencode (S lvl)) (x :: l)) ltac:(done)).
    rewrite sum_list_with_fmap in H.
    assert (sum_list_with (fun y => S (json_size y)) (x :: l) <=
            sum_list_with (fun y => length (iterencode (S lvl) y) + length (44%N :: newline_indent (S lvl))) (x :: l))%nat.
    { apply sum_list_with_le. eapply Forall_impl; [exact Hl|]. intros y Hy. simpl. specialize (Hy (S lvl)). lia. }
    cbn [length] in *. lia.
  - destruct d as [|[k x] d]; [simpl; lia|]. cbn [iterencode json_size].
    rewrite !length_app. cbn [length].
    pose proof (length_str_join (44 :: newline_indent (S lvl))
                  (map (fun '(k, x) => encode_basestring k ++ s_ ": " ++ iterencode (S lvl) x) ((k, x) :: d)) ltac:(done)).
    rewrite sum_list_with_fmap in H.
    assert (sum_list_with (fun '(_, y) => S (json_size y)) ((k, x) :: d) <=
            sum_list_with (fun kv => length ((fun '(k, x) => encode_basestring k ++ s_ ": " ++ iterencode (S lvl) x) kv)
                                     + length (44%N :: newline_indent (S lvl))) ((k, x) :: d))%nat.
    { apply sum_list_with_le. eapply Forall_impl; [exact Hd|]. intros [k' y] Hy. cbv beta iota in Hy |- *.
      rewrite !length_app. specialize (Hy (S lvl)). cbn [snd length] in Hy |- *. lia. }
    cbn [length] in *. lia.
Qed.

Lemma ws_only_stops w : ws_only w -> stops w.
Proof. intros [|c w' Hc _]; [done|]. simpl. unfold is_ws, is_digit in *. revert Hc. N_cmp; done. Qed.

(** [json.loads] of an encoding followed by whitespace. *)
Lemma json_loads_dumps v w : ws_only w -> json_loads (dumps v ++ w) = Some v.
Proof.
  intros Hw. unfold json_loads, dumps. rewrite read_iterencode.
  - cbv [mbind option_bind]. rewrite <- (app_nil_r w), skip_ws_app by done. by rewrite decide_True.
  - rewrite length_app. pose proof (json_size_le 0 v). lia.
  - by apply ws_only_stops.
Qed.

Lemma escape_char_plain c : 32 <= c -> c <> 34 -> c <> 92 -> escape_char c = [c].
Proof. intros H32 H34 H92. unfold escape_char. N_cmp; done. Qed.

(** * Properties *)

(** (C19) Round trip: what [json.dumps(v, ensure_ascii=False, indent=2)]
    writes is read back by [json.loads] as [v], for every value the result
    dictionary can hold: nested lists and dicts, strings with quotes,
    backslashes and control characters, integers of any size. *)
Theorem dumps_roundtrip v : json_loads (dumps v) = Some v.
Proof. rewrite <- (app_nil_r (dumps v)). apply json_loads_dumps. constructor. Qed.

(** [ensure_ascii=False]: a string without control characters,
    quotes or backslashes is written between quotes exactly as it is, so
    the Chinese text of the documents and the default ['未知'] appear in
    the output unescaped. *)
Theorem encode_basestring_verbatim s :
  Forall (fun c => 32 <= c /\ c <> 34 /\ c <> 92) s -> encode_basestring s = 34 :: s ++ [34].
Proof.
  intros Hs. unfold encode_basestring. simpl. f_equal. f_equal.
  induction Hs as [|c s (H32 & H34 & H92) _ IH]; [done|]. simpl. by rewrite escape_char_plain, IH.
Qed.

Section main_properties.
Variable dir_load : pystr -> list doc.
Variable llama_load : pystr -> list doc.

(** (C20) The [__main__] block of [load_file.py] returns, leaves
    [load_file("90-文档-Data/山西文旅/佛光寺-ch.pdf")] in the global
    [result], and writes to stdout what [load_file] printed (the LlamaParse
    message when it fell back), the header line, and then a text that
    [json.loads] reads back as exactly that result, followed by a
    newline. *)
Theorem main_block_prints_result globals :
  exists g body, main_block dir_load llama_load globals =
      POk (g, (load_file dir_load llama_load main_input).2 ++ main_header ++ [nl] ++ body ++ [nl]) /\
    dict_get (s_ "result") g = Some (load_file dir_load llama_load main_input).1 /\
    json_loads body = Some (load_file dir_load llama_load main_input).1.
Proof.
  unfold main_block, run_main. destruct (load_file dir_load llama_load main_input) as [result out]. simpl.
  exists (dict_set (s_ "result") result globals), (dumps result).
  rewrite dict_get_set_eq. unfold print_line. rewrite <- ?app_assoc. do 2 (split; [done|]).
  rewrite <- (app_nil_r (dumps _)). apply json_loads_dumps. constructor.
Qed.
End main_properties.
